(** * ProcessingHelper: the AI orchestration pipeline of the screenshot assistant

    A shallow embedding of [ProcessingHelper.ts]: the response
    parsers (regular expressions over JavaScript strings), the three provider
    adapters of [callAIModel], and the request orchestrator
    ([processScreenshots], its helpers and [cancelOngoingRequests]) written
    with explicit state passing over the fields the class mutates. *)

From Stdlib Require Import String Ascii.
From Stdlib Require Import List NArith Arith Bool Lia.
Import ListNotations.

(** ** JavaScript strings

    A JavaScript string is a sequence of UTF-16 code units; [js] embeds an
    ASCII literal of the source. *)

Definition jsstring := list N.

Definition js (s : string) : jsstring :=
  map N_of_ascii (list_ascii_of_string s).

Definition jsstring_eqb (a b : jsstring) : bool :=
  if list_eq_dec N.eq_dec a b then true else false.

(** WhiteSpace and LineTerminator code units: what [\s] matches and what
    [String.prototype.trim] strips. *)
Definition isWhiteSpace (c : N) : bool :=
  ((9 <=? c) && (c <=? 13) || (c =? 32) || (c =? 160) || (c =? 5760)
   || (8192 <=? c) && (c <=? 8202) || (c =? 8232) || (c =? 8233)
   || (c =? 8239) || (c =? 8287) || (c =? 12288) || (c =? 65279))%N.

(** [\w] *)
Definition isWordChar (c : N) : bool :=
  ((48 <=? c) && (c <=? 57) || (65 <=? c) && (c <=? 90) || (c =? 95)
   || (97 <=? c) && (c <=? 122))%N.

(** [\d] *)
Definition isDigit (c : N) : bool := ((48 <=? c) && (c <=? 57))%N.

(** [a-zA-Z] *)
Definition isLetter (c : N) : bool :=
  ((65 <=? c) && (c <=? 90) || (97 <=? c) && (c <=? 122))%N.

Definition isLineTerminator (c : N) : bool :=
  ((c =? 10) || (c =? 13) || (c =? 8232) || (c =? 8233))%N.

(** [.] without the s flag *)
Definition isDot (c : N) : bool := negb (isLineTerminator c).

(** [[\s\S]] *)
Definition isAny (_ : N) : bool := true.

Definition LF : N := 10%N.

(** Canonicalize of a non-unicode, ignoreCase regular expression, on the
    code units the patterns of this file mention: ASCII letters fold to upper
    case, and no code unit above 127 folds onto an ASCII one. *)
Definition canonicalize (c : N) : N :=
  if ((97 <=? c) && (c <=? 122))%N then (c - 32)%N else c.

Fixpoint dropWhile (p : N -> bool) (s : jsstring) : jsstring :=
  match s with
  | [] => []
  | x :: s' => if p x then dropWhile p s' else s
  end.

Definition trimStart (s : jsstring) : jsstring := dropWhile isWhiteSpace s.
Definition trimEnd (s : jsstring) : jsstring := rev (trimStart (rev s)).
Definition trim (s : jsstring) : jsstring := trimEnd (trimStart s).

Fixpoint startsWith (p s : jsstring) : bool :=
  match p, s with
  | [], _ => true
  | _ :: _, [] => false
  | a :: p', b :: s' => (a =? b)%N && startsWith p' s'
  end.

(** [s.indexOf(p)] *)
Fixpoint indexOf (p s : jsstring) : option nat :=
  if startsWith p s then Some 0
  else match s with
       | [] => None
       | _ :: s' => option_map S (indexOf p s')
       end.

(** [s.includes(p)] *)
Definition includes (p s : jsstring) : bool :=
  match indexOf p s with Some _ => true | None => false end.

(** [s.replace(p, r)] with a string pattern: the first occurrence only. *)
Definition replaceStr (p r s : jsstring) : jsstring :=
  match indexOf p s with
  | Some i => firstn i s ++ r ++ skipn (i + length p) s
  | None => s
  end.

(** [s.split('\n')] *)
Fixpoint splitLines (s : jsstring) : list jsstring :=
  match s with
  | [] => [[]]
  | x :: s' =>
      if (x =? LF)%N then [] :: splitLines s'
      else match splitLines s' with
           | l :: ls => (x :: l) :: ls
           | [] => [[x]]
           end
  end.

(** [Boolean(s)] for a string *)
Definition truthy (s : jsstring) : bool :=
  match s with [] => false | _ :: _ => true end.

(** ** Regular expressions

    The patterns of the source are kept as syntax and run by a backtracking
    matcher in continuation-passing style, with the priorities of the
    ECMAScript matcher: alternatives left to right, greedy quantifiers
    longest first, lazy quantifiers shortest first, an iteration of a
    quantifier that consumes nothing is rejected. Every pattern of the source
    has at most one capturing group. *)

Inductive regex : Type :=
| Empty
| Class (p : N -> bool)
| Seq (r1 r2 : regex)
| Alt (r1 r2 : regex)
| Star (greedy : bool) (r : regex)
| Group (r : regex)
| Ahead (r : regex)
| Bol
| Eol.

Definition Chr (c : N) : regex := Class (N.eqb c).
Definition ChrI (c : N) : regex :=
  Class (fun x => (canonicalize x =? canonicalize c)%N).
Definition NotChr (c : N) : regex := Class (fun x => negb (x =? c)%N).
Definition Str (s : jsstring) : regex := fold_right (fun c r => Seq (Chr c) r) Empty s.
Definition StrI (s : jsstring) : regex := fold_right (fun c r => Seq (ChrI c) r) Empty s.
Definition Plus (greedy : bool) (r : regex) : regex := Seq r (Star greedy r).
Definition Opt (r : regex) : regex := Alt r Empty.

(** Concatenation and alternation of several patterns. *)
Definition Cat (rs : list regex) : regex := fold_right Seq Empty rs.
Fixpoint OneOf (rs : list regex) : regex :=
  match rs with
  | [] => Class (fun _ => false)
  | [r] => r
  | r :: rs' => Alt r (OneOf rs')
  end.

(** The value of capturing group 1: [None] is [undefined]. *)
Definition capture := option jsstring.

Definition orElse {R : Type} (a : option R) (b : unit -> option R) : option R :=
  match a with
  | Some x => Some x
  | None => b tt
  end.

Section Matcher.

(** Length of the whole input, to recognise its start. *)
Variable n0 : nat.

Section Loop.
Variable R : Type.
Variable body : jsstring -> capture -> (jsstring -> capture -> option R) -> option R.
Variable greedy : bool.
Variable k : jsstring -> capture -> option R.

(** RepeatMatcher for [r*] and [r*?]; every iteration consumes input, so
    [S (length s)] rounds are enough. *)
Fixpoint repeat_ (fuel : nat) (s : jsstring) (c : capture) : option R :=
  match fuel with
  | O => k s c
  | S fuel' =>
      let again (_ : unit) :=
        body s c (fun s' c' =>
          if length s' <? length s then repeat_ fuel' s' c' else None) in
      let stop (_ : unit) := k s c in
      if greedy then orElse (again tt) stop else orElse (stop tt) again
  end.
End Loop.

Fixpoint mt (R : Type) (r : regex) (s : jsstring) (c : capture)
         (k : jsstring -> capture -> option R) {struct r} : option R :=
  match r with
  | Empty => k s c
  | Class p =>
      match s with
      | x :: s' => if p x then k s' c else None
      | [] => None
      end
  | Seq r1 r2 => mt R r1 s c (fun s1 c1 => mt R r2 s1 c1 k)
  | Alt r1 r2 => orElse (mt R r1 s c k) (fun _ => mt R r2 s c k)
  | Star g r1 => repeat_ R (mt R r1) g k (S (length s)) s c
  | Group r1 =>
      mt R r1 s c (fun s1 _ => k s1 (Some (firstn (length s - length s1) s)))
  | Ahead r1 =>
      match mt capture r1 s c (fun _ c1 => Some c1) with
      | Some c1 => k s c1
      | None => None
      end
  | Bol => if length s =? n0 then k s c else None
  | Eol => match s with [] => k s c | _ :: _ => None end
  end.

End Matcher.

Arguments repeat_ {R} body greedy k fuel s c.
Arguments mt n0 {R} r s c k.

(** The result of [RegExp.prototype.exec]: the text before the match, the
    match, group 1 and the text after the match. *)
Record MatchResult : Type := mkMatch {
  before : jsstring;
  matched : jsstring;
  group1 : capture;
  after : jsstring
}.

Definition matchAt (n0 : nat) (r : regex) (s : jsstring) : option (jsstring * capture) :=
  mt n0 r s None (fun s' c => Some (s', c)).

(** Leftmost match at or after the current position; [pre] is the input
    already passed, reversed. *)
Fixpoint search (n0 : nat) (r : regex) (pre s : jsstring) : option MatchResult :=
  match matchAt n0 r s with
  | Some (s', c) =>
      Some (mkMatch (rev pre) (firstn (length s - length s') s) c s')
  | None =>
      match s with
      | [] => None
      | x :: s' => search n0 r (x :: pre) s'
      end
  end.

(** [s.match(r)] for a pattern without the g flag *)
Definition exec (r : regex) (s : jsstring) : option MatchResult :=
  search (length s) r [] s.

(** [r.test(s)], and [s.match(r)] used as a condition *)
Definition test (r : regex) (s : jsstring) : bool :=
  match exec r s with Some _ => true | None => false end.

(** [s.replace(r, rep)] for a pattern without the g flag and a replacement
    without [$] *)
Definition replaceRe (r : regex) (rep s : jsstring) : jsstring :=
  match exec r s with
  | Some m => before m ++ rep ++ after m
  | None => s
  end.

(** All matches of a pattern with the g flag, left to right; after an empty
    match the search resumes one code unit further. *)
Fixpoint matchesFrom (fuel n0 : nat) (r : regex) (pre s : jsstring) : list MatchResult :=
  match fuel with
  | O => []
  | S fuel' =>
      match search n0 r pre s with
      | None => []
      | Some m =>
          m :: match matched m, after m with
               | [], [] => []
               | [], x :: rest =>
                   matchesFrom fuel' n0 r (x :: rev (before m)) rest
               | _ :: _, rest =>
                   matchesFrom fuel' n0 r (rev (before m ++ matched m)) rest
               end
      end
  end.

Definition matchesG (r : regex) (s : jsstring) : list MatchResult :=
  matchesFrom (S (length s)) (length s) r [] s.

(** [s.match(r)] for a pattern with the g flag: the matched strings, or
    [null] when there is none. *)
Definition matchAll (r : regex) (s : jsstring) : option (list jsstring) :=
  match matchesG r s with
  | [] => None
  | ms => Some (map matched ms)
  end.

(** ** The solution-stage parser (generateSolutionsHelper, after the provider call) *)

Definition ch (a : ascii) : N := N_of_ascii a.
Arguments ch a%_char.

Definition ws : regex := Class isWhiteSpace.
Definition notLF : regex := NotChr LF.

Definition fence : jsstring := js "```".

(** [/```(?:\w+)?\s*([\s\S]*?)```/] *)
Definition codeRegex : regex :=
  Cat [Str fence; Opt (Plus true (Class isWordChar)); Star true ws;
       Group (Star false (Class isAny)); Str fence].

(** [/(?:Thoughts:|Key Insights:|Reasoning:|Approach:)([\s\S]*?)(?:Time complexity:|$)/i] *)
Definition thoughtsRegex : regex :=
  Cat [OneOf [StrI (js "Thoughts:"); StrI (js "Key Insights:");
              StrI (js "Reasoning:"); StrI (js "Approach:")];
       Group (Star false (Class isAny));
       OneOf [StrI (js "Time complexity:"); Eol]].

(** [[-*•]]: the bullet is U+2022 *)
Definition isBullet (c : N) : bool :=
  ((c =? ch "-") || (c =? ch "*") || (c =? 8226))%N.

(** [(?:[-*•]|\d+\.)] *)
Definition bulletMark : regex :=
  Alt (Class isBullet) (Seq (Plus true (Class isDigit)) (Chr (ch "."))).

(** [/(?:^|\n)\s*(?:[-*•]|\d+\.)\s*(.* )/g] (the group is [.] starred) *)
Definition bulletRegex : regex :=
  Cat [Alt Bol (Chr LF); Star true ws; bulletMark; Star true ws;
       Group (Star true (Class isDot))].

(** [/^\s*(?:[-*•]|\d+\.)\s*/] *)
Definition bulletPrefixRegex : regex :=
  Cat [Bol; Star true ws; bulletMark; Star true ws].

(** [([^\n]+(?:\n[^\n]+)*?)] *)
Definition spanGroup : regex :=
  Group (Seq (Plus true notLF) (Star false (Seq (Chr LF) (Plus true notLF)))).

(** [/Time complexity:?\s*([^\n]+(?:\n[^\n]+)*?)(?=\n\s*(?:Space complexity|$))/i] *)
Definition timeComplexityPattern : regex :=
  Cat [StrI (js "Time complexity"); Opt (ChrI (ch ":")); Star true ws; spanGroup;
       Ahead (Cat [Chr LF; Star true ws; Alt (StrI (js "Space complexity")) Eol])].

(** [/Space complexity:?\s*([^\n]+(?:\n[^\n]+)*?)(?=\n\s*(?:[A-Z]|$))/i];
    under the i flag [[A-Z]] is every ASCII letter. *)
Definition spaceComplexityPattern : regex :=
  Cat [StrI (js "Space complexity"); Opt (ChrI (ch ":")); Star true ws; spanGroup;
       Ahead (Cat [Chr LF; Star true ws; Alt (Class isLetter) Eol])].

(** [/O\([^)]+\)/i] *)
Definition notationRegex : regex :=
  Cat [ChrI (ch "O"); Chr (ch "("); Plus true (NotChr (ch ")")); Chr (ch ")")].

Definition defaultTimeComplexity : jsstring :=
  js "O(n) - Linear time complexity because we only iterate through the array once. Each element is processed exactly one time, and the hashmap lookups are O(1) operations.".

Definition defaultSpaceComplexity : jsstring :=
  js "O(n) - Linear space complexity because we store elements in the hashmap. In the worst case, we might need to store all elements before finding the solution pair.".

Definition defaultThoughts : list jsstring :=
  [js "Solution approach based on efficiency and readability"].

Record SolutionPayload : Type := mkSolution {
  code : jsstring;
  thoughts : list jsstring;
  time_complexity : jsstring;
  space_complexity : jsstring
}.

(** Lines 497-498. Group 1 takes part in every match of the pattern, so
    the [None] case of [group1] does not arise. *)
Definition extractCode (responseContent : jsstring) : jsstring :=
  match exec codeRegex responseContent with
  | Some codeMatch =>
      match group1 codeMatch with
      | Some g => trim g
      | None => []
      end
  | None => responseContent
  end.

(** Lines 501-518: the list [thoughts] before the final default. *)
Definition extractThoughts (responseContent : jsstring) : list jsstring :=
  match exec thoughtsRegex responseContent with
  | Some thoughtsMatch =>
      match group1 thoughtsMatch with
      | Some ((_ :: _) as span) =>
          match matchAll bulletRegex span with
          | Some bulletPoints =>
              filter truthy
                (map (fun point => trim (replaceRe bulletPrefixRegex [] point))
                     bulletPoints)
          | None =>
              filter truthy (map trim (splitLines span))
          end
      | _ => []
      end
  | None => []
  end.

(** Lines 529-539 and, with the same text, 544-554: what becomes of a
    captured complexity span. *)
Definition formatComplexity (captured : jsstring) : jsstring :=
  let complexity := trim captured in
  if negb (test notationRegex complexity) then
    js "O(n) - " ++ complexity
  else if negb (includes (js "-") complexity)
          && negb (includes (js "because") complexity) then
    match exec notationRegex complexity with
    | Some notationMatch =>
        let notation := matched notationMatch in
        let rest := trim (replaceStr notation [] complexity) in
        notation ++ js " - " ++ rest
    | None => complexity
    end
  else complexity.

(** Lines 527-540 and 542-555. *)
Definition extractComplexity (pattern : regex) (default responseContent : jsstring)
  : jsstring :=
  match exec pattern responseContent with
  | Some m =>
      match group1 m with
      | Some ((_ :: _) as span) => formatComplexity span
      | _ => default
      end
  | None => default
  end.

(** Lines 496-562. *)
Definition parseSolution (responseContent : jsstring) : SolutionPayload :=
  let thoughts := extractThoughts responseContent in
  {| code := extractCode responseContent;
     thoughts := match thoughts with [] => defaultThoughts | _ :: _ => thoughts end;
     time_complexity :=
       extractComplexity timeComplexityPattern defaultTimeComplexity responseContent;
     space_complexity :=
       extractComplexity spaceComplexityPattern defaultSpaceComplexity responseContent |}.

(** ** The debug-stage parser (processExtraScreenshotsHelper, after the provider call) *)

(** [/```(?:[a-zA-Z]+)?([\s\S]*?)```/] *)
Definition debugCodeRegex : regex :=
  Cat [Str fence; Opt (Plus true (Class isLetter));
       Group (Star false (Class isAny)); Str fence].

Definition sp : regex := Chr (ch " ").

(** [/(?:^|\n)[ ]*(?:[-*•]|\d+\.)[ ]+([^\n]+)/g] *)
Definition debugBulletRegex : regex :=
  Cat [Alt Bol (Chr LF); Star true sp; bulletMark; Plus true sp;
       Group (Plus true notLF)].

(** [/^[ ]*(?:[-*•]|\d+\.)[ ]+/] *)
Definition debugBulletPrefixRegex : regex :=
  Cat [Bol; Star true sp; bulletMark; Plus true sp].

(** [/issues identified|problems found|bugs found/i] and the three after it *)
Definition issuesRegex : regex :=
  OneOf [StrI (js "issues identified"); StrI (js "problems found");
         StrI (js "bugs found")].
Definition improvementsRegex : regex :=
  OneOf [StrI (js "code improvements"); StrI (js "improvements");
         StrI (js "suggested changes")].
Definition optimizationsRegex : regex :=
  OneOf [StrI (js "optimizations"); StrI (js "performance improvements")].
Definition explanationRegex : regex :=
  OneOf [StrI (js "explanation"); StrI (js "detailed analysis")].

Record DebugPayload : Type := mkDebug {
  debug_code : jsstring;
  debug_analysis : jsstring;
  debug_thoughts : list jsstring;
  debug_time_complexity : jsstring;
  debug_space_complexity : jsstring
}.

(** Lines 630-634. *)
Definition extractDebugCode (debugContent : jsstring) : jsstring :=
  match exec debugCodeRegex debugContent with
  | Some codeMatch =>
      match group1 codeMatch with
      | Some ((_ :: _) as g) => trim g
      | _ => js "// Debug mode - see analysis below"
      end
  | None => js "// Debug mode - see analysis below"
  end.

(** Lines 636-644. *)
Definition formatDebugContent (debugContent : jsstring) : jsstring :=
  if negb (includes (js "# ") debugContent)
     && negb (includes (js "## ") debugContent) then
    replaceRe explanationRegex (js "## Explanation")
      (replaceRe optimizationsRegex (js "## Optimizations")
        (replaceRe improvementsRegex (js "## Code Improvements")
          (replaceRe issuesRegex (js "## Issues Identified") debugContent)))
  else debugContent.

(** Lines 646-649; [slice(0, 5)] is [firstn 5]. *)
Definition extractDebugThoughts (formattedDebugContent : jsstring) : list jsstring :=
  match matchAll debugBulletRegex formattedDebugContent with
  | Some bulletPoints =>
      firstn 5
        (map (fun point => trim (replaceRe debugBulletPrefixRegex [] point))
             bulletPoints)
  | None => [js "Debug analysis based on your screenshots"]
  end.

(** Lines 630-657. *)
Definition parseDebug (debugContent : jsstring) : DebugPayload :=
  let formattedDebugContent := formatDebugContent debugContent in
  {| debug_code := extractDebugCode debugContent;
     debug_analysis := formattedDebugContent;
     debug_thoughts := extractDebugThoughts formattedDebugContent;
     debug_time_complexity := js "N/A - Debug mode";
     debug_space_complexity := js "N/A - Debug mode" |}.

(** ** Data of the orchestrator *)

(** IProblemStatementData, as [JSON.parse] delivers it: a field the model
    left out reads as [undefined]. *)
Record ProblemInfo : Type := mkProblem {
  problem_statement : option jsstring;
  constraints : option jsstring;
  example_input : option jsstring;
  example_output : option jsstring
}.

(** [deps.getView()]; the debug branch is taken for every view but [queue]. *)
Inductive View : Type := queue | solutions.

Inductive ApiProvider : Type := openai | gemini | anthropic | otherProvider.

Record Config : Type := mkConfig {
  apiKey : jsstring;
  apiProvider : ApiProvider;
  extractionModel : jsstring;
  solutionModel : jsstring;
  debuggingModel : jsstring;
  language : jsstring
}.

Inductive ModelType : Type := extraction | solution | debugging.

(** The keys of [deps.PROCESSING_EVENTS] this class sends. *)
Inductive EventKey : Type :=
| API_KEY_INVALID
| INITIAL_START
| NO_SCREENSHOTS
| PROBLEM_EXTRACTED
| SOLUTION_SUCCESS
| INITIAL_SOLUTION_ERROR
| DEBUG_START
| DEBUG_SUCCESS
| DEBUG_ERROR.

Inductive Payload : Type :=
| NoPayload
| Text (s : jsstring)
| Problem (p : option ProblemInfo)
| Solution (p : SolutionPayload).

(** What the main window is asked about. [isInitialized] says whether
    [window.__IS_INITIALIZED__] turns true within the fifty polls of
    [waitForInitialization]; [windowLanguage] is [window.__LANGUAGE__] when it
    is a string. *)
Record Window : Type := mkWindow {
  isDestroyed : bool;
  isInitialized : bool;
  windowLanguage : option jsstring
}.

Record AbortController : Type := mkAbortController { aborted : bool }.

Inductive Flow : Type := MainFlow | DebugFlow.

(** One request to a vendor. *)
Record Request : Type := mkRequest {
  req_provider : ApiProvider;
  req_model : jsstring;
  req_system : option jsstring;
  req_prompt : jsstring;
  req_images : list jsstring
}.

(** Everything the class does to the outside, in order. [Send] is
    [mainWindow.webContents.send(eventName, payload)] of
    [sendProcessingEvent]; [Status] is the "processing-status" message. *)
Inductive Effect : Type :=
| Send (e : EventKey) (p : Payload)
| Status (message : jsstring) (progress : nat)
| SetView (v : View)
| SetProblemInfo (p : option ProblemInfo)
| SetHasDebugged (b : bool)
| ClearExtraScreenshotQueue
| ProviderCall (r : Request)
| Abort (f : Flow).

(** What a vendor call can throw, by the tests of the catch clauses. *)
Inductive JsError : Type :=
| ClaudeAPIError (status : option N)
| OpenAiAPIError (status : option N)
| AxiosCancel
| Error (message : jsstring)
| NonError.

(** The parts of the vendors' responses that [callAIModel] reads:
    [choices[i].message.content] (string or null),
    [candidates[i].content.parts[j].text], and [content[i].text], which is
    [undefined] on a block that is not a text block. *)
Record OpenAIResponse : Type := mkOpenAIResponse {
  choices : list (option jsstring)
}.
Record GeminiResponse : Type := mkGeminiResponse {
  candidates : list (list jsstring)
}.
Record AnthropicResponse : Type := mkAnthropicResponse {
  content : list (option jsstring)
}.

Inductive JsonParse : Type :=
| SyntaxError (message : jsstring)
| Parsed (value : option ProblemInfo).

(** The collaborators of the class: configuration, file system, the three
    vendors, and [JSON.parse]. A [Parsed None] is a falsy JSON value. The
    configuration is read afresh at every [loadConfig()] of the source and
    is taken not to change while one call of the class runs. *)
Record World : Type := mkWorld {
  loadConfig : Config;
  existsSync : jsstring -> bool;
  readScreenshot : jsstring -> option (jsstring * jsstring);
  openaiCreate : Request -> OpenAIResponse + JsError;
  geminiPost : Request -> GeminiResponse + JsError;
  anthropicCreate : Request -> AnthropicResponse + JsError;
  JSON_parse : jsstring -> JsonParse
}.

(** The fields of the class and of the application state behind [deps]. *)
Record State : Type := mkState {
  mainWindow : option Window;
  view : View;
  problemInfo : option ProblemInfo;
  hasDebugged : bool;
  screenshotQueue : list jsstring;
  extraScreenshotQueue : list jsstring;
  openaiClient : option jsstring;
  geminiApiKey : option jsstring;
  anthropicClient : option jsstring;
  currentProcessingAbortController : option AbortController;
  currentExtraProcessingAbortController : option AbortController;
  trace : list Effect
}.

Definition withTrace (tr : list Effect) (st : State) : State :=
  mkState (mainWindow st) (view st) (problemInfo st) (hasDebugged st)
    (screenshotQueue st) (extraScreenshotQueue st) (openaiClient st)
    (geminiApiKey st) (anthropicClient st)
    (currentProcessingAbortController st)
    (currentExtraProcessingAbortController st) tr.

(** Record one more effect. *)
Definition emit (e : Effect) (st : State) : State :=
  withTrace (trace st ++ [e]) st.

Definition setView (v : View) (st : State) : State :=
  emit (SetView v)
    (mkState (mainWindow st) v (problemInfo st) (hasDebugged st)
       (screenshotQueue st) (extraScreenshotQueue st) (openaiClient st)
       (geminiApiKey st) (anthropicClient st)
       (currentProcessingAbortController st)
       (currentExtraProcessingAbortController st) (trace st)).

Definition setProblemInfo (p : option ProblemInfo) (st : State) : State :=
  emit (SetProblemInfo p)
    (mkState (mainWindow st) (view st) p (hasDebugged st)
       (screenshotQueue st) (extraScreenshotQueue st) (openaiClient st)
       (geminiApiKey st) (anthropicClient st)
       (currentProcessingAbortController st)
       (currentExtraProcessingAbortController st) (trace st)).

Definition setHasDebugged (b : bool) (st : State) : State :=
  emit (SetHasDebugged b)
    (mkState (mainWindow st) (view st) (problemInfo st) b
       (screenshotQueue st) (extraScreenshotQueue st) (openaiClient st)
       (geminiApiKey st) (anthropicClient st)
       (currentProcessingAbortController st)
       (currentExtraProcessingAbortController st) (trace st)).

Definition clearExtraScreenshotQueue (st : State) : State :=
  emit ClearExtraScreenshotQueue
    (mkState (mainWindow st) (view st) (problemInfo st) (hasDebugged st)
       (screenshotQueue st) [] (openaiClient st)
       (geminiApiKey st) (anthropicClient st)
       (currentProcessingAbortController st)
       (currentExtraProcessingAbortController st) (trace st)).

Definition setClients (o g a : option jsstring) (st : State) : State :=
  mkState (mainWindow st) (view st) (problemInfo st) (hasDebugged st)
    (screenshotQueue st) (extraScreenshotQueue st) o g a
    (currentProcessingAbortController st)
    (currentExtraProcessingAbortController st) (trace st).

Definition setProcessingController (c : option AbortController) (st : State) : State :=
  mkState (mainWindow st) (view st) (problemInfo st) (hasDebugged st)
    (screenshotQueue st) (extraScreenshotQueue st) (openaiClient st)
    (geminiApiKey st) (anthropicClient st) c
    (currentExtraProcessingAbortController st) (trace st).

Definition setExtraProcessingController (c : option AbortController) (st : State) : State :=
  mkState (mainWindow st) (view st) (problemInfo st) (hasDebugged st)
    (screenshotQueue st) (extraScreenshotQueue st) (openaiClient st)
    (geminiApiKey st) (anthropicClient st)
    (currentProcessingAbortController st) c (trace st).

(** [mainWindow && !mainWindow.isDestroyed()] *)
Definition windowAlive (st : State) : bool :=
  match mainWindow st with
  | Some w => negb (isDestroyed w)
  | None => false
  end.

(** Lines 821-826. *)
Definition updateProcessingStatus (message : jsstring) (progress : nat) (st : State)
  : State :=
  if windowAlive st then emit (Status message progress) st else st.

(** Lines 828-837. *)
Definition sendProcessingEvent (eventKey : EventKey) (payload : Payload) (st : State)
  : State :=
  if negb (windowAlive st) then st else emit (Send eventKey payload) st.

(** Lines 839-862. *)
Definition cancelOngoingRequests (st : State) : State :=
  let wasCancelled := false in
  let '(st, wasCancelled) :=
    match currentProcessingAbortController st with
    | Some _ => (setProcessingController None (emit (Abort MainFlow) st), true)
    | None => (st, wasCancelled)
    end in
  let '(st, wasCancelled) :=
    match currentExtraProcessingAbortController st with
    | Some _ => (setExtraProcessingController None (emit (Abort DebugFlow) st), true)
    | None => (st, wasCancelled)
    end in
  let st := setHasDebugged false st in
  let st := setProblemInfo None st in
  if wasCancelled && windowAlive st then
    sendProcessingEvent NO_SCREENSHOTS NoPayload st
  else st.

(** All replacements of [s.replace(r, rep)] for a pattern with the g flag. *)
Fixpoint replaceAllFrom (fuel n0 : nat) (r : regex) (rep pre s : jsstring) : jsstring :=
  match fuel with
  | O => s
  | S fuel' =>
      match search n0 r pre s with
      | None => s
      | Some m =>
          skipn (length pre) (before m) ++ rep ++
          match matched m, after m with
          | [], [] => []
          | [], x :: rest =>
              x :: replaceAllFrom fuel' n0 r rep (x :: rev (before m)) rest
          | _ :: _, rest =>
              replaceAllFrom fuel' n0 r rep (rev (before m ++ matched m)) rest
          end
      end
  end.

Definition replaceAllRe (r : regex) (rep s : jsstring) : jsstring :=
  replaceAllFrom (S (length s)) (length s) r rep [] s.

(** [/```json|```/g] *)
Definition jsonFenceRegex : regex := Alt (Str (js "```json")) (Str fence).

Inductive Result (A : Type) : Type :=
| Success (data : A)
| Failure (error : jsstring).
Arguments Success {A} data.
Arguments Failure {A} error.

Definition dquote : jsstring := [34%N].

(** [a || b] on strings *)
Definition orDefault (a b : jsstring) : jsstring := if truthy a then a else b.

(** A template slot holding a field that may be [undefined]. *)
Definition show (o : option jsstring) : jsstring :=
  match o with Some s => s | None => js "undefined" end.

Definition optOr (o : option jsstring) (d : jsstring) : jsstring :=
  match o with Some s => orDefault s d | None => d end.

(** Lines 386-388. *)
Definition extractionPrompt (language : jsstring) : jsstring :=
  js "
Extract the coding problem details from these screenshots. Return in JSON format.
Preferred coding language we gonna use for this problem is " ++ language ++ js ".".

(** Lines 454-480. *)
Definition solutionPrompt (problemInfo : ProblemInfo) (language : jsstring) : jsstring :=
  js "
Generate a detailed solution for the following coding problem:

PROBLEM STATEMENT:
" ++ show (problem_statement problemInfo) ++ js "

CONSTRAINTS:
" ++ optOr (constraints problemInfo) (js "No specific constraints provided.") ++ js "

EXAMPLE INPUT:
" ++ optOr (example_input problemInfo) (js "No example input provided.") ++ js "

EXAMPLE OUTPUT:
" ++ optOr (example_output problemInfo) (js "No example output provided.") ++ js "

LANGUAGE: " ++ language ++ js "

I need the response in the following format:
1. Code: A clean, optimized implementation in " ++ language ++ js "
2. Your Thoughts: A list of key insights and reasoning behind your approach
3. Time complexity: O(X) with a detailed explanation (at least 2 sentences)
4. Space complexity: O(X) with a detailed explanation (at least 2 sentences)

For complexity explanations, please be thorough. For example: " ++ dquote ++
  js "Time complexity: O(n) because we iterate through the array only once. This is optimal as we need to examine each element at least once to find the solution." ++ dquote ++ js " or " ++ dquote ++
  js "Space complexity: O(n) because in the worst case, we store all elements in the hashmap. The additional space scales linearly with the input size." ++ dquote ++ js "

Your solution should be efficient, well-commented, and handle edge cases.
".

(** Lines 587-613. *)
Definition debugPrompt (problemInfo : ProblemInfo) (language : jsstring) : jsstring :=
  js "
You are a coding interview assistant helping debug and improve solutions. Analyze these screenshots which include either error messages, incorrect outputs, or test cases, and provide detailed debugging help.

I'm solving this coding problem: " ++ dquote ++ show (problem_statement problemInfo) ++ dquote ++
  js " in " ++ language ++ js ". I need help with debugging or improving my solution. Here are screenshots of my code, the errors or test cases. Please provide a detailed analysis with:
1. What issues you found in my code
2. Specific improvements and corrections
3. Any optimizations that would make the solution better
4. A clear explanation of the changes needed

YOUR RESPONSE MUST FOLLOW THIS EXACT STRUCTURE WITH THESE SECTION HEADERS:
### Issues Identified
- List each issue as a bullet point with clear explanation

### Specific Improvements and Corrections
- List specific code changes needed as bullet points

### Optimizations
- List any performance optimizations if applicable

### Explanation of Changes Needed
Here provide a clear explanation of why the changes are needed

### Key Points
- Summary bullet points of the most important takeaways

If you include code examples, use proper markdown code blocks with language specification (e.g. ```java).
".

(** Lines 701-705. *)
Definition openaiSystemMessage (modelType : ModelType) : jsstring :=
  match modelType with
  | solution =>
      js "You are an expert coding interview assistant. Provide clear, optimal solutions with detailed explanations."
  | _ =>
      js "You are a coding challenge interpreter. Analyze the screenshot of the coding problem and extract all relevant information.
               Return the information in JSON format with these fields: problem_statement, constraints, example_input, example_output.
               Just return the structured JSON without any other text."
  end.

(** The message of the TypeError V8 raises on [undefined.prop]. *)
Definition typeError (prop : string) : JsError :=
  Error (js "Cannot read properties of undefined (reading '" ++ js prop ++ js "')").

(** Lines 793-818: the catch clause of [callAIModel]. *)
Definition callAIModel_catch (error : JsError) : jsstring :=
  let errorMessage := js "Failed to process request. Please try again." in
  match error with
  | ClaudeAPIError status =>
      match status with
      | Some 429%N =>
          js "Claude API rate limit exceeded. Please wait a few minutes before trying again."
      | Some 413%N =>
          js "Your screenshots contain too much information for Claude to process. Switch to OpenAI or Gemini in settings which can handle larger inputs."
      | _ => errorMessage
      end
  | OpenAiAPIError status =>
      match status with
      | Some 401%N => js "Invalid OpenAI API key. Please check your settings."
      | Some 429%N =>
          js "OpenAI API rate limit exceeded or insufficient credits. Please try again later."
      | Some 500%N => js "OpenAI server error. Please try again later."
      | _ => errorMessage
      end
  | AxiosCancel => js "Request was canceled by the user."
  | Error message => message
  | NonError => errorMessage
  end.

(** [content ? { success: true, content } : { success: false, error: "No response content" }] *)
Definition contentResult (content : option jsstring) : Result jsstring :=
  match content with
  | Some ((_ :: _) as c) => Success c
  | _ => Failure (js "No response content")
  end.

Section Orchestrator.

Variable W : World.

(** Lines 61-101. *)
Definition initializeAIClient (st : State) : State :=
  let st := setClients None None None st in
  let config := loadConfig W in
  if negb (truthy (apiKey config)) then st
  else match apiProvider config with
       | openai => setClients (Some (apiKey config)) None None st
       | gemini => setClients None (Some (apiKey config)) None st
       | anthropic => setClients None None (Some (apiKey config)) st
       | otherProvider => st
       end.

(** Lines 120-155. *)
Definition getLanguage (st : State) : jsstring :=
  let config := loadConfig W in
  if truthy (language config) then language config
  else match mainWindow st with
       | Some w =>
           if isInitialized w then
             match windowLanguage w with
             | Some l => l
             | None => js "python"
             end
           else js "python"
       | None => js "python"
       end.

(** Lines 662-819. *)
Definition callAIModel (prompt : jsstring) (imageDataList : list jsstring)
           (modelType : ModelType) (st : State) : Result jsstring * State :=
  let config := loadConfig W in
  let modelName :=
    orDefault
      (match modelType with
       | extraction => extractionModel config
       | solution => solutionModel config
       | debugging => debuggingModel config
       end)
      (match apiProvider config with
       | openai => js "gpt-4o"
       | gemini => js "gemini-2.0-flash"
       | _ => js "claude-3-7-sonnet-20250219"
       end) in
  let st :=
    match modelType with
    | solution =>
        updateProcessingStatus
          (js "Creating optimal solution with detailed explanations...") 60 st
    | extraction =>
        updateProcessingStatus (js "Analyzing problem from screenshots...") 20 st
    | debugging =>
        updateProcessingStatus
          (js "Analyzing code and generating debug feedback...") 60 st
    end in
  match apiProvider config with
  | openai =>
      match openaiClient st with
      | None =>
          (Failure (js "OpenAI API key not configured. Please check your settings."), st)
      | Some _ =>
          let request :=
            mkRequest openai modelName (Some (openaiSystemMessage modelType))
                      prompt imageDataList in
          let st := emit (ProviderCall request) st in
          match openaiCreate W request with
          | inl response =>
              match choices response with
              | content :: _ => (contentResult content, st)
              | [] => (Failure (callAIModel_catch (typeError "message")), st)
              end
          | inr error => (Failure (callAIModel_catch error), st)
          end
      end
  | gemini =>
      match geminiApiKey st with
      | None =>
          (Failure (js "Gemini API key not configured. Please check your settings."), st)
      | Some _ =>
          let request := mkRequest gemini modelName None prompt imageDataList in
          let st := emit (ProviderCall request) st in
          match geminiPost W request with
          | inl geminiRes =>
              match candidates geminiRes with
              | parts :: _ =>
                  match parts with
                  | content :: _ => (contentResult (Some content), st)
                  | [] => (Failure (callAIModel_catch (typeError "text")), st)
                  end
              | [] => (Failure (callAIModel_catch (typeError "content")), st)
              end
          | inr error => (Failure (callAIModel_catch error), st)
          end
      end
  | anthropic =>
      match anthropicClient st with
      | None =>
          (Failure (js "Anthropic API key not configured. Please check your settings."), st)
      | Some _ =>
          let request := mkRequest anthropic modelName None prompt imageDataList in
          let st := emit (ProviderCall request) st in
          match anthropicCreate W request with
          | inl response =>
              match content response with
              | block :: _ => (contentResult block, st)
              | [] => (Failure (callAIModel_catch (typeError "text")), st)
              end
          | inr error => (Failure (callAIModel_catch error), st)
          end
      end
  | otherProvider => (Failure (js "Unsupported AI provider"), st)
  end.

(** Lines 442-565. *)
Definition generateSolutionsHelper (st : State) : Result SolutionPayload * State :=
  let language := getLanguage st in
  match problemInfo st with
  | None => (Failure (js "No problem info available"), st)
  | Some problemInfo =>
      let promptText := solutionPrompt problemInfo language in
      match callAIModel promptText [] solution st with
      | (Failure error, st) => (Failure error, st)
      | (Success responseContent, st) =>
          if negb (truthy responseContent) then
            (Failure (js "No response content received"), st)
          else (Success (parseSolution responseContent), st)
      end
  end.

(** Lines 375-440; [screenshots] are the base64 data of the files read. *)
Definition processScreenshotsHelper (screenshots : list jsstring) (st : State)
  : Result SolutionPayload * State :=
  let language := getLanguage st in
  let prompt := extractionPrompt language in
  match callAIModel prompt screenshots extraction st with
  | (Failure error, st) => (Failure error, st)
  | (Success content, st) =>
      let jsonText := trim (replaceAllRe jsonFenceRegex [] content) in
      match JSON_parse W jsonText with
      | SyntaxError message => (Failure message, st)
      | Parsed problemInfo =>
          let st :=
            updateProcessingStatus
              (js "Problem analyzed successfully. Preparing to generate solution...")
              40 st in
          let st := setProblemInfo problemInfo st in
          match mainWindow st with
          | Some _ =>
              let st := sendProcessingEvent PROBLEM_EXTRACTED (Problem problemInfo) st in
              match generateSolutionsHelper st with
              | (Success data, st) =>
                  let st := clearExtraScreenshotQueue st in
                  let st :=
                    updateProcessingStatus (js "Solution generated successfully")
                                           100 st in
                  let st := sendProcessingEvent SOLUTION_SUCCESS (Solution data) st in
                  (Success data, st)
              | (Failure error, st) =>
                  (Failure (orDefault error (js "Failed to generate solutions")), st)
              end
          | None => (Failure (js "Failed to process screenshots"), st)
          end
      end
  end.

(** Lines 567-660. *)
Definition processExtraScreenshotsHelper (screenshots : list jsstring) (st : State)
  : Result DebugPayload * State :=
  let language := getLanguage st in
  match problemInfo st with
  | None => (Failure (js "No problem info available"), st)
  | Some problemInfo =>
      let st := updateProcessingStatus (js "Processing debug screenshots...") 30 st in
      let debugPrompt := debugPrompt problemInfo language in
      match callAIModel debugPrompt screenshots debugging st with
      | (Failure error, st) => (Failure error, st)
      | (Success debugContent, st) =>
          let st := updateProcessingStatus (js "Debug analysis complete") 100 st in
          if negb (truthy debugContent) then
            (Failure (js "No debug content received"), st)
          else (Success (parseDebug debugContent), st)
      end
  end.

(** Lines 163-188: is the client of the configured provider there, after
    one more attempt to build it? *)
Definition ensureClient (st : State) : bool * State :=
  let config := loadConfig W in
  match apiProvider config, openaiClient st, geminiApiKey st, anthropicClient st with
  | openai, None, _, _ =>
      let st := initializeAIClient st in
      (match openaiClient st with Some _ => true | None => false end, st)
  | gemini, _, None, _ =>
      let st := initializeAIClient st in
      (match geminiApiKey st with Some _ => true | None => false end, st)
  | anthropic, _, _, None =>
      let st := initializeAIClient st in
      (match anthropicClient st with Some _ => true | None => false end, st)
  | _, _, _, _ => (true, st)
  end.

(** The screenshots that could be read: [Promise.all] of the reads, then
    [filter(Boolean)]; the data is what the helpers use. *)
Definition loadScreenshots (paths : list jsstring) : list jsstring :=
  flat_map (fun path =>
              match readScreenshot W path with
              | Some (_, data) => [data]
              | None => []
              end) paths.

(** Lines 320-341: the same, with the existence check of line 323. *)
Definition loadExistingScreenshots (paths : list jsstring) : list jsstring :=
  flat_map (fun path =>
              if negb (existsSync W path) then []
              else match readScreenshot W path with
                   | Some (_, data) => [data]
                   | None => []
                   end) paths.

(** Line 250. *)
Definition looksLikeApiKeyError (error : jsstring) : bool :=
  includes (js "API Key") error || includes (js "OpenAI") error
  || includes (js "Gemini") error.

(** Lines 248-264: what the main flow does with the helper's result. *)
Definition handleMainResult (result : Result SolutionPayload) (st : State) : State :=
  match result with
  | Failure error =>
      let st :=
        if looksLikeApiKeyError error then
          sendProcessingEvent API_KEY_INVALID NoPayload st
        else sendProcessingEvent INITIAL_SOLUTION_ERROR (Text error) st in
      setView queue st
  | Success data =>
      let st := sendProcessingEvent SOLUTION_SUCCESS (Solution data) st in
      setView solutions st
  end.

(** Lines 199-284, the branch of the queue view. The helper catches what
    its calls throw, so the catch clause of this branch only ever sees the
    Error of line 243. *)
Definition processMainQueue (st : State) : State :=
  let st := sendProcessingEvent INITIAL_START NoPayload st in
  let screenshotQueue := screenshotQueue st in
  match screenshotQueue with
  | [] => sendProcessingEvent NO_SCREENSHOTS NoPayload st
  | _ :: _ =>
      let existingScreenshots := filter (existsSync W) screenshotQueue in
      match existingScreenshots with
      | [] => sendProcessingEvent NO_SCREENSHOTS NoPayload st
      | _ :: _ =>
          let st := setProcessingController (Some (mkAbortController false)) st in
          let validScreenshots := loadScreenshots existingScreenshots in
          let st :=
            match validScreenshots with
            | [] =>
                let errorMessage :=
                  orDefault (js "Failed to load screenshot data")
                            (js "Server error. Please try again.") in
                let st :=
                  sendProcessingEvent INITIAL_SOLUTION_ERROR (Text errorMessage) st in
                setView queue st
            | _ :: _ =>
                let '(result, st) := processScreenshotsHelper validScreenshots st in
                handleMainResult result st
            end in
          setProcessingController None st
      end
  end.

(** Lines 285-372, the branch of every other view. *)
Definition processExtraQueue (st : State) : State :=
  let extraScreenshotQueue := extraScreenshotQueue st in
  match extraScreenshotQueue with
  | [] => sendProcessingEvent NO_SCREENSHOTS NoPayload st
  | _ :: _ =>
      let existingExtraScreenshots := filter (existsSync W) extraScreenshotQueue in
      match existingExtraScreenshots with
      | [] => sendProcessingEvent NO_SCREENSHOTS NoPayload st
      | _ :: _ =>
          let st := sendProcessingEvent DEBUG_START NoPayload st in
          let st := setExtraProcessingController (Some (mkAbortController false)) st in
          let allPaths := screenshotQueue st ++ existingExtraScreenshots in
          let validScreenshots := loadExistingScreenshots allPaths in
          let st :=
            match validScreenshots with
            | [] =>
                sendProcessingEvent DEBUG_ERROR
                  (Text (js "Failed to load screenshot data for debugging")) st
            | _ :: _ =>
                match processExtraScreenshotsHelper validScreenshots st with
                | (Success _, st) =>
                    let st := setHasDebugged true st in
                    sendProcessingEvent DEBUG_SUCCESS NoPayload st
                | (Failure error, st) =>
                    sendProcessingEvent DEBUG_ERROR (Text error) st
                end
            end in
          setExtraProcessingController None st
      end
  end.

(** Lines 157-373. *)
Definition processScreenshots (st : State) : State :=
  match mainWindow st with
  | None => st
  | Some _ =>
      let '(isClientValid, st) := ensureClient st in
      if negb isClientValid then sendProcessingEvent API_KEY_INVALID NoPayload st
      else
        match view st with
        | queue => processMainQueue st
        | _ => processExtraQueue st
        end
  end.

End Orchestrator.

(** ** Reading the trace *)

Definition EventKey_eqb (a b : EventKey) : bool :=
  match a, b with
  | API_KEY_INVALID, API_KEY_INVALID
  | INITIAL_START, INITIAL_START
  | NO_SCREENSHOTS, NO_SCREENSHOTS
  | PROBLEM_EXTRACTED, PROBLEM_EXTRACTED
  | SOLUTION_SUCCESS, SOLUTION_SUCCESS
  | INITIAL_SOLUTION_ERROR, INITIAL_SOLUTION_ERROR
  | DEBUG_START, DEBUG_START
  | DEBUG_SUCCESS, DEBUG_SUCCESS
  | DEBUG_ERROR, DEBUG_ERROR => true
  | _, _ => false
  end.

Definition isSend (k : EventKey) (e : Effect) : bool :=
  match e with
  | Send k' _ => EventKey_eqb k k'
  | _ => false
  end.

Definition isProviderCall (e : Effect) : bool :=
  match e with
  | ProviderCall _ => true
  | _ => false
  end.

(** How many times event [k] was sent in a stretch of the trace. *)
Definition sent (k : EventKey) (tr : list Effect) : nat :=
  length (filter (isSend k) tr).

(** How many vendor calls were made in a stretch of the trace. *)
Definition providerCalls (tr : list Effect) : nat :=
  length (filter isProviderCall tr).

(** ** Character-class loops

    What a quantified character class does in front of a continuation,
    written as plain recursion on the input. *)

Section ClassLoops.

Variable R : Type.
Variable P : N -> bool.
Variable k : jsstring -> option R.

(** [[P]*] then [k]: the longest run first. *)
Fixpoint greedyClass (s : jsstring) : option R :=
  match s with
  | x :: s' =>
      if P x then orElse (greedyClass s') (fun _ => k s) else k s
  | [] => k s
  end.

(** [[P]*?] then [k]: the shortest run first. *)
Fixpoint lazyClass (s : jsstring) : option R :=
  orElse (k s)
    (fun _ => match s with
              | x :: s' => if P x then lazyClass s' else None
              | [] => None
              end).

End ClassLoops.

Arguments greedyClass {R} P k s.
Arguments lazyClass {R} P k s.

(** ** What the patterns match, as plain functions *)

(** The character of the code fence. *)
Definition backtick : N := 96%N.

(** The closing fence, looked for from [body]. *)
Definition closeFence (body : jsstring) : option (jsstring * capture) :=
  match indexOf fence body with
  | Some j => Some (skipn (j + 3) body, Some (firstn j body))
  | None => None
  end.

(** Patterns without a capturing group. *)
Fixpoint groupFree (r : regex) : bool :=
  match r with
  | Empty | Class _ | Bol | Eol => true
  | Seq r1 r2 | Alt r1 r2 => groupFree r1 && groupFree r2
  | Star _ r1 | Ahead r1 => groupFree r1
  | Group _ => false
  end.

(** [[^)]] *)
Definition notParen (x : N) : bool := negb (x =? ch ")")%N.

(** What [notationRegex] matches at a position. *)
Definition notationAt (s : jsstring) : option (jsstring * capture) :=
  match s with
  | o :: l :: x :: s3 =>
      if (canonicalize o =? canonicalize (ch "O"))%N then
        if (ch "(" =? l)%N then
          if notParen x then
            match dropWhile notParen s3 with
            | y :: s5 => if (ch ")" =? y)%N then Some (s5, None) else None
            | [] => None
            end
          else None
        else None
      else None
  | _ => None
  end.

(** A match result of [s], read as one of [s ++ w]. *)
Definition addSuffix (w : jsstring) (r : jsstring * capture) : jsstring * capture :=
  (fst r ++ w, snd r).

(** The block the pattern of line 497 matches, as a plain function: the
    opening fence is the first [```] of the text, the word characters right
    after it are passed by [(?:\w+)?], and the content runs from there to the
    next [```]. Nothing is matched when either fence is missing. *)
Definition codeRegexBlock (text : jsstring) : option jsstring :=
  match indexOf fence text with
  | None => None
  | Some i =>
      let afterTag := dropWhile isWordChar (skipn (i + 3) text) in
      match indexOf fence afterTag with
      | Some j => Some (firstn j afterTag)
      | None => None
      end
  end.

(** ** Notions the properties are stated with *)

Fixpoint takeWhile (p : N -> bool) (s : jsstring) : jsstring :=
  match s with
  | [] => []
  | x :: s' => if p x then x :: takeWhile p s' else []
  end.

(** A code unit that can stand in a language tag: anything but white space
    and the backtick. *)
Definition isTagChar (c : N) : bool :=
  negb (isWhiteSpace c) && negb (c =? backtick)%N.

Record FencedBlock : Type := mkFencedBlock {
  languageTag : jsstring;
  blockContent : jsstring
}.

(** The first fenced block of a text, in the words of the specification
    ("first fenced code block (language tag optional)"): the opening fence
    is the first [```] of the text; the language tag is what is written
    right after it, up to the first white space or backtick, and may be
    empty; the content runs from there to the next [```]. There is no block
    when either fence is missing. *)
Definition firstFencedBlock (text : jsstring) : option FencedBlock :=
  match indexOf fence text with
  | None => None
  | Some i =>
      let afterFence := skipn (i + 3) text in
      let afterTag := dropWhile isTagChar afterFence in
      match indexOf fence afterTag with
      | Some j => Some (mkFencedBlock (takeWhile isTagChar afterFence) (firstn j afterTag))
      | None => None
      end
  end.

(** The span either complexity pattern captures: "the captured labeled span". *)
Definition capturedSpan (pattern : regex) (responseContent : jsstring) : capture :=
  match exec pattern responseContent with
  | Some m => group1 m
  | None => None
  end.

(** The first Big-O notation token of a text: the match of
    [/O\([^)]+\)/i], if there is one. *)
Definition bigONotation (s : jsstring) : option jsstring :=
  option_map matched (exec notationRegex s).

(** Effects that are neither events nor changes of the application state. *)
Definition isQuiet (e : Effect) : bool :=
  match e with
  | Status _ _ | ProviderCall _ => true
  | _ => false
  end.

(** The queue a run of [processScreenshots] reads: the primary queue in the
    queue view (main flow), the extra queue otherwise (debug flow). *)
Definition relevantQueue (st : State) : list jsstring :=
  match view st with
  | queue => screenshotQueue st
  | solutions => extraScreenshotQueue st
  end.

(** The configured provider has its client, or one can be built now. *)
Definition clientAvailable (W : World) (st : State) : bool :=
  fst (ensureClient W st).

(** ** A sample session, for running the flows on concrete inputs *)

(** The problem of the specification's scenario. *)
Definition twoSum : ProblemInfo :=
  mkProblem (Some (js "Two Sum")) (Some (js "n<=1e5")) (Some (js "[2,7]"))
            (Some (js "[0,1]")).

Definition jsonField (name value : jsstring) : jsstring :=
  dquote ++ name ++ dquote ++ js ":" ++ dquote ++ value ++ dquote.

Definition sampleJson : jsstring :=
  js "{" ++ jsonField (js "problem_statement") (js "Two Sum") ++ js ","
     ++ jsonField (js "constraints") (js "n<=1e5") ++ js ","
     ++ jsonField (js "example_input") (js "[2,7]") ++ js ","
     ++ jsonField (js "example_output") (js "[0,1]") ++ js "}".

Definition sampleExtractionText : jsstring :=
  js "```json" ++ [LF] ++ sampleJson ++ [LF] ++ js "```".

Definition sampleSolutionText : jsstring :=
  js "```" ++ [LF] ++ js "def f(): pass" ++ [LF] ++ js "```" ++ [LF]
     ++ js "Thoughts:" ++ [LF] ++ js "- use hashmap" ++ [LF]
     ++ js "Time complexity: O(n)" ++ [LF] ++ js "Space complexity: O(1)".

Definition sampleDebugText : jsstring :=
  js "Issues identified" ++ [LF] ++ js "- off by one" ++ [LF]
     ++ js "```python" ++ [LF] ++ js "def f(): return 1" ++ [LF] ++ js "```".

(** The text a well-behaved model returns for each of the three prompts. *)
Definition sampleAnswer (request : Request) : jsstring :=
  if includes (js "Extract the coding problem") (req_prompt request) then
    sampleExtractionText
  else if includes (js "Generate a detailed solution") (req_prompt request) then
    sampleSolutionText
  else sampleDebugText.

(** [JSON.parse] of the sample world: it knows the one JSON text the sample
    model returns, with its four fields. *)
Definition sampleParse (text : jsstring) : JsonParse :=
  if jsstring_eqb text sampleJson then Parsed (Some twoSum)
  else SyntaxError (js "Unexpected token").

Definition sampleConfig (provider : ApiProvider) : Config :=
  mkConfig (js "sk-test") provider [] [] [] (js "python").

(** A world in which every file exists and can be read, and the three
    vendors answer as given. *)
Definition sampleWorld (provider : ApiProvider)
           (o : Request -> OpenAIResponse + JsError)
           (g : Request -> GeminiResponse + JsError)
           (a : Request -> AnthropicResponse + JsError) : World :=
  mkWorld (sampleConfig provider) (fun _ => true)
          (fun _ => Some (js "preview", js "base64")) o g a sampleParse.

Definition answeringWorld : World :=
  sampleWorld openai
    (fun request => inl (mkOpenAIResponse [Some (sampleAnswer request)]))
    (fun request => inl (mkGeminiResponse [[sampleAnswer request]]))
    (fun request => inl (mkAnthropicResponse [Some (sampleAnswer request)])).

(** Every vendor answers with an empty list of choices, candidates or
    content blocks. *)
Definition emptyAnswerWorld (provider : ApiProvider) : World :=
  sampleWorld provider
    (fun _ => inl (mkOpenAIResponse []))
    (fun _ => inl (mkGeminiResponse []))
    (fun _ => inl (mkAnthropicResponse [])).

(** Every vendor answers HTTP 429. *)
Definition rateLimitedWorld (provider : ApiProvider) : World :=
  sampleWorld provider
    (fun _ => inr (OpenAiAPIError (Some 429%N)))
    (fun _ => inr (Error (js "Request failed with status code 429")))
    (fun _ => inr (ClaudeAPIError (Some 429%N))).

Definition sampleWindow : Window := mkWindow false true (Some (js "python")).

(** A fresh session in the queue view with one screenshot taken. *)
Definition queueSession : State :=
  mkState (Some sampleWindow) queue None false [js "a.png"] [] None None None
          None None [].

(** A session in the solutions view, after an extraction, with one extra
    screenshot taken. *)
Definition solutionsSession : State :=
  mkState (Some sampleWindow) solutions (Some twoSum) false [js "a.png"]
          [js "b.png"] (Some (js "sk-test")) None None None None [].

(** A world whose screenshots are gone from disk. *)
Definition missingFilesWorld : World :=
  mkWorld (sampleConfig openai) (fun _ => false)
          (fun _ => None)
          (fun request => inl (mkOpenAIResponse [Some (sampleAnswer request)]))
          (fun _ => inr AxiosCancel) (fun _ => inr AxiosCancel) sampleParse.

(** [queueSession] once the client of the configured provider is built. *)
Definition readySession (W : World) : State := initializeAIClient W queueSession.

(** ** Notions the further properties are stated with *)

(** The first fenced block of a debug text: the opening fence is the first
    [```] of the text, letters right after it are the language tag, and the
    content runs from there to the next [```]. *)
Definition firstDebugBlock (text : jsstring) : option jsstring :=
  match indexOf fence text with
  | None => None
  | Some i =>
      let afterTag := dropWhile isLetter (skipn (i + 3) text) in
      match indexOf fence afterTag with
      | Some j => Some (firstn j afterTag)
      | None => None
      end
  end.

(** The client [callAIModel] needs for the configured provider: the OpenAI
    client, the Gemini key or the Anthropic client; none for a provider the
    class does not support. *)
Definition configuredClient (W : World) (st : State) : option jsstring :=
  match apiProvider (loadConfig W) with
  | openai => openaiClient st
  | gemini => geminiApiKey st
  | anthropic => anthropicClient st
  | otherProvider => None
  end.

(** The vendor requests in a stretch of the trace, in order. *)
Definition requestsOf (tr : list Effect) : list Request :=
  flat_map (fun e => match e with ProviderCall r => [r] | _ => [] end) tr.

(** The events sent to the renderer in a stretch of the trace, in order. *)
Definition eventsOf (tr : list Effect) : list EventKey :=
  flat_map (fun e => match e with Send k _ => [k] | _ => [] end) tr.

(** The sample world with no API key in the configuration. *)
Definition keylessWorld : World :=
  mkWorld (mkConfig [] openai [] [] [] (js "python"))
          (existsSync answeringWorld) (readScreenshot answeringWorld)
          (openaiCreate answeringWorld) (geminiPost answeringWorld)
          (anthropicCreate answeringWorld) sampleParse.

(** [queueSession] after its window was closed. *)
Definition closedSession : State :=
  mkState (Some (mkWindow true true None)) queue None false [js "a.png"] []
          (Some (js "sk-test")) None None None None [].

(** A fresh session in the queue view with no screenshot taken. *)
Definition emptySession : State :=
  mkState (Some sampleWindow) queue None false [] [] None None None None None [].

(** What [replace(/```json|```/g, '')] does, as a plain left-to-right
    pass: at a fence, drop it (with the tag [json] when it follows) and go
    on behind it; otherwise keep the code unit. [skip] counts the code
    units of a fence still to be dropped. *)
Fixpoint stripFencesSkip (skip : nat) (s : jsstring) : jsstring :=
  match s with
  | [] => []
  | x :: s' =>
      match skip with
      | S k => stripFencesSkip k s'
      | O =>
          if startsWith (js "```json") s then stripFencesSkip 6 s'
          else if startsWith fence s then stripFencesSkip 2 s'
          else x :: stripFencesSkip 0 s'
      end
  end.

Definition stripFences (s : jsstring) : jsstring := stripFencesSkip 0 s.

(** The vendor requests of a stretch of the trace, against the images
    [imgs] the successive requests are to carry: there are no more requests
    than entries of [imgs], all go to provider [p], and the [i]-th carries
    the [i]-th entry. *)
Definition requestsWithin (imgs : list (list jsstring)) (p : ApiProvider)
           (new : list Effect) : Prop :=
  length (requestsOf new) <= length imgs /\
  Forall (fun request => req_provider request = p) (requestsOf new) /\
  map req_images (requestsOf new) = firstn (length (requestsOf new)) imgs.

(** ** The settings dialog (src/components/Settings/SettingsDialog.tsx)

    The component's state hooks are the fields of [DialogState]; its
    handlers are functions on that state. The [open] flag, the toasts and
    the reload after a save are left out: no handler below reads them. *)

Module SettingsDialog.

Record AIModel : Type := mkAIModel {
  id : jsstring;
  name : jsstring;
  description : jsstring
}.

Inductive CategoryKey : Type :=
| extractionModelKey
| solutionModelKey
| debuggingModelKey.

Record ModelCategory : Type := mkModelCategory {
  key : CategoryKey;
  title : jsstring;
  categoryDescription : jsstring;
  openaiModels : list AIModel;
  geminiModels : list AIModel;
  anthropicModels : list AIModel
}.

(** Lines 25-165. *)
Definition modelCategories : list ModelCategory :=
  [mkModelCategory extractionModelKey (js "Problem Extraction")
    (js "Model used to analyze screenshots and extract problem details")
    [mkAIModel (js "gpt-4o") (js "gpt-4o")
       (js "Best overall performance for problem extraction");
     mkAIModel (js "gpt-4o-mini") (js "gpt-4o-mini")
       (js "Faster, more cost-effective option")]
    [mkAIModel (js "gemini-1.5-pro") (js "Gemini 1.5 Pro")
       (js "Best overall performance for problem extraction");
     mkAIModel (js "gemini-2.0-flash") (js "Gemini 2.0 Flash")
       (js "Faster, more cost-effective option")]
    [mkAIModel (js "claude-3-7-sonnet-20250219") (js "Claude 3.7 Sonnet")
       (js "Best overall performance for problem extraction");
     mkAIModel (js "claude-3-5-sonnet-20241022") (js "Claude 3.5 Sonnet")
       (js "Balanced performance and speed");
     mkAIModel (js "claude-3-opus-20240229") (js "Claude 3 Opus")
       (js "Top-level intelligence, fluency, and understanding")];
   mkModelCategory solutionModelKey (js "Solution Generation")
    (js "Model used to generate coding solutions")
    [mkAIModel (js "gpt-4o") (js "gpt-4o")
       (js "Strong overall performance for coding tasks");
     mkAIModel (js "gpt-4o-mini") (js "gpt-4o-mini")
       (js "Faster, more cost-effective option")]
    [mkAIModel (js "gemini-1.5-pro") (js "Gemini 1.5 Pro")
       (js "Strong overall performance for coding tasks");
     mkAIModel (js "gemini-2.0-flash") (js "Gemini 2.0 Flash")
       (js "Faster, more cost-effective option")]
    [mkAIModel (js "claude-3-7-sonnet-20250219") (js "Claude 3.7 Sonnet")
       (js "Strong overall performance for coding tasks");
     mkAIModel (js "claude-3-5-sonnet-20241022") (js "Claude 3.5 Sonnet")
       (js "Balanced performance and speed");
     mkAIModel (js "claude-3-opus-20240229") (js "Claude 3 Opus")
       (js "Top-level intelligence, fluency, and understanding")];
   mkModelCategory debuggingModelKey (js "Debugging")
    (js "Model used to debug and improve solutions")
    [mkAIModel (js "gpt-4o") (js "gpt-4o")
       (js "Best for analyzing code and error messages");
     mkAIModel (js "gpt-4o-mini") (js "gpt-4o-mini")
       (js "Faster, more cost-effective option")]
    [mkAIModel (js "gemini-1.5-pro") (js "Gemini 1.5 Pro")
       (js "Best for analyzing code and error messages");
     mkAIModel (js "gemini-2.0-flash") (js "Gemini 2.0 Flash")
       (js "Faster, more cost-effective option")]
    [mkAIModel (js "claude-3-7-sonnet-20250219") (js "Claude 3.7 Sonnet")
       (js "Best for analyzing code and error messages");
     mkAIModel (js "claude-3-5-sonnet-20241022") (js "Claude 3.5 Sonnet")
       (js "Balanced performance and speed");
     mkAIModel (js "claude-3-opus-20240229") (js "Claude 3 Opus")
       (js "Top-level intelligence, fluency, and understanding")]].

(** Lines 184-191. *)
Record DialogState : Type := mkDialogState {
  openaiKey : jsstring;
  geminiKey : jsstring;
  anthropicKey : jsstring;
  apiProvider : ApiProvider;
  extractionModel : jsstring;
  solutionModel : jsstring;
  debuggingModel : jsstring;
  isLoading : bool
}.

Definition initialState : DialogState :=
  mkDialogState [] [] [] openai (js "gpt-4o") (js "gpt-4o") (js "gpt-4o") false.

(** The fields of the stored configuration the dialog reads; each may be
    missing. *)
Record StoredConfig : Type := mkStoredConfig {
  storedOpenaiKey : option jsstring;
  storedGeminiKey : option jsstring;
  storedAnthropicKey : option jsstring;
  storedProvider : option ApiProvider;
  storedExtractionModel : option jsstring;
  storedSolutionModel : option jsstring;
  storedDebuggingModel : option jsstring
}.

(** Lines 211-234: the dialog opens and [getConfig] answers [config]. *)
Definition loadCurrentConfig (config : StoredConfig) (st : DialogState) : DialogState :=
  mkDialogState
    (optOr (storedOpenaiKey config) [])
    (optOr (storedGeminiKey config) [])
    (optOr (storedAnthropicKey config) [])
    (match storedProvider config with Some provider => provider | None => openai end)
    (optOr (storedExtractionModel config) (js "gpt-4o"))
    (optOr (storedSolutionModel config) (js "gpt-4o"))
    (optOr (storedDebuggingModel config) (js "gpt-4o"))
    false.

Definition setModels (model : jsstring) (st : DialogState) : DialogState :=
  mkDialogState (openaiKey st) (geminiKey st) (anthropicKey st) (apiProvider st)
    model model model (isLoading st).

(** Lines 237-254. *)
Definition handleProviderChange (provider : ApiProvider) (st : DialogState)
  : DialogState :=
  let st :=
    mkDialogState (openaiKey st) (geminiKey st) (anthropicKey st) provider
      (extractionModel st) (solutionModel st) (debuggingModel st) (isLoading st) in
  match provider with
  | openai => setModels (js "gpt-4o") st
  | gemini => setModels (js "gemini-1.5-pro") st
  | anthropic => setModels (js "claude-3-7-sonnet-20250219") st
  | otherProvider => st
  end.

(** Lines 286-297. *)
Definition getActiveKey (st : DialogState) : jsstring :=
  match apiProvider st with
  | openai => openaiKey st
  | gemini => geminiKey st
  | anthropic => anthropicKey st
  | otherProvider => []
  end.

(** Line 476: the Save button is disabled. *)
Definition saveDisabled (st : DialogState) : bool :=
  isLoading st || negb (truthy (getActiveKey st)).

(** Line 332: the providers that can be clicked. *)
Definition offeredProviders : list ApiProvider := [openai; gemini; anthropic].

(** Lines 403-408: the models listed for a category. *)
Definition modelsFor (provider : ApiProvider) (category : ModelCategory)
  : list AIModel :=
  match provider with
  | openai => openaiModels category
  | gemini => geminiModels category
  | _ => anthropicModels category
  end.

(** Lines 414-419. *)
Definition currentValue (k : CategoryKey) (st : DialogState) : jsstring :=
  match k with
  | extractionModelKey => extractionModel st
  | solutionModelKey => solutionModel st
  | debuggingModelKey => debuggingModel st
  end.

(** Lines 422-427. *)
Definition setValue (k : CategoryKey) (model : jsstring) (st : DialogState)
  : DialogState :=
  match k with
  | extractionModelKey =>
      mkDialogState (openaiKey st) (geminiKey st) (anthropicKey st) (apiProvider st)
        model (solutionModel st) (debuggingModel st) (isLoading st)
  | solutionModelKey =>
      mkDialogState (openaiKey st) (geminiKey st) (anthropicKey st) (apiProvider st)
        (extractionModel st) model (debuggingModel st) (isLoading st)
  | debuggingModelKey =>
      mkDialogState (openaiKey st) (geminiKey st) (anthropicKey st) (apiProvider st)
        (extractionModel st) (solutionModel st) model (isLoading st)
  end.

(** Lines 495-506 and 544: typing into the key field sets the key of the
    selected provider; [keyMap] has no entry for any other provider. *)
Definition setKey (text : jsstring) (st : DialogState) : option DialogState :=
  match apiProvider st with
  | openai =>
      Some (mkDialogState text (geminiKey st) (anthropicKey st) (apiProvider st)
              (extractionModel st) (solutionModel st) (debuggingModel st)
              (isLoading st))
  | gemini =>
      Some (mkDialogState (openaiKey st) text (anthropicKey st) (apiProvider st)
              (extractionModel st) (solutionModel st) (debuggingModel st)
              (isLoading st))
  | anthropic =>
      Some (mkDialogState (openaiKey st) (geminiKey st) text (apiProvider st)
              (extractionModel st) (solutionModel st) (debuggingModel st)
              (isLoading st))
  | otherProvider => None
  end.

(** Lines 525-528. *)
Definition maskApiKey (k : jsstring) : jsstring :=
  if negb (truthy k) || (length k <? 10) then []
  else firstn 4 k ++ js "..." ++ skipn (length k - 4) k.

(** What the user can do in the open dialog: click the [provider]-th
    provider, click the [model]-th model listed under the [category]-th
    category, or type into the key field. *)
Inductive Action : Type :=
| ClickProvider (provider : nat)
| ClickModel (category model : nat)
| TypeKey (text : jsstring).

Definition act (a : Action) (st : DialogState) : option DialogState :=
  match a with
  | ClickProvider i =>
      match nth_error offeredProviders i with
      | Some provider => Some (handleProviderChange provider st)
      | None => None
      end
  | ClickModel i j =>
      match nth_error modelCategories i with
      | Some category =>
          match nth_error (modelsFor (apiProvider st) category) j with
          | Some m => Some (setValue (key category) (id m) st)
          | None => None
          end
      | None => None
      end
  | TypeKey text => setKey text st
  end.

Fixpoint session (actions : list Action) (st : DialogState) : option DialogState :=
  match actions with
  | [] => Some st
  | a :: rest =>
      match act a st with
      | Some st' => session rest st'
      | None => None
      end
  end.

Definition isClickProvider (a : Action) : bool :=
  match a with ClickProvider _ => true | _ => false end.

(** Under every category, the selected model is one of those listed for
    the selected provider. *)
Definition selectionsOffered (st : DialogState) : Prop :=
  forall category,
    In category modelCategories ->
    In (currentValue (key category) st)
       (map id (modelsFor (apiProvider st) category)).

End SettingsDialog.

(** * Lemmas and theorems *)

(** ** The matcher on the shapes the patterns use *)

Lemma ltb_length_cons (x : N) (s : jsstring) :
  (length s <? length (x :: s)) = true.
Proof. apply Nat.ltb_lt; simpl; lia. Qed.

Lemma repeat_greedy_class (n0 : nat) (R : Type) (P : N -> bool)
      (k : jsstring -> capture -> option R) (c : capture) :
  forall fuel s, length s < fuel ->
    repeat_ (mt n0 (Class P)) true k fuel s c
    = greedyClass P (fun s' => k s' c) s.
Proof.
  induction fuel as [|fuel IH]; intros s Hs; [lia|].
  destruct s as [|x s']; [reflexivity|].
  cbn [repeat_ mt greedyClass]. destruct (P x); [|reflexivity].
  rewrite ltb_length_cons, IH by (simpl in Hs; lia). reflexivity.
Qed.

Lemma repeat_lazy_class (n0 : nat) (R : Type) (P : N -> bool)
      (k : jsstring -> capture -> option R) (c : capture) :
  forall fuel s, length s < fuel ->
    repeat_ (mt n0 (Class P)) false k fuel s c
    = lazyClass P (fun s' => k s' c) s.
Proof.
  induction fuel as [|fuel IH]; intros s Hs; [lia|].
  destruct s as [|x s']; [reflexivity|].
  cbn [repeat_ mt lazyClass]. unfold orElse. destruct (k (x :: s') c); [reflexivity|].
  destruct (P x); [|reflexivity].
  rewrite ltb_length_cons, IH by (simpl in Hs; lia). reflexivity.
Qed.

Lemma mt_star_greedy_class (n0 : nat) (R : Type) (P : N -> bool) (s : jsstring)
      (c : capture) (k : jsstring -> capture -> option R) :
  mt n0 (Star true (Class P)) s c k = greedyClass P (fun s' => k s' c) s.
Proof. exact (repeat_greedy_class n0 R P k c (S (length s)) s (Nat.lt_succ_diag_r _)). Qed.

Lemma mt_star_lazy_class (n0 : nat) (R : Type) (P : N -> bool) (s : jsstring)
      (c : capture) (k : jsstring -> capture -> option R) :
  mt n0 (Star false (Class P)) s c k = lazyClass P (fun s' => k s' c) s.
Proof. exact (repeat_lazy_class n0 R P k c (S (length s)) s (Nat.lt_succ_diag_r _)). Qed.

Section Unfold.

Variables (n0 : nat) (R : Type).
Implicit Types (s : jsstring) (c : capture) (k : jsstring -> capture -> option R).

Lemma mt_Empty s c k : mt n0 Empty s c k = k s c.
Proof. reflexivity. Qed.

Lemma mt_Class P s c k :
  mt n0 (Class P) s c k
  = match s with x :: s' => if P x then k s' c else None | [] => None end.
Proof. reflexivity. Qed.

Lemma mt_Seq r1 r2 s c k :
  mt n0 (Seq r1 r2) s c k = mt n0 r1 s c (fun s1 c1 => mt n0 r2 s1 c1 k).
Proof. reflexivity. Qed.

Lemma mt_Alt r1 r2 s c k :
  mt n0 (Alt r1 r2) s c k = orElse (mt n0 r1 s c k) (fun _ => mt n0 r2 s c k).
Proof. reflexivity. Qed.

Lemma mt_Group r s c k :
  mt n0 (Group r) s c k
  = mt n0 r s c (fun s1 _ => k s1 (Some (firstn (length s - length s1) s))).
Proof. reflexivity. Qed.

Lemma mt_Ahead r s c k :
  mt n0 (Ahead r) s c k
  = match mt n0 r s c (fun _ c1 => Some c1) with
    | Some c1 => k s c1
    | None => None
    end.
Proof. reflexivity. Qed.

Lemma mt_Eol s c k :
  mt n0 Eol s c k = match s with [] => k s c | _ :: _ => None end.
Proof. reflexivity. Qed.

Lemma mt_Bol s c k :
  mt n0 Bol s c k = if length s =? n0 then k s c else None.
Proof. reflexivity. Qed.

End Unfold.

(** [(?:[P]+)?] backtracks like [[P]*]. *)
Lemma mt_opt_plus_class (n0 : nat) (R : Type) (P : N -> bool) (s : jsstring)
      (c : capture) (k : jsstring -> capture -> option R) :
  mt n0 (Opt (Plus true (Class P))) s c k = greedyClass P (fun s' => k s' c) s.
Proof.
  unfold Opt, Plus. rewrite mt_Alt, mt_Seq, mt_Class, mt_Empty.
  destruct s as [|x s']; [reflexivity|].
  cbn [greedyClass]. destruct (P x); [|reflexivity].
  rewrite mt_star_greedy_class. reflexivity.
Qed.

Lemma mt_Str (n0 : nat) (R : Type) (p : jsstring) :
  forall (s : jsstring) (c : capture) (k : jsstring -> capture -> option R),
    mt n0 (Str p) s c k
    = if startsWith p s then k (skipn (length p) s) c else None.
Proof.
  induction p as [|a p IH]; intros s c k; [reflexivity|].
  change (Str (a :: p)) with (Seq (Chr a) (Str p)).
  rewrite mt_Seq. unfold Chr at 1. rewrite mt_Class.
  destruct s as [|b s']; [reflexivity|].
  cbn [startsWith length skipn].
  destruct (a =? b)%N; [|reflexivity]. apply IH.
Qed.

(** When a failure of [k] on a suffix is a failure on every extension of it
    by a [P] character, the greedy loop settles on the longest run. *)
Lemma greedyClass_dropWhile (R : Type) (P : N -> bool) (k : jsstring -> option R) :
  (forall x s, P x = true -> k s = None -> k (x :: s) = None) ->
  forall s, greedyClass P k s = k (dropWhile P s).
Proof.
  intros Hk.
  assert (Hnone : forall s, k (dropWhile P s) = None -> k s = None).
  { induction s as [|y s IHs]; cbn [dropWhile]; [auto|].
    destruct (P y) eqn:Py; auto. }
  induction s as [|x s IH]; [reflexivity|].
  cbn [greedyClass dropWhile]. destruct (P x) eqn:Px; [|reflexivity].
  rewrite IH. unfold orElse. destruct (k (dropWhile P s)) eqn:E; [reflexivity|].
  apply Hk; auto.
Qed.

(** *** Facts on [indexOf], [dropWhile] and [trim] *)

Lemma indexOf_cons (p : jsstring) (x : N) (s : jsstring) :
  indexOf p (x :: s)
  = if startsWith p (x :: s) then Some 0 else option_map S (indexOf p s).
Proof. reflexivity. Qed.

Lemma indexOf_None_tail (p : jsstring) (x : N) (s : jsstring) :
  indexOf p (x :: s) = None -> indexOf p s = None.
Proof.
  rewrite indexOf_cons. destruct (startsWith p (x :: s)); [discriminate|].
  destruct (indexOf p s); [discriminate|reflexivity].
Qed.

Lemma indexOf_None_skipn (p : jsstring) (n : nat) :
  forall s, indexOf p s = None -> indexOf p (skipn n s) = None.
Proof.
  induction n as [|n IH]; intros s H; [exact H|].
  destruct s as [|x s]; [exact H|]. apply IH, (indexOf_None_tail _ _ _ H).
Qed.

Lemma indexOf_None_dropWhile (p : jsstring) (P : N -> bool) :
  forall s, indexOf p s = None -> indexOf p (dropWhile P s) = None.
Proof.
  induction s as [|x s IH]; intro H; [exact H|].
  cbn [dropWhile]. destruct (P x); [|exact H].
  apply IH, (indexOf_None_tail _ _ _ H).
Qed.

Lemma indexOf_None_startsWith (p s : jsstring) :
  indexOf p s = None -> startsWith p s = false.
Proof.
  destruct s as [|x s]; cbn [indexOf]; destruct (startsWith p _); 
    [discriminate|reflexivity|discriminate|reflexivity].
Qed.

Lemma dropWhile_split (P : N -> bool) :
  forall s, exists w, s = w ++ dropWhile P s /\ forallb P w = true.
Proof.
  induction s as [|x s [w [E Hw]]]; [exists []; split; reflexivity|].
  cbn [dropWhile]. destruct (P x) eqn:Px.
  - exists (x :: w). cbn [forallb app]. rewrite Px, Hw, <- E. split; reflexivity.
  - exists []. split; reflexivity.
Qed.

Lemma trimStart_app_ws (w s : jsstring) :
  forallb isWhiteSpace w = true -> trimStart (w ++ s) = trimStart s.
Proof.
  unfold trimStart. induction w as [|x w IH]; cbn [forallb app dropWhile]; [reflexivity|].
  intro H; apply andb_prop in H as [Hx Hw]. rewrite Hx. auto.
Qed.

Lemma trim_app_ws (w s : jsstring) :
  forallb isWhiteSpace w = true -> trim (w ++ s) = trim s.
Proof. intro H; unfold trim; now rewrite trimStart_app_ws. Qed.

(** *** The code fence *)

Lemma fence_backtick : fence = [backtick; backtick; backtick].
Proof. reflexivity. Qed.

Lemma startsWith_fence_cons (x : N) (s : jsstring) :
  x <> backtick -> startsWith fence (x :: s) = false.
Proof.
  intro H. rewrite fence_backtick. cbn [startsWith].
  destruct (N.eqb_spec backtick x); [congruence|reflexivity].
Qed.

(** Skipping characters that are not backticks moves the next fence by as
    many places. *)
Lemma indexOf_fence_app (w s : jsstring) :
  forallb (fun x => negb (x =? backtick)%N) w = true ->
  indexOf fence (w ++ s) = option_map (Nat.add (length w)) (indexOf fence s).
Proof.
  induction w as [|x w IH]; cbn [forallb app length]; intro H.
  - now destruct (indexOf fence s).
  - apply andb_prop in H as [Hx Hw]. rewrite indexOf_cons, startsWith_fence_cons, IH.
    + now destruct (indexOf fence s).
    + exact Hw.
    + intro E; subst x; discriminate.
Qed.

Lemma forallb_impl (P Q : N -> bool) (w : jsstring) :
  (forall x, P x = true -> Q x = true) -> forallb P w = true -> forallb Q w = true.
Proof.
  intro H; induction w as [|x w IH]; cbn [forallb]; [reflexivity|].
  intro E; apply andb_prop in E as [Hx Hw]. now rewrite (H _ Hx), IH.
Qed.

Lemma isWhiteSpace_not_backtick (x : N) :
  isWhiteSpace x = true -> negb (x =? backtick)%N = true.
Proof. destruct (N.eqb_spec x backtick); [subst; discriminate|reflexivity]. Qed.

Lemma isWordChar_not_backtick (x : N) :
  isWordChar x = true -> negb (x =? backtick)%N = true.
Proof. destruct (N.eqb_spec x backtick); [subst; discriminate|reflexivity]. Qed.

(** [([\s\S]*?)] then a literal: the capture runs to the first occurrence of
    the literal. *)
Lemma lazy_any_until (R : Type) (p : jsstring) (k : jsstring -> capture -> option R)
      (Hk : forall s c, k s c <> None) :
  forall s pre,
    lazyClass isAny
      (fun s4 =>
         if startsWith p s4
         then k (skipn (length p) s4)
                (Some (firstn (length (pre ++ s) - length s4) (pre ++ s)))
         else None) s
    = match indexOf p s with
      | Some j => k (skipn (j + length p) s) (Some (pre ++ firstn j s))
      | None => None
      end.
Proof.
  induction s as [|x s IH]; intro pre.
  - cbn [lazyClass indexOf orElse]. rewrite app_nil_r, Nat.sub_0_r, firstn_all.
    destruct (startsWith p []); [|reflexivity].
    cbn [length Nat.add firstn]. rewrite app_nil_r.
    destruct (k _ _) eqn:E; [reflexivity|]. now apply Hk in E.
  - cbn [lazyClass]. rewrite indexOf_cons.
    destruct (startsWith p (x :: s)) eqn:Sw.
    + replace (length (pre ++ x :: s) - length (x :: s)) with (length pre)
        by (rewrite length_app; lia).
      rewrite firstn_app, Nat.sub_diag, firstn_all. cbn [firstn Nat.add].
      unfold orElse. destruct (k _ _) eqn:E; [reflexivity|]. now apply Hk in E.
    + cbn [orElse isAny].
      specialize (IH (pre ++ [x])). rewrite <- app_assoc in IH. cbn [app] in IH.
      rewrite IH. destruct (indexOf p s) as [j|]; [|reflexivity].
      cbn [option_map Nat.add skipn firstn]. now rewrite <- app_assoc.
Qed.

Lemma closeFence_cons (x : N) (s : jsstring) :
  negb (x =? backtick)%N = true -> closeFence s = None -> closeFence (x :: s) = None.
Proof.
  unfold closeFence. intros Hx. rewrite indexOf_cons, startsWith_fence_cons.
  - destruct (indexOf fence s); [discriminate|reflexivity].
  - intro E; subst x; discriminate.
Qed.

Lemma closeFence_dropWhile_None (P : N -> bool) :
  (forall x, P x = true -> negb (x =? backtick)%N = true) ->
  forall s, closeFence (dropWhile P s) = None -> closeFence s = None.
Proof.
  intros HP; induction s as [|x s IH]; cbn [dropWhile]; [auto|].
  destruct (P x) eqn:Px; auto using closeFence_cons.
Qed.

Lemma greedyClass_ext (R : Type) (P : N -> bool) (k1 k2 : jsstring -> option R) :
  (forall s, k1 s = k2 s) -> forall s, greedyClass P k1 s = greedyClass P k2 s.
Proof.
  intro H; induction s as [|x s IH]; cbn [greedyClass]; [apply H|].
  now rewrite IH, H.
Qed.

Lemma lazyClass_ext (R : Type) (P : N -> bool) (k1 k2 : jsstring -> option R) :
  (forall s, k1 s = k2 s) -> forall s, lazyClass P k1 s = lazyClass P k2 s.
Proof.
  intro H; induction s as [|x s IH]; cbn [lazyClass]; [now rewrite H|].
  now rewrite IH, H.
Qed.

Ltac bool_to_prop H :=
  repeat rewrite ?orb_true_iff, ?andb_true_iff, ?N.leb_le, ?N.eqb_eq in H.

Lemma isWordChar_not_isWhiteSpace (x : N) :
  isWordChar x = true -> isWhiteSpace x = false.
Proof.
  intro Hw. apply not_true_is_false; intro Hs.
  unfold isWordChar in Hw; unfold isWhiteSpace in Hs.
  bool_to_prop Hw; bool_to_prop Hs. lia.
Qed.

(** [([\s\S]*?)```] from [body]. *)
Lemma mt_code_body (n0 : nat) (body : jsstring) (c : capture) :
  mt n0 (Seq (Group (Star false (Class isAny))) (Seq (Str fence) Empty)) body c
     (fun s' c' => Some (s', c'))
  = closeFence body.
Proof.
  rewrite mt_Seq, mt_Group, mt_star_lazy_class.
  rewrite lazyClass_ext with
    (k2 := fun s4 =>
             if startsWith fence s4
             then Some (skipn (length fence) s4,
                        Some (firstn (length ([] ++ body) - length s4) ([] ++ body)))
             else None)
    by (intro s4; now rewrite mt_Seq, mt_Str).
  rewrite (lazy_any_until _ fence (fun s' c' => Some (s', c'))) by discriminate.
  reflexivity.
Qed.

(** What [codeRegex] matches at a position: the fence, the word characters
    and the white space after it, and everything up to the next fence. *)
Lemma matchAt_codeRegex (n0 : nat) (s : jsstring) :
  matchAt n0 codeRegex s
  = if startsWith fence s
    then closeFence (dropWhile isWhiteSpace (dropWhile isWordChar (skipn 3 s)))
    else None.
Proof.
  unfold matchAt, codeRegex, Cat; cbn [fold_right].
  rewrite mt_Seq, mt_Str. destruct (startsWith fence s); [|reflexivity].
  change (length fence) with 3.
  rewrite mt_Seq, mt_opt_plus_class.
  rewrite greedyClass_ext with
    (k2 := fun s2 => closeFence (dropWhile isWhiteSpace s2)).
  - rewrite (greedyClass_dropWhile _ isWordChar
               (fun s2 => closeFence (dropWhile isWhiteSpace s2))); [reflexivity|].
    intros x t Hx Ht.
    cbn [dropWhile]. rewrite (isWordChar_not_isWhiteSpace _ Hx).
    apply closeFence_cons; [now apply isWordChar_not_backtick|].
    revert Ht. apply closeFence_dropWhile_None, isWhiteSpace_not_backtick.
  - intro s2. unfold ws. rewrite mt_Seq, mt_star_greedy_class.
    rewrite greedyClass_ext with (k2 := closeFence)
      by (intro s3; apply mt_code_body).
    rewrite (greedyClass_dropWhile _ isWhiteSpace closeFence); [reflexivity|].
    intros x t Hx. apply closeFence_cons.
    now apply isWhiteSpace_not_backtick.
Qed.

Lemma search_eq (n0 : nat) (r : regex) (pre s : jsstring) :
  search n0 r pre s
  = match matchAt n0 r s with
    | Some (s', c) =>
        Some (mkMatch (rev pre) (firstn (length s - length s') s) c s')
    | None =>
        match s with
        | [] => None
        | x :: s' => search n0 r (x :: pre) s'
        end
    end.
Proof. destruct s; reflexivity. Qed.

Lemma search_codeRegex_None (n0 : nat) :
  forall s pre, indexOf fence (skipn 3 s) = None -> search n0 codeRegex pre s = None.
Proof.
  induction s as [|x s IH]; intros pre H; rewrite search_eq, matchAt_codeRegex.
  - reflexivity.
  - unfold closeFence.
    rewrite (indexOf_None_dropWhile _ _ _ (indexOf_None_dropWhile _ _ _ H)).
    destruct (startsWith fence (x :: s)); apply IH;
      apply (indexOf_None_skipn fence 1) in H;
      now rewrite skipn_skipn in H.
Qed.

Lemma codeRegexBlock_cons (x : N) (s : jsstring) :
  startsWith fence (x :: s) = false ->
  codeRegexBlock (x :: s) = codeRegexBlock s.
Proof.
  intro H. unfold codeRegexBlock. rewrite indexOf_cons, H.
  destruct (indexOf fence s); reflexivity.
Qed.

Lemma codeRegexBlock_here (s : jsstring) :
  startsWith fence s = true ->
  codeRegexBlock s
  = match indexOf fence (dropWhile isWordChar (skipn 3 s)) with
    | Some j => Some (firstn j (dropWhile isWordChar (skipn 3 s)))
    | None => None
    end.
Proof.
  intro H. unfold codeRegexBlock.
  destruct s as [|x s]; [discriminate|]. rewrite indexOf_cons, H. reflexivity.
Qed.

(** The leftmost match of [codeRegex] captures the block of [codeRegexBlock], up to
    the white space [\s*] passes before the group opens. *)
Lemma search_codeRegex (n0 : nat) :
  forall s pre,
    match search n0 codeRegex pre s, codeRegexBlock s with
    | Some m, Some block => exists g, group1 m = Some g /\ trim g = trim block
    | None, None => True
    | _, _ => False
    end.
Proof.
  induction s as [|x s IH]; intro pre; [exact I|].
  rewrite search_eq, matchAt_codeRegex.
  destruct (startsWith fence (x :: s)) eqn:Sw.
  - rewrite (codeRegexBlock_here _ Sw).
    set (afterTag := dropWhile isWordChar (skipn 3 (x :: s))).
    destruct (dropWhile_split isWhiteSpace afterTag) as [w [E Hw]].
    unfold closeFence.
    assert (Hi := indexOf_fence_app w (dropWhile isWhiteSpace afterTag)
                    (forallb_impl _ _ _ isWhiteSpace_not_backtick Hw)).
    rewrite <- E in Hi. rewrite Hi.
    destruct (indexOf fence (dropWhile isWhiteSpace afterTag)) as [j|] eqn:Ej;
      cbn [option_map].
    + eexists; split; [reflexivity|].
      rewrite E at 2. rewrite firstn_app_2. symmetry. now apply trim_app_ws.
    + rewrite search_codeRegex_None; [exact I|].
      assert (indexOf fence afterTag = None) as Ha by (rewrite Hi; reflexivity).
      clear - Ha. subst afterTag.
      destruct (dropWhile_split isWordChar (skipn 3 (x :: s))) as [w [E Hw]].
      assert (Hi := indexOf_fence_app w (dropWhile isWordChar (skipn 3 (x :: s)))
                      (forallb_impl _ _ _ isWordChar_not_backtick Hw)).
      rewrite <- E, Ha in Hi. cbn [option_map] in Hi.
      apply (indexOf_None_skipn fence 1) in Hi. now rewrite skipn_skipn in Hi.
  - rewrite (codeRegexBlock_cons _ _ Sw). apply IH.
Qed.

Lemma extractCode_codeRegexBlock (text : jsstring) :
  extractCode text
  = match codeRegexBlock text with
    | Some block => trim block
    | None => text
    end.
Proof.
  unfold extractCode, exec.
  assert (H := search_codeRegex (length text) text []).
  destruct (search (length text) codeRegex [] text) as [m|],
           (codeRegexBlock text) as [block|]; try contradiction; [|reflexivity].
  destruct H as [g [-> Hg]]. exact Hg.
Qed.

Lemma isTagChar_not_backtick (x : N) :
  isTagChar x = true -> negb (x =? backtick)%N = true.
Proof. unfold isTagChar. intro H. now apply andb_prop in H as [_ H]. Qed.

Lemma isWordChar_isTagChar (x : N) : isWordChar x = true -> isTagChar x = true.
Proof.
  intro H. unfold isTagChar.
  now rewrite (isWordChar_not_isWhiteSpace _ H), (isWordChar_not_backtick _ H).
Qed.

(** A tag of word characters is what [(?:\w+)?] passes. *)
Lemma dropWhile_word_tag :
  forall s,
    forallb isWordChar (takeWhile isTagChar s) = true ->
    dropWhile isWordChar s = dropWhile isTagChar s.
Proof.
  induction s as [|x s IH]; cbn [takeWhile dropWhile]; [reflexivity|].
  destruct (isTagChar x) eqn:T.
  - cbn [forallb]. intro H. apply andb_prop in H as [-> H]. now apply IH.
  - intros _. destruct (isWordChar x) eqn:Wd; [|reflexivity].
    apply isWordChar_isTagChar in Wd. congruence.
Qed.

(** The closing fence is found behind the whole tag exactly when it is
    found behind its word characters. *)
Lemma closing_fence_behind_tag :
  forall s,
    indexOf fence (dropWhile isWordChar s) = None <->
    indexOf fence (dropWhile isTagChar s) = None.
Proof.
  intro s.
  assert (E : dropWhile isTagChar s = dropWhile isTagChar (dropWhile isWordChar s)).
  { induction s as [|x s IH]; [reflexivity|]. cbn [dropWhile].
    destruct (isWordChar x) eqn:Wd.
    - now rewrite (isWordChar_isTagChar _ Wd).
    - cbn [dropWhile]. reflexivity. }
  rewrite E. set (t := dropWhile isWordChar s).
  destruct (dropWhile_split isTagChar t) as [w [Et Hw]].
  assert (Hi := indexOf_fence_app w (dropWhile isTagChar t)
                  (forallb_impl _ _ _ isTagChar_not_backtick Hw)).
  rewrite <- Et in Hi. rewrite Hi.
  destruct (indexOf fence (dropWhile isTagChar t)); cbn [option_map];
    split; intro H; (discriminate H || reflexivity).
Qed.

(** C2, as amended. For every raw model text given to the solution-stage
    parser: if the text contains a fenced code block whose language tag, if
    any, is made of letters, digits and underscores, the extracted code is
    the trimmed content of the first fenced block; if the text contains no
    fenced block, the extracted code is the full text as it is, not
    trimmed. *)
Theorem extractCode_first_block_or_raw_text :
  forall responseContent : jsstring,
    match firstFencedBlock responseContent with
    | Some block =>
        forallb isWordChar (languageTag block) = true ->
        code (parseSolution responseContent) = trim (blockContent block)
    | None => code (parseSolution responseContent) = responseContent
    end.
Proof.
  intro text. cbn [parseSolution code]. rewrite extractCode_codeRegexBlock.
  unfold firstFencedBlock, codeRegexBlock.
  destruct (indexOf fence text) as [i|]; [|reflexivity]. cbv zeta.
  set (rest := skipn (i + 3) text).
  destruct (indexOf fence (dropWhile isTagChar rest)) as [j|] eqn:Close.
  - cbn [languageTag blockContent]. intro Tag.
    now rewrite (dropWhile_word_tag rest Tag), Close.
  - apply closing_fence_behind_tag in Close. now rewrite Close.
Qed.

(** Counterexample to C2 as stated, second half: a text without a fence
    and with white space around it is returned as it is, which is not its
    trimmed form. *)
Lemma extractCode_no_fence_keeps_white_space :
  firstFencedBlock (js " x ") = None /\
  code (parseSolution (js " x ")) = js " x " /\
  trim (js " x ") = js "x" /\
  code (parseSolution (js " x ")) <> trim (js " x ").
Proof. vm_compute. repeat split; discriminate. Qed.

(** The first half of C2 as stated does not hold for every language tag
    either: of a tag that is not made of word characters, such as [c++],
    the pattern passes the word characters only, and the rest of the tag
    comes out as code. *)
Lemma extractCode_keeps_the_rest_of_the_tag :
  let text := js "```c++" ++ [LF] ++ js "int main() { return 0; }" ++ [LF] ++ fence in
  firstFencedBlock text
  = Some (mkFencedBlock (js "c++")
            ([LF] ++ js "int main() { return 0; }" ++ [LF])) /\
  code (parseSolution text) = js "++" ++ [LF] ++ js "int main() { return 0; }" /\
  code (parseSolution text) <> js "int main() { return 0; }".
Proof. vm_compute. repeat split; discriminate. Qed.

(** *** Patterns without a group leave the capture alone *)

Lemma repeat_groupFree_inv (R : Type)
      (body : jsstring -> capture -> (jsstring -> capture -> option R) -> option R)
      (greedy : bool) (k : jsstring -> capture -> option R)
      (Hbody : forall s c k' x, body s c k' = Some x ->
                 exists s', length s' <= length s /\ k' s' c = Some x) :
  forall fuel s c x,
    repeat_ body greedy k fuel s c = Some x ->
    exists s', length s' <= length s /\ k s' c = Some x.
Proof.
  induction fuel as [|fuel IH]; intros s c x H; cbn [repeat_] in H.
  - exists s; split; [lia|exact H].
  - assert (Hagain : forall y,
              body s c (fun s' c' =>
                if length s' <? length s then repeat_ body greedy k fuel s' c'
                else None) = Some y ->
              exists s', length s' <= length s /\ k s' c = Some y).
    { intros y Hy. apply Hbody in Hy as [s1 [L1 Hy]].
      destruct (length s1 <? length s); [|discriminate].
      apply IH in Hy as [s2 [L2 Hy]]. exists s2; split; [lia|exact Hy]. }
    unfold orElse in H. destruct greedy.
    + destruct (body s c _) eqn:E.
      * injection H as <-. now apply Hagain.
      * exists s; split; [lia|exact H].
    + destruct (k s c) eqn:E.
      * injection H as <-. exists s; split; [lia|exact E].
      * now apply Hagain.
Qed.

Lemma mt_groupFree_inv (n0 : nat) (r : regex) :
  groupFree r = true ->
  forall (R : Type) s c (k : jsstring -> capture -> option R) x,
    mt n0 r s c k = Some x ->
    exists s', length s' <= length s /\ k s' c = Some x.
Proof.
  induction r as [|P|r1 IH1 r2 IH2|r1 IH1 r2 IH2|g r1 IH1|r1 IH1|r1 IH1| |];
    cbn [groupFree]; intros G R s c k x H.
  - exists s; split; [lia|exact H].
  - rewrite mt_Class in H. destruct s as [|y s0]; [discriminate|].
    destruct (P y); [|discriminate]. exists s0; split; [simpl; lia|exact H].
  - apply andb_prop in G as [G1 G2]. rewrite mt_Seq in H.
    apply (IH1 G1) in H as [s1 [L1 H]]. apply (IH2 G2) in H as [s2 [L2 H]].
    exists s2; split; [lia|exact H].
  - apply andb_prop in G as [G1 G2]. rewrite mt_Alt in H. unfold orElse in H.
    destruct (mt n0 r1 s c k) eqn:E.
    + injection H as <-. now apply (IH1 G1) in E.
    + now apply (IH2 G2) in H.
  - change (repeat_ (mt n0 r1) g k (S (length s)) s c = Some x) in H.
    revert H. apply repeat_groupFree_inv. intros. now apply (IH1 G) in H.
  - discriminate.
  - rewrite mt_Ahead in H. destruct (mt n0 r1 s c _) as [c1|] eqn:E; [|discriminate].
    apply (IH1 G) in E as [s1 [_ E]]. injection E as <-.
    exists s; split; [lia|exact H].
  - rewrite mt_Bol in H. destruct (length s =? n0); [|discriminate].
    exists s; split; [lia|exact H].
  - rewrite mt_Eol in H. destruct s; [|discriminate].
    exists []; split; [lia|exact H].
Qed.

Lemma mt_Seq_groupFree_inv (n0 : nat) (r1 r2 : regex) (R : Type) s c
      (k : jsstring -> capture -> option R) x :
  groupFree r1 = true ->
  mt n0 (Seq r1 r2) s c k = Some x ->
  exists s1, length s1 <= length s /\ mt n0 r2 s1 c k = Some x.
Proof. intros G H. rewrite mt_Seq in H. now apply (mt_groupFree_inv _ _ G) in H. Qed.

(** The group of a complexity pattern takes at least one character. *)
Lemma mt_spanGroup_inv (n0 : nat) (R : Type) s c
      (k : jsstring -> capture -> option R) x :
  mt n0 spanGroup s c k = Some x ->
  exists s' span, span <> [] /\ k s' (Some span) = Some x.
Proof.
  unfold spanGroup, Plus, notLF, NotChr. rewrite mt_Group, !mt_Seq, mt_Class. intro H.
  destruct s as [|y s0]; [discriminate|].
  destruct (negb (y =? LF)%N); [|discriminate].
  apply mt_groupFree_inv in H as [s1 [L1 H]]; [|reflexivity].
  apply mt_groupFree_inv in H as [s2 [L2 H]]; [|reflexivity].
  eexists _, _; split; [|exact H].
  cbn [length]. rewrite Nat.sub_succ_l by lia. discriminate.
Qed.

Lemma search_inv (n0 : nat) (r : regex) :
  forall s pre m,
    search n0 r pre s = Some m ->
    exists t, matchAt n0 r t = Some (after m, group1 m).
Proof.
  induction s as [|x s IH]; intros pre m H; rewrite search_eq in H.
  - destruct (matchAt n0 r []) as [[s' c]|] eqn:E; [|discriminate].
    injection H as <-. now exists [].
  - destruct (matchAt n0 r (x :: s)) as [[s' c]|] eqn:E.
    + injection H as <-. now exists (x :: s).
    + now apply IH in H.
Qed.

Lemma complexityPattern_span_nonempty (n0 : nat) (label lookahead : regex) s r :
  groupFree label = true -> groupFree lookahead = true ->
  matchAt n0 (Cat [label; Opt (ChrI (ch ":")); Star true ws; spanGroup; Ahead lookahead]) s
  = Some r ->
  exists span, snd r = Some span /\ span <> [].
Proof.
  intros Gl Ga H. unfold matchAt, Cat in H; cbn [fold_right] in H.
  apply mt_Seq_groupFree_inv in H as [s1 [_ H]]; [|exact Gl].
  apply mt_Seq_groupFree_inv in H as [s2 [_ H]]; [|reflexivity].
  apply mt_Seq_groupFree_inv in H as [s3 [_ H]]; [|reflexivity].
  rewrite mt_Seq in H. apply mt_spanGroup_inv in H as [s4 [span [Hne H]]].
  rewrite mt_Seq, mt_Ahead in H.
  destruct (mt n0 lookahead s4 (Some span) _) as [c1|] eqn:E; [|discriminate].
  apply mt_groupFree_inv in E as [s5 [_ E]]; [|exact Ga].
  injection E as <-. rewrite mt_Empty in H. injection H as <-.
  now exists span.
Qed.

Lemma capturedSpan_time_nonempty (text span : jsstring) :
  capturedSpan timeComplexityPattern text = Some span -> span <> [].
Proof.
  unfold capturedSpan, exec. intro H.
  destruct (search _ _ _ _) as [m|] eqn:E; [|discriminate].
  apply search_inv in E as [t E].
  apply complexityPattern_span_nonempty in E as [span' [E Hne]]; try reflexivity.
  cbn [snd] in E. congruence.
Qed.

Lemma capturedSpan_space_nonempty (text span : jsstring) :
  capturedSpan spaceComplexityPattern text = Some span -> span <> [].
Proof.
  unfold capturedSpan, exec. intro H.
  destruct (search _ _ _ _) as [m|] eqn:E; [|discriminate].
  apply search_inv in E as [t E].
  apply complexityPattern_span_nonempty in E as [span' [E Hne]]; try reflexivity.
  cbn [snd] in E. congruence.
Qed.

Lemma extractComplexity_span (pattern : regex) (default text span : jsstring) :
  capturedSpan pattern text = Some span -> span <> [] ->
  extractComplexity pattern default text = formatComplexity span.
Proof.
  unfold capturedSpan, extractComplexity. destruct (exec pattern text) as [m|]; [|discriminate].
  intros -> Hne. destruct span; [contradiction|reflexivity].
Qed.

Lemma formatComplexity_no_notation (span : jsstring) :
  bigONotation (trim span) = None ->
  formatComplexity span = js "O(n) - " ++ trim span.
Proof.
  unfold bigONotation, formatComplexity, test.
  destruct (exec notationRegex (trim span)); [discriminate|reflexivity].
Qed.

Lemma formatComplexity_reformat (span notation : jsstring) :
  bigONotation (trim span) = Some notation ->
  includes (js "-") (trim span) = false ->
  includes (js "because") (trim span) = false ->
  formatComplexity span
  = notation ++ js " - " ++ trim (replaceStr notation [] (trim span)).
Proof.
  unfold bigONotation, formatComplexity, test.
  destruct (exec notationRegex (trim span)) as [m|]; [|discriminate].
  cbn [option_map negb]. intros [= <-] -> ->. reflexivity.
Qed.

Lemma includes_prefix (p s : jsstring) : includes p (p ++ s) = true.
Proof.
  assert (startsWith p (p ++ s) = true) as H.
  { induction p as [|a p IH]; [reflexivity|]. cbn [app startsWith].
    now rewrite N.eqb_refl. }
  unfold includes. destruct (p ++ s); cbn [indexOf]; now rewrite H.
Qed.

(** *** Trimming does not change what the parser looks for in a span *)

Lemma matchAt_notationRegex (n0 : nat) (s : jsstring) :
  matchAt n0 notationRegex s = notationAt s.
Proof.
  unfold matchAt, notationRegex, Cat, ChrI, Chr, NotChr, Plus; cbn [fold_right].
  fold notParen.
  rewrite mt_Seq, mt_Class. destruct s as [|o s1]; [reflexivity|].
  destruct (canonicalize o =? canonicalize (ch "O"))%N eqn:Eo.
  2:{ destruct s1 as [|l [|x s3]]; cbn [notationAt]; now rewrite ?Eo. }
  rewrite mt_Seq, mt_Class. destruct s1 as [|l s2]; [reflexivity|].
  destruct (ch "(" =? l)%N eqn:El.
  2:{ destruct s2 as [|x s3]; cbn [notationAt]; now rewrite ?Eo, ?El. }
  rewrite !mt_Seq, mt_Class. destruct s2 as [|x s3]; [reflexivity|].
  cbn [notationAt]. rewrite Eo, El.
  destruct (notParen x); [|reflexivity].
  rewrite mt_star_greedy_class.
  rewrite greedyClass_ext with
    (k2 := fun s4 : jsstring =>
             match s4 with
             | y :: s5 => if (ch ")" =? y)%N then Some (s5, @None jsstring) else None
             | [] => None
             end)
    by (intro s4; now rewrite mt_Seq, mt_Class).
  rewrite (greedyClass_dropWhile _ notParen
             (fun s4 : jsstring =>
                match s4 with
                | y :: s5 => if (ch ")" =? y)%N then Some (s5, @None jsstring) else None
                | [] => None
                end)).
  - reflexivity.
  - intros y t Hy _. unfold notParen in Hy. rewrite N.eqb_sym.
    now destruct (y =? ch ")")%N.
Qed.

Lemma trimEnd_split (s : jsstring) :
  exists w, s = trimEnd s ++ w /\ forallb isWhiteSpace w = true.
Proof.
  unfold trimEnd, trimStart.
  destruct (dropWhile_split isWhiteSpace (rev s)) as [w [E Hw]].
  exists (rev w). split.
  - rewrite <- rev_app_distr, <- E. now rewrite rev_involutive.
  - apply forallb_forall. intros x Hx. apply in_rev in Hx.
    now apply (proj1 (forallb_forall _ _) Hw).
Qed.

Lemma trim_split (s : jsstring) :
  exists w1 w2,
    s = w1 ++ trim s ++ w2
    /\ forallb isWhiteSpace w1 = true /\ forallb isWhiteSpace w2 = true.
Proof.
  destruct (dropWhile_split isWhiteSpace s) as [w1 [E1 H1]].
  destruct (trimEnd_split (trimStart s)) as [w2 [E2 H2]].
  exists w1, w2. unfold trim. fold (trimStart s) in E1. now rewrite <- E2.
Qed.

Ltac ws_char H :=
  unfold isWhiteSpace in H;
  repeat rewrite ?orb_true_iff, ?andb_true_iff, ?N.leb_le, ?N.eqb_eq in H.

Lemma notationAt_ws_head (a : N) (s : jsstring) :
  isWhiteSpace a = true -> notationAt (a :: s) = None.
Proof.
  intro H. destruct s as [|l [|x s3]]; try reflexivity. cbn [notationAt].
  replace (canonicalize a =? canonicalize (ch "O"))%N with false; [reflexivity|].
  symmetry. apply N.eqb_neq. unfold canonicalize.
  destruct ((97 <=? a) && (a <=? 122))%N eqn:E.
  - apply andb_prop in E as [E1 E2]. apply N.leb_le in E1, E2. ws_char H. cbn. lia.
  - ws_char H. cbn. lia.
Qed.

Lemma dropWhile_notParen_ws (w : jsstring) :
  forallb isWhiteSpace w = true -> dropWhile notParen w = [].
Proof.
  induction w as [|a w IH]; cbn [forallb dropWhile]; [reflexivity|].
  intro H; apply andb_prop in H as [Ha Hw].
  replace (notParen a) with true; [auto|].
  unfold notParen. destruct (N.eqb_spec a (ch ")")); [subst; discriminate|reflexivity].
Qed.

Lemma dropWhile_notParen_app (s w : jsstring) :
  forallb isWhiteSpace w = true ->
  dropWhile notParen (s ++ w)
  = match dropWhile notParen s with
    | [] => []
    | y :: t => (y :: t) ++ w
    end.
Proof.
  intro Hw. induction s as [|x s IH]; cbn [app dropWhile].
  - now apply dropWhile_notParen_ws.
  - destruct (notParen x); [exact IH|reflexivity].
Qed.

Lemma notationAt_app_ws (s w : jsstring) :
  forallb isWhiteSpace w = true ->
  notationAt (s ++ w) = option_map (addSuffix w) (notationAt s).
Proof.
  intro Hw.
  assert (Hp : forall a, isWhiteSpace a = true -> (ch "(" =? a)%N = false).
  { intros a Ha. destruct (N.eqb_spec (ch "(") a); [subst; discriminate|reflexivity]. }
  destruct s as [|o [|l [|x s3]]]; cbn [app notationAt option_map].
  - destruct w as [|a w]; [reflexivity|].
    cbn [forallb] in Hw. apply andb_prop in Hw as [Ha _].
    now apply notationAt_ws_head.
  - destruct w as [|a [|b w]]; try reflexivity. cbn [notationAt].
    cbn [forallb] in Hw. apply andb_prop in Hw as [Ha _]. rewrite (Hp _ Ha).
    now destruct (canonicalize o =? _)%N.
  - destruct w as [|a w]; [reflexivity|]. cbn [notationAt].
    cbn [forallb] in Hw. apply andb_prop in Hw as [Ha Hw].
    rewrite (dropWhile_notParen_ws _ Hw).
    destruct (canonicalize o =? _)%N, (ch "(" =? l)%N, (notParen a); reflexivity.
  - rewrite (dropWhile_notParen_app _ _ Hw).
    destruct (canonicalize o =? _)%N; [|reflexivity].
    destruct (ch "(" =? l)%N; [|reflexivity].
    destruct (notParen x); [|reflexivity].
    destruct (dropWhile notParen s3) as [|y t]; [reflexivity|].
    cbn [app]. now destruct (_ =? y)%N.
Qed.

Lemma search_notation_ws (n0 : nat) (w : jsstring) :
  forallb isWhiteSpace w = true ->
  forall pre, search n0 notationRegex pre w = None.
Proof.
  induction w as [|a w IH]; intros Hw pre; rewrite search_eq, matchAt_notationRegex.
  - reflexivity.
  - cbn [forallb] in Hw. apply andb_prop in Hw as [Ha Hw].
    rewrite (notationAt_ws_head _ _ Ha). now apply IH.
Qed.

Lemma notationAt_length (s t : jsstring) (c : capture) :
  notationAt s = Some (t, c) -> length t <= length s.
Proof.
  rewrite <- (matchAt_notationRegex 0). unfold matchAt. intro H.
  apply mt_groupFree_inv in H as [s' [L H]]; [|reflexivity].
  now injection H as <- _.
Qed.

Lemma search_notation_app_ws (n0 n1 : nat) (w : jsstring) :
  forallb isWhiteSpace w = true ->
  forall s pre pre',
    option_map matched (search n0 notationRegex pre (s ++ w))
    = option_map matched (search n1 notationRegex pre' s).
Proof.
  intros Hw. induction s as [|x s IH]; intros pre pre'.
  - cbn [app]. rewrite (search_notation_ws _ _ Hw). reflexivity.
  - rewrite (search_eq n0), (search_eq n1), !matchAt_notationRegex.
    change ((x :: s) ++ w) with (x :: (s ++ w)) at 2.
    rewrite (notationAt_app_ws (x :: s) w Hw).
    destruct (notationAt (x :: s)) as [[t c]|] eqn:E; cbn [option_map addSuffix fst snd].
    + cbn [option_map matched]. f_equal. apply notationAt_length in E.
      change (x :: s ++ w) with ((x :: s) ++ w).
      rewrite !length_app.
      replace (length (x :: s) + length w - (length t + length w))
        with (length (x :: s) - length t) by lia.
      rewrite firstn_app.
      replace (length (x :: s) - length t - length (x :: s)) with 0 by lia.
      cbn [firstn]. now rewrite app_nil_r.
    + cbn [app]. apply IH.
Qed.

Lemma search_notation_ws_app (n0 n1 : nat) (s : jsstring) :
  forall w pre pre',
    forallb isWhiteSpace w = true ->
    option_map matched (search n0 notationRegex pre (w ++ s))
    = option_map matched (search n1 notationRegex pre' s).
Proof.
  induction w as [|a w IH]; intros pre pre' Hw.
  - cbn [app]. rewrite <- (app_nil_r s) at 1.
    symmetry. rewrite <- (app_nil_r s) at 1. 
    rewrite (search_notation_app_ws n1 n0 [] eq_refl s pre' pre).
    now rewrite app_nil_r.
  - cbn [forallb] in Hw. apply andb_prop in Hw as [Ha Hw].
    cbn [app]. rewrite search_eq, matchAt_notationRegex, (notationAt_ws_head _ _ Ha).
    now apply IH.
Qed.

(** A span has the same first Big-O token before and after trimming. *)
Lemma bigONotation_trim (s : jsstring) : bigONotation (trim s) = bigONotation s.
Proof.
  destruct (trim_split s) as (w1 & w2 & E & H1 & H2).
  unfold bigONotation, exec. rewrite E at 3 4.
  rewrite (search_notation_ws_app _ (length (trim s)) _ w1 [] [] H1).
  now rewrite (search_notation_app_ws _ (length (trim s)) w2 H2 (trim s) [] []).
Qed.

Lemma includes_cons (p : jsstring) (x : N) (s : jsstring) :
  includes p (x :: s) = startsWith p (x :: s) || includes p s.
Proof.
  unfold includes. rewrite indexOf_cons.
  destruct (startsWith p (x :: s)); [reflexivity|]. now destruct (indexOf p s).
Qed.

Section IncludesTrim.

Variable p : jsstring.
Hypothesis p_nonempty : p <> [].
Hypothesis p_no_ws : forallb (fun x => negb (isWhiteSpace x)) p = true.

Lemma startsWith_ws_head (a : N) (s : jsstring) :
  isWhiteSpace a = true -> startsWith p (a :: s) = false.
Proof.
  intro Ha. destruct p as [|b p']; [contradiction|].
  cbn [forallb] in p_no_ws. apply andb_prop in p_no_ws as [Hb _].
  cbn [startsWith]. destruct (N.eqb_spec b a); [subst; now rewrite Ha in Hb|reflexivity].
Qed.

Lemma includes_ws (w : jsstring) :
  forallb isWhiteSpace w = true -> includes p w = false.
Proof.
  induction w as [|a w IH]; cbn [forallb]; intro H.
  - unfold includes. cbn [indexOf]. destruct p; [contradiction|reflexivity].
  - apply andb_prop in H as [Ha Hw]. rewrite includes_cons, startsWith_ws_head; auto.
Qed.

Lemma includes_ws_app (w s : jsstring) :
  forallb isWhiteSpace w = true -> includes p (w ++ s) = includes p s.
Proof.
  induction w as [|a w IH]; cbn [forallb app]; intro H; [reflexivity|].
  apply andb_prop in H as [Ha Hw]. rewrite includes_cons, startsWith_ws_head; auto.
Qed.

Lemma startsWith_app_ws (w : jsstring) :
  forallb isWhiteSpace w = true ->
  forall q t, forallb (fun x => negb (isWhiteSpace x)) q = true ->
              startsWith q (t ++ w) = startsWith q t.
Proof.
  intro Hw. induction q as [|b q IH]; intros t Hq; [now destruct (t ++ w), t|].
  cbn [forallb] in Hq. apply andb_prop in Hq as [Hb Hq].
  destruct t as [|y t]; cbn [app startsWith].
  - destruct w as [|a w']; [reflexivity|]. cbn [forallb] in Hw.
    apply andb_prop in Hw as [Ha _].
    destruct (N.eqb_spec b a); [subst; now rewrite Ha in Hb|reflexivity].
  - now rewrite IH.
Qed.

Lemma includes_app_ws (s w : jsstring) :
  forallb isWhiteSpace w = true -> includes p (s ++ w) = includes p s.
Proof.
  intro Hw. induction s as [|x s IH].
  - cbn [app]. rewrite (includes_ws _ Hw). unfold includes; cbn [indexOf].
    destruct p; [contradiction|reflexivity].
  - change ((x :: s) ++ w) with (x :: (s ++ w)). rewrite !includes_cons, IH.
    change (x :: s ++ w) with ((x :: s) ++ w).
    now rewrite (startsWith_app_ws _ Hw p (x :: s) p_no_ws).
Qed.

Lemma includes_trim (s : jsstring) : includes p (trim s) = includes p s.
Proof.
  destruct (trim_split s) as (w1 & w2 & E & H1 & H2).
  rewrite E at 2. now rewrite includes_ws_app, includes_app_ws.
Qed.

End IncludesTrim.

Lemma dash_no_ws : forallb (fun x => negb (isWhiteSpace x)) (js "-") = true.
Proof. reflexivity. Qed.

Lemma because_no_ws : forallb (fun x => negb (isWhiteSpace x)) (js "because") = true.
Proof. reflexivity. Qed.

Lemma formatComplexity_span (span : jsstring) :
  (bigONotation span = None ->
   formatComplexity span = js "O(n) - " ++ trim span /\
   includes (js "O(") (formatComplexity span) = true) /\
  (forall notation,
     bigONotation span = Some notation ->
     includes (js "-") span = false ->
     includes (js "because") span = false ->
     formatComplexity span
     = notation ++ js " - " ++ trim (replaceStr notation [] (trim span))).
Proof.
  split.
  - intro Hn. rewrite <- bigONotation_trim in Hn.
    rewrite (formatComplexity_no_notation _ Hn). split; [reflexivity|].
    exact (includes_prefix (js "O(") (js "n) - " ++ trim span)).
  - intros notation Hn Hd Hb. rewrite <- bigONotation_trim in Hn.
    rewrite <- (includes_trim (js "-")) in Hd by (discriminate || exact dash_no_ws).
    rewrite <- (includes_trim (js "because")) in Hb
      by (discriminate || exact because_no_ws).
    exact (formatComplexity_reformat _ _ Hn Hd Hb).
Qed.

(** C7. Whenever the time (space) pattern captures a span: if the span has
    no Big-O token, the time (space) field is "O(n) - " followed by the
    trimmed span, and so contains "O("; if the span has a token and neither a
    dash nor "because", the field is the token, " - ", and the rest of the
    trimmed span once the token is taken out. *)
Theorem complexity_default_prefix_and_reformat :
  forall text span : jsstring,
    let payload := parseSolution text in
    (capturedSpan timeComplexityPattern text = Some span ->
     (bigONotation span = None ->
      time_complexity payload = js "O(n) - " ++ trim span /\
      includes (js "O(") (time_complexity payload) = true) /\
     (forall notation,
        bigONotation span = Some notation ->
        includes (js "-") span = false ->
        includes (js "because") span = false ->
        time_complexity payload
        = notation ++ js " - " ++ trim (replaceStr notation [] (trim span)))) /\
    (capturedSpan spaceComplexityPattern text = Some span ->
     (bigONotation span = None ->
      space_complexity payload = js "O(n) - " ++ trim span /\
      includes (js "O(") (space_complexity payload) = true) /\
     (forall notation,
        bigONotation span = Some notation ->
        includes (js "-") span = false ->
        includes (js "because") span = false ->
        space_complexity payload
        = notation ++ js " - " ++ trim (replaceStr notation [] (trim span)))).
Proof.
  intros text span payload; subst payload;
    cbn [parseSolution time_complexity space_complexity].
  split; intro Hs.
  - rewrite (extractComplexity_span _ _ _ _ Hs (capturedSpan_time_nonempty _ _ Hs)).
    apply formatComplexity_span.
  - rewrite (extractComplexity_span _ _ _ _ Hs (capturedSpan_space_nonempty _ _ Hs)).
    apply formatComplexity_span.
Qed.

(** C8. The thoughts of a solution payload are never empty: they are the
    extracted list when there is one, and exactly the one default sentence
    when no heading is found or the span under the heading yields no bullet
    item and no non-empty line. *)
Theorem thoughts_never_empty :
  forall text : jsstring,
    let payload := parseSolution text in
    thoughts payload <> [] /\
    (extractThoughts text = [] ->
     thoughts payload
     = [js "Solution approach based on efficiency and readability"]) /\
    (exec thoughtsRegex text = None ->
     thoughts payload
     = [js "Solution approach based on efficiency and readability"]) /\
    (extractThoughts text <> [] -> thoughts payload = extractThoughts text).
Proof.
  intros text payload; subst payload; cbn [parseSolution thoughts].
  repeat split.
  - destruct (extractThoughts text); discriminate.
  - now intros ->.
  - unfold extractThoughts. now intros ->.
  - destruct (extractThoughts text); [contradiction|reflexivity].
Qed.

Ltac exec_step :=
  unfold clearExtraScreenshotQueue, updateProcessingStatus, sendProcessingEvent,
    setProblemInfo, setView, setHasDebugged, setProcessingController,
    setExtraProcessingController, setClients, windowAlive, emit, withTrace;
  cbn [mainWindow view problemInfo hasDebugged screenshotQueue extraScreenshotQueue
       openaiClient geminiApiKey anthropicClient currentProcessingAbortController
       currentExtraProcessingAbortController trace fst snd choices candidates content
       isDestroyed negb].

Ltac run :=
  repeat (progress exec_step); rewrite <- ?app_assoc; cbn [app].

Ltac trace_ext :=
  first [ exists []; rewrite app_nil_r; split; reflexivity
        | eexists; split; reflexivity ].

Section Frames.

Variable W : World.

(** [callAIModel] only reports progress and calls the vendor. *)
Lemma callAIModel_frame prompt images modelType st :
  exists r new,
    callAIModel W prompt images modelType st = (r, withTrace (trace st ++ new) st)
    /\ forallb isQuiet new = true.
Proof.
  destruct st as [w v p h q xq oc gk ac pc ec tr].
  unfold callAIModel, updateProcessingStatus.
  destruct modelType;
    (destruct (windowAlive _) eqn:A);
    (destruct (apiProvider (loadConfig W)));
    run;
    lazymatch goal with
    | |- context [openaiCreate W _] =>
        destruct oc; [destruct (openaiCreate W _) as [[[|? ?]]|]|]
    | |- context [geminiPost W _] =>
        destruct gk; [destruct (geminiPost W _) as [[[|[|? ?] ?]]|]|]
    | |- context [anthropicCreate W _] =>
        destruct ac; [destruct (anthropicCreate W _) as [[[|? ?]]|]|]
    | _ => idtac
    end;
    run; eexists; trace_ext.
Qed.

End Frames.

Lemma withTrace_nil st : withTrace (trace st ++ []) st = st.
Proof. destruct st; unfold withTrace; cbn. now rewrite app_nil_r. Qed.

Lemma sent_app k a b : sent k (a ++ b) = sent k a + sent k b.
Proof. unfold sent. now rewrite filter_app, length_app. Qed.

Lemma sent_quiet k new : forallb isQuiet new = true -> sent k new = 0.
Proof.
  unfold sent. induction new as [|e new IH]; cbn [forallb filter]; [reflexivity|].
  intro H; apply andb_prop in H as [He Hn].
  destruct e; try discriminate; cbn [isSend]; auto.
Qed.

Lemma sent_cons k e l : sent k (e :: l) = (if isSend k e then 1 else 0) + sent k l.
Proof. unfold sent; cbn [filter]. now destruct (isSend k e). Qed.

Lemma sent_nil k : sent k [] = 0.
Proof. reflexivity. Qed.

Ltac sent_solve :=
  repeat (rewrite sent_app || rewrite sent_cons || rewrite sent_nil);
  rewrite ?sent_quiet by assumption;
  cbn [isSend EventKey_eqb Nat.add]; try reflexivity; try assumption.

Lemma providerCalls_app a b : providerCalls (a ++ b) = providerCalls a + providerCalls b.
Proof. unfold providerCalls. now rewrite filter_app, length_app. Qed.

Section HelperFrames.

Variable W : World.

(** [generateSolutionsHelper] has no effect of its own. *)
Lemma generateSolutionsHelper_frame st :
  exists r new,
    generateSolutionsHelper W st = (r, withTrace (trace st ++ new) st)
    /\ forallb isQuiet new = true.
Proof.
  unfold generateSolutionsHelper. destruct (problemInfo st) as [p|].
  - destruct (callAIModel_frame W (solutionPrompt p (getLanguage W st)) [] solution st)
      as (r & new & E & Q).
    rewrite E. destruct r as [c|e]; [destruct (negb (truthy c))|]; eauto.
  - eexists _, []. rewrite withTrace_nil. split; reflexivity.
Qed.

(** What a run of [processScreenshotsHelper] leaves behind: the window and
    the view are as before; on success, with a live window, the trace ends
    with the clearing of the extra queue, the last progress message and the
    SOLUTION_SUCCESS event, and no SOLUTION_SUCCESS was sent before. *)
Lemma processScreenshotsHelper_spec screenshots st :
  exists r st' new,
    processScreenshotsHelper W screenshots st = (r, st')
    /\ mainWindow st' = mainWindow st
    /\ view st' = view st
    /\ currentProcessingAbortController st' = currentProcessingAbortController st
    /\ currentExtraProcessingAbortController st' = currentExtraProcessingAbortController st
    /\ trace st' = trace st ++ new
    /\ match r with
       | Failure _ => sent SOLUTION_SUCCESS new = 0
       | Success data =>
           windowAlive st = true ->
           exists pre,
             new = pre ++ [ClearExtraScreenshotQueue;
                           Status (js "Solution generated successfully") 100;
                           Send SOLUTION_SUCCESS (Solution data)]
             /\ sent SOLUTION_SUCCESS pre = 0
       end.
Proof.
  unfold processScreenshotsHelper.
  destruct (callAIModel_frame W (extractionPrompt (getLanguage W st)) screenshots
              extraction st) as (r1 & new1 & E1 & Q1).
  rewrite E1. destruct st as [w v p h q xq oc gk ac pc ec tr].
  destruct r1 as [c|e].
  2:{ eexists _, _, new1. do 6 (split; [reflexivity|]). now apply sent_quiet. }
  destruct (JSON_parse W _) as [msg|pi].
  { eexists _, _, new1. do 6 (split; [reflexivity|]). now apply sent_quiet. }
  destruct w as [[d i l]|]; run.
  2:{ eexists _, _, _. do 6 (split; [reflexivity|]). sent_solve. }
  destruct d; run;
    match goal with |- context [generateSolutionsHelper W ?s] =>
      destruct (generateSolutionsHelper_frame s) as (r2 & new2 & E2 & Q2); rewrite E2
    end;
    (destruct r2 as [data|e]; run;
      eexists _, _, _; do 6 (split; [reflexivity|]); try sent_solve).
  - discriminate.
  - intros _.
    exists (new1 ++ [Status (js "Problem analyzed successfully. Preparing to generate solution...") 40;
                     SetProblemInfo pi; Send PROBLEM_EXTRACTED (Problem pi)] ++ new2).
    rewrite <- !app_assoc. split; [reflexivity|]. sent_solve.
Qed.

End HelperFrames.

(** ** The explicit cancel *)

(** C1. Whatever the session state, [cancelOngoingRequests] leaves
    [hasDebugged] false and the problem info null and both handles cleared;
    it sends NO_SCREENSHOTS at most once, only when one of the two abort
    controllers was set (and then that controller was aborted), and not at
    all when neither was. *)
Theorem cancelOngoingRequests_clears_and_notifies_once :
  forall st : State,
    let st' := cancelOngoingRequests st in
    hasDebugged st' = false /\
    problemInfo st' = None /\
    currentProcessingAbortController st' = None /\
    currentExtraProcessingAbortController st' = None /\
    exists new : list Effect,
      trace st' = trace st ++ new /\
      sent NO_SCREENSHOTS new <= 1 /\
      (sent NO_SCREENSHOTS new = 1 ->
       currentProcessingAbortController st <> None \/
       currentExtraProcessingAbortController st <> None) /\
      (currentProcessingAbortController st = None ->
       currentExtraProcessingAbortController st = None ->
       sent NO_SCREENSHOTS new = 0) /\
      (currentProcessingAbortController st <> None -> In (Abort MainFlow) new) /\
      (currentExtraProcessingAbortController st <> None -> In (Abort DebugFlow) new).
Proof.
  intros [w v p h q xq oc gk ac pc ec tr]; unfold cancelOngoingRequests.
  destruct pc as [pc|], ec as [ec|], w as [[[|] i l]|];
    cbn; repeat rewrite <- app_assoc; cbn;
    (repeat split; try reflexivity);
    eexists; (split; [reflexivity|]); cbn;
    repeat split; intros; try congruence; try lia; auto;
    try (left; congruence); try (right; congruence).
Qed.

(** ** The flows *)

Section Flows.

Variable W : World.

Lemma ensureClient_frame st :
  exists b o g a, ensureClient W st = (b, setClients o g a st).
Proof.
  destruct st as [w v p h q xq oc gk ac pc ec tr].
  unfold ensureClient, initializeAIClient.
  destruct (apiProvider (loadConfig W)), oc, gk, ac, (negb (truthy (apiKey (loadConfig W))));
    run; eexists _, _, _, _; reflexivity.
Qed.

Lemma filter_none (f : jsstring -> bool) (l : list jsstring) :
  (forall x, In x l -> f x = false) -> filter f l = [].
Proof.
  induction l as [|x l IH]; cbn [filter]; intro H; [reflexivity|].
  rewrite (H x (or_introl eq_refl)). apply IH. intros y Hy. apply H. now right.
Qed.

Lemma sendProcessingEvent_alive k p st :
  windowAlive st = true -> sendProcessingEvent k p st = emit (Send k p) st.
Proof. unfold sendProcessingEvent. now intros ->. Qed.

Lemma processMainQueue_no_screenshots st :
  windowAlive st = true ->
  filter (existsSync W) (screenshotQueue st) = [] ->
  processMainQueue W st
  = emit (Send NO_SCREENSHOTS NoPayload) (emit (Send INITIAL_START NoPayload) st).
Proof.
  intros A F. unfold processMainQueue.
  rewrite (sendProcessingEvent_alive _ _ _ A).
  change (screenshotQueue (emit (Send INITIAL_START NoPayload) st))
    with (screenshotQueue st).
  destruct (screenshotQueue st); [|rewrite F];
    now rewrite sendProcessingEvent_alive.
Qed.

Lemma processExtraQueue_no_screenshots st :
  windowAlive st = true ->
  filter (existsSync W) (extraScreenshotQueue st) = [] ->
  processExtraQueue W st = emit (Send NO_SCREENSHOTS NoPayload) st.
Proof.
  intros A F. unfold processExtraQueue.
  destruct (extraScreenshotQueue st); [|rewrite F];
    now rewrite sendProcessingEvent_alive.
Qed.

Lemma sendProcessingEvent_dead k p st :
  windowAlive st = false -> sendProcessingEvent k p st = st.
Proof. unfold sendProcessingEvent. now intros ->. Qed.

Lemma processMainQueue_no_screenshots_dead st :
  windowAlive st = false ->
  filter (existsSync W) (screenshotQueue st) = [] ->
  processMainQueue W st = st.
Proof.
  intros A F. unfold processMainQueue.
  rewrite (sendProcessingEvent_dead _ _ _ A).
  destruct (screenshotQueue st); [|rewrite F];
    now rewrite sendProcessingEvent_dead.
Qed.

Lemma processExtraQueue_no_screenshots_dead st :
  windowAlive st = false ->
  filter (existsSync W) (extraScreenshotQueue st) = [] ->
  processExtraQueue W st = st.
Proof.
  intros A F. unfold processExtraQueue.
  destruct (extraScreenshotQueue st); [|rewrite F];
    now rewrite sendProcessingEvent_dead.
Qed.

(** C3, as amended. When the queue the flow reads (the primary queue in
    the queue view, the extra queue otherwise) is empty or none of its files
    exists, a run of [processScreenshots] calls no vendor; and when the run
    passes the two guards at its entry, a live window (lines 158-160) and
    the client of the configured provider at hand (lines 163-194), it sends
    NO_SCREENSHOTS (after INITIAL_START in the main flow), once, and nothing
    else. *)
Theorem empty_or_missing_screenshots_stop_the_flow :
  forall st : State,
    (relevantQueue st = [] \/
     forall path, In path (relevantQueue st) -> existsSync W path = false) ->
    exists new : list Effect,
      trace (processScreenshots W st) = trace st ++ new /\
      providerCalls new = 0 /\
      (windowAlive st = true ->
       clientAvailable W st = true ->
       new = match view st with
             | queue => [Send INITIAL_START NoPayload; Send NO_SCREENSHOTS NoPayload]
             | solutions => [Send NO_SCREENSHOTS NoPayload]
             end /\
       sent NO_SCREENSHOTS new = 1).
Proof.
  intros st Q.
  assert (F : filter (existsSync W) (relevantQueue st) = []).
  { destruct Q as [->|Q]; [reflexivity|now apply filter_none]. }
  clear Q. unfold clientAvailable, processScreenshots, relevantQueue in *.
  destruct (mainWindow st) as [w|] eqn:Hw.
  2:{ exists []. rewrite app_nil_r. split; [reflexivity|]. split; [reflexivity|].
      intro A. unfold windowAlive in A. rewrite Hw in A. discriminate. }
  destruct (ensureClient_frame st) as (b & o & g & a & E). rewrite E.
  cbn [fst]. change (view (setClients o g a st)) with (view st).
  destruct (windowAlive st) eqn:A; destruct b; cbn [negb].
  - destruct (view st).
    + rewrite processMainQueue_no_screenshots by assumption.
      eexists; split; [cbn [emit withTrace trace setClients]|].
      * now rewrite <- app_assoc.
      * split; [reflexivity|]. intros _ _. split; reflexivity.
    + rewrite processExtraQueue_no_screenshots by assumption.
      eexists; split; [reflexivity|]. split; [reflexivity|].
      intros _ _. split; reflexivity.
  - rewrite sendProcessingEvent_alive by assumption.
    eexists; split; [reflexivity|]. split; [reflexivity|]. discriminate.
  - destruct (view st).
    + rewrite processMainQueue_no_screenshots_dead by assumption.
      exists []. rewrite app_nil_r. split; [reflexivity|]. split; [reflexivity|].
      discriminate.
    + rewrite processExtraQueue_no_screenshots_dead by assumption.
      exists []. rewrite app_nil_r. split; [reflexivity|]. split; [reflexivity|].
      discriminate.
  - rewrite sendProcessingEvent_dead by assumption.
    exists []. rewrite app_nil_r. split; [reflexivity|]. split; [reflexivity|].
    discriminate.
Qed.

(** C9. Without problem info the debug helper fails with "No problem info
    available" and leaves the state, trace included, as it was: no vendor is
    called; a successful debug result means the problem info was there. *)
Theorem debug_needs_problem_info :
  forall (screenshots : list jsstring) (st : State),
    (problemInfo st = None ->
     processExtraScreenshotsHelper W screenshots st
     = (Failure (js "No problem info available"), st)) /\
    (forall data st',
       processExtraScreenshotsHelper W screenshots st = (Success data, st') ->
       problemInfo st <> None).
Proof.
  intros screenshots st. unfold processExtraScreenshotsHelper. split.
  - now intros ->.
  - intros data st' H. destruct (problemInfo st); [discriminate|].
    discriminate H.
Qed.

(** C6, as amended. Every successful debug-stage result has
    time_complexity and space_complexity equal to the constant
    "N/A - Debug mode". *)
Theorem debug_payload_complexity_constant :
  forall (screenshots : list jsstring) (st st' : State) (data : DebugPayload),
    processExtraScreenshotsHelper W screenshots st = (Success data, st') ->
    debug_time_complexity data = js "N/A - Debug mode" /\
    debug_space_complexity data = js "N/A - Debug mode".
Proof.
  intros screenshots st st' data. unfold processExtraScreenshotsHelper.
  destruct (problemInfo st) as [p|]; [|discriminate].
  destruct (callAIModel W _ _ _ _) as [[c|e] st1]; [|discriminate].
  destruct (negb (truthy c)); [discriminate|].
  intros [= <- _]. split; reflexivity.
Qed.

(** Line 250 on the three substrings it looks for, and the reset of the view
    in either case. *)
Lemma handleMainResult_failure (error : jsstring) (st : State) :
  windowAlive st = true ->
  view (handleMainResult (Failure error) st) = queue /\
  trace (handleMainResult (Failure error) st)
  = trace st ++
    [if includes (js "API Key") error || includes (js "OpenAI") error
        || includes (js "Gemini") error
     then Send API_KEY_INVALID NoPayload
     else Send INITIAL_SOLUTION_ERROR (Text error);
     SetView queue].
Proof.
  intro A. unfold handleMainResult, looksLikeApiKeyError, sendProcessingEvent.
  rewrite A. cbn [negb].
  destruct (includes (js "API Key") error || includes (js "OpenAI") error
            || includes (js "Gemini") error); run; split; reflexivity.
Qed.

Lemma windowAlive_same st st' :
  mainWindow st' = mainWindow st -> windowAlive st' = windowAlive st.
Proof. unfold windowAlive. now intros ->. Qed.

Lemma processMainQueue_success st :
  windowAlive st = true ->
  view st = queue ->
  view (processMainQueue W st) = solutions ->
  exists before data,
    trace (processMainQueue W st)
    = trace st ++ before ++
      [ClearExtraScreenshotQueue;
       Status (js "Solution generated successfully") 100;
       Send SOLUTION_SUCCESS (Solution data);
       Send SOLUTION_SUCCESS (Solution data);
       SetView solutions]
    /\ sent SOLUTION_SUCCESS before = 0.
Proof.
  intros A V. unfold processMainQueue.
  rewrite (sendProcessingEvent_alive _ _ _ A).
  set (st1 := emit (Send INITIAL_START NoPayload) st).
  assert (A1 : windowAlive st1 = true) by exact A.
  change (screenshotQueue st1) with (screenshotQueue st).
  destruct (screenshotQueue st) as [|s0 q].
  { rewrite (sendProcessingEvent_alive _ _ _ A1). intro H.
    change (view st = solutions) in H. congruence. }
  destruct (filter (existsSync W) (s0 :: q)) as [|e0 ex].
  { rewrite (sendProcessingEvent_alive _ _ _ A1). intro H.
    change (view st = solutions) in H. congruence. }
  set (st2 := setProcessingController (Some (mkAbortController false)) st1).
  assert (A2 : windowAlive st2 = true) by exact A.
  destruct (loadScreenshots W (e0 :: ex)) as [|d0 ds].
  { intro H. discriminate H. }
  destruct (processScreenshotsHelper_spec W (d0 :: ds) st2)
    as (r & st' & new & E & Hw & Hv & _ & _ & Ht & Hr).
  rewrite E. destruct r as [data|error].
  - intros _. destruct (Hr A2) as (pre & -> & Hpre). clear Hr.
    unfold handleMainResult.
    rewrite sendProcessingEvent_alive by (now rewrite (windowAlive_same _ _ Hw)).
    exists ([Send INITIAL_START NoPayload] ++ pre), data. split; [|sent_solve].
    cbn [setProcessingController setView emit withTrace trace].
    rewrite Ht. cbn [st2 st1 setProcessingController emit withTrace trace].
    now rewrite <- !app_assoc.
  - intro H. unfold handleMainResult in H. discriminate H.
Qed.

(** C10, as amended. A main-queue flow with a live window that ends in
    the solutions view (the only way out of the queue view, line 264) has
    sent SOLUTION_SUCCESS exactly twice with the same payload: once by the
    helper, right after the extra queue was cleared and the last progress
    message sent, and once by the outer flow right before the view is set to
    solutions. *)
Theorem solution_success_sent_twice :
  forall st : State,
    windowAlive st = true ->
    view st = queue ->
    view (processScreenshots W st) = solutions ->
    exists (before : list Effect) (data : SolutionPayload),
      let new :=
        before ++
        [ClearExtraScreenshotQueue;
         Status (js "Solution generated successfully") 100;
         Send SOLUTION_SUCCESS (Solution data);
         Send SOLUTION_SUCCESS (Solution data);
         SetView solutions] in
      trace (processScreenshots W st) = trace st ++ new /\
      sent SOLUTION_SUCCESS before = 0 /\
      sent SOLUTION_SUCCESS new = 2.
Proof.
  intros st A V. unfold processScreenshots.
  assert (exists w, mainWindow st = Some w) as [w Hw].
  { unfold windowAlive in A. destruct (mainWindow st); [eauto|discriminate]. }
  rewrite Hw. destruct (ensureClient_frame st) as (b & o & g & a & E). rewrite E.
  destruct b; cbn [negb].
  - change (view (setClients o g a st)) with (view st). rewrite V. intro H.
    destruct (processMainQueue_success (setClients o g a st) A V H)
      as (before & data & Ht & Hb).
    exists before, data. cbn zeta. split; [exact Ht|]. split; [exact Hb|].
    sent_solve. rewrite Hb. reflexivity.
  - rewrite sendProcessingEvent_alive by exact A. intro H.
    change (view st = solutions) in H. congruence.
Qed.

End Flows.

(** C4: the code at the failing input. An error that names the third
    provider is sent as INITIAL_SOLUTION_ERROR, where the same error of the
    first provider is sent as API_KEY_INVALID; so is, over a whole flow, the
    rate-limit error of the third provider against that of the first. *)
Theorem anthropic_errors_stay_generic :
  let error := js "Anthropic API key not configured. Please check your settings." in
  let sibling := js "OpenAI API key not configured. Please check your settings." in
  includes (js "Anthropic") error = true /\
  includes (js "Claude")
    (js "Claude API rate limit exceeded. Please wait a few minutes before trying again.")
  = true /\
  trace (handleMainResult (Failure error) queueSession)
  = [Send INITIAL_SOLUTION_ERROR (Text error); SetView queue] /\
  trace (handleMainResult (Failure sibling) queueSession)
  = [Send API_KEY_INVALID NoPayload; SetView queue] /\
  (let tr := trace (processScreenshots (rateLimitedWorld anthropic) queueSession) in
   In (Send INITIAL_SOLUTION_ERROR
         (Text (js "Claude API rate limit exceeded. Please wait a few minutes before trying again."))) tr /\
   sent API_KEY_INVALID tr = 0) /\
  (let tr := trace (processScreenshots (rateLimitedWorld openai) queueSession) in
   sent INITIAL_SOLUTION_ERROR tr = 0 /\ sent API_KEY_INVALID tr = 1).
Proof.
  vm_compute. repeat split; auto 10.
Qed.

(** ** The adapters *)

Section Adapters.

Variable W : World.

(** When the first choice, candidate part or content block is there and
    its text is null, undefined or empty, every adapter answers
    "No response content". *)
Lemma callAIModel_empty_first_text prompt images modelType st :
  (apiProvider (loadConfig W) = openai -> openaiClient st <> None ->
   forall c rest,
     (c = None \/ c = Some []) ->
     (forall request, openaiCreate W request = inl (mkOpenAIResponse (c :: rest))) ->
     fst (callAIModel W prompt images modelType st)
     = Failure (js "No response content")) /\
  (apiProvider (loadConfig W) = gemini -> geminiApiKey st <> None ->
   forall parts rest,
     (forall request,
        geminiPost W request = inl (mkGeminiResponse (([] :: parts) :: rest))) ->
     fst (callAIModel W prompt images modelType st)
     = Failure (js "No response content")) /\
  (apiProvider (loadConfig W) = anthropic -> anthropicClient st <> None ->
   forall c rest,
     (c = None \/ c = Some []) ->
     (forall request, anthropicCreate W request = inl (mkAnthropicResponse (c :: rest))) ->
     fst (callAIModel W prompt images modelType st)
     = Failure (js "No response content")).
Proof.
  unfold callAIModel, updateProcessingStatus. cbv zeta. repeat split.
  - intros -> Hc c rest Hnull Hv.
    destruct modelType, (windowAlive st);
      cbn [emit withTrace openaiClient];
      (destruct (openaiClient st); [|contradiction]);
      rewrite Hv; cbn [choices fst]; now destruct Hnull as [->| ->].
  - intros -> Hc parts rest Hv.
    destruct modelType, (windowAlive st);
      cbn [emit withTrace geminiApiKey];
      (destruct (geminiApiKey st); [|contradiction]);
      rewrite Hv; reflexivity.
  - intros -> Hc c rest Hnull Hv.
    destruct modelType, (windowAlive st);
      cbn [emit withTrace anthropicClient];
      (destruct (anthropicClient st); [|contradiction]);
      rewrite Hv; cbn [content fst]; now destruct Hnull as [->| ->].
Qed.

End Adapters.

(** C5: the code at the failing input. A response with no choice, candidate
    or content block at all makes each adapter fail with the message of the
    TypeError it runs into, not with "No response content"; the message is
    there when the first entry exists and its text is empty. *)
Theorem empty_answers_fail_with_type_errors :
  let prompt := js "p" in
  fst (callAIModel (emptyAnswerWorld gemini) prompt [] solution
                   (readySession (emptyAnswerWorld gemini)))
  = Failure (js "Cannot read properties of undefined (reading 'content')") /\
  fst (callAIModel (emptyAnswerWorld openai) prompt [] solution
                   (readySession (emptyAnswerWorld openai)))
  = Failure (js "Cannot read properties of undefined (reading 'message')") /\
  fst (callAIModel (emptyAnswerWorld anthropic) prompt [] solution
                   (readySession (emptyAnswerWorld anthropic)))
  = Failure (js "Cannot read properties of undefined (reading 'text')") /\
  js "Cannot read properties of undefined (reading 'content')"
  <> js "No response content" /\
  js "Cannot read properties of undefined (reading 'message')"
  <> js "No response content" /\
  js "Cannot read properties of undefined (reading 'text')"
  <> js "No response content" /\
  contentResult (Some []) = Failure (js "No response content") /\
  contentResult None = Failure (js "No response content").
Proof.
  vm_compute. repeat split; discriminate.
Qed.

(** Counterexample to C6 as stated: the payload of a successful debug run
    does not carry the constant "N/A". *)
Lemma debug_payload_complexity_is_not_NA :
  exists data st',
    processExtraScreenshotsHelper answeringWorld [js "base64"] solutionsSession
    = (Success data, st') /\
    debug_time_complexity data <> js "N/A" /\
    debug_space_complexity data <> js "N/A".
Proof.
  eexists _, _. split; [vm_compute; reflexivity|]. split; discriminate.
Qed.

(** Counterexample to C3 as stated: with no API key in the configuration
    and no client, a run on an empty queue stops at the client guard (lines
    190-194, before the queue is looked at) and sends API_KEY_INVALID, not
    NO_SCREENSHOTS; and nothing at all is sent to a destroyed window. *)
Lemma empty_queue_without_client_sends_API_KEY_INVALID :
  relevantQueue emptySession = [] /\
  windowAlive emptySession = true /\
  clientAvailable keylessWorld emptySession = false /\
  trace (processScreenshots keylessWorld emptySession)
  = [Send API_KEY_INVALID NoPayload] /\
  sent NO_SCREENSHOTS (trace (processScreenshots keylessWorld emptySession)) = 0 /\
  (forall path, In path (relevantQueue closedSession) ->
                existsSync missingFilesWorld path = false) /\
  trace (processScreenshots missingFilesWorld closedSession) = [].
Proof. vm_compute. repeat split; reflexivity. Qed.

(** Counterexample to C10 as stated: with a destroyed window (line 159
    tests the window for null only) the main flow succeeds, with two vendor
    calls and the view set to solutions, and SOLUTION_SUCCESS is not sent
    once (line 833 drops it). *)
Lemma destroyed_window_success_sends_no_SOLUTION_SUCCESS :
  let st' := processScreenshots answeringWorld closedSession in
  windowAlive closedSession = false /\
  view closedSession = queue /\
  view st' = solutions /\
  providerCalls (trace st') = 2 /\
  sent SOLUTION_SUCCESS (trace st') = 0.
Proof. vm_compute. repeat split; reflexivity. Qed.

Lemma empty_or_missing_screenshots_stop_the_flow_witness :
  exists new : list Effect,
    trace (processScreenshots missingFilesWorld queueSession)
    = trace queueSession ++ new /\
    providerCalls new = 0 /\
    new = [Send INITIAL_START NoPayload; Send NO_SCREENSHOTS NoPayload] /\
    sent NO_SCREENSHOTS new = 1.
Proof.
  destruct (empty_or_missing_screenshots_stop_the_flow missingFilesWorld queueSession)
    as (new & Ht & Hp & Hn).
  - right. intros path _. reflexivity.
  - exists new. split; [exact Ht|]. split; [exact Hp|].
    apply Hn; reflexivity.
Defined.

Lemma debug_payload_complexity_constant_witness :
  exists data st',
    processExtraScreenshotsHelper answeringWorld [js "base64"] solutionsSession
    = (Success data, st') /\
    debug_time_complexity data = js "N/A - Debug mode" /\
    debug_space_complexity data = js "N/A - Debug mode".
Proof.
  eexists _, _. split; [vm_compute; reflexivity|].
  eapply (debug_payload_complexity_constant answeringWorld [js "base64"] solutionsSession).
  vm_compute; reflexivity.
Defined.

Lemma solution_success_sent_twice_witness :
  exists (before : list Effect) (data : SolutionPayload),
    let new :=
      before ++
      [ClearExtraScreenshotQueue;
       Status (js "Solution generated successfully") 100;
       Send SOLUTION_SUCCESS (Solution data);
       Send SOLUTION_SUCCESS (Solution data);
       SetView solutions] in
    trace (processScreenshots answeringWorld queueSession)
    = trace queueSession ++ new /\
    sent SOLUTION_SUCCESS before = 0 /\
    sent SOLUTION_SUCCESS new = 2.
Proof.
  apply (solution_success_sent_twice answeringWorld queueSession).
  - reflexivity.
  - reflexivity.
  - vm_compute; reflexivity.
Defined.

Lemma debug_needs_problem_info_witness :
  processExtraScreenshotsHelper answeringWorld [js "base64"] queueSession
  = (Failure (js "No problem info available"), queueSession) /\
  problemInfo solutionsSession <> None.
Proof.
  split.
  - apply (debug_needs_problem_info answeringWorld [js "base64"] queueSession).
    reflexivity.
  - eapply (debug_needs_problem_info answeringWorld [js "base64"] solutionsSession).
    vm_compute; reflexivity.
Defined.

Lemma complexity_default_prefix_and_reformat_witness :
  let text := js "Time complexity: linear" ++ [LF] ++ js "Space complexity: O(1) constant"
                 ++ [LF] ++ js "Done" in
  time_complexity (parseSolution text) = js "O(n) - linear" /\
  includes (js "O(") (time_complexity (parseSolution text)) = true /\
  space_complexity (parseSolution text) = js "O(1) - constant".
Proof.
  intro text.
  pose proof (complexity_default_prefix_and_reformat text (js "linear")) as [Ht _].
  pose proof (complexity_default_prefix_and_reformat text (js "O(1) constant")) as [_ Hs].
  destruct (Ht ltac:(vm_compute; reflexivity)) as [Hd _].
  destruct (Hs ltac:(vm_compute; reflexivity)) as [_ Hr].
  destruct (Hd ltac:(vm_compute; reflexivity)) as [H1 H2].
  split; [exact H1|]. split; [exact H2|].
  exact (Hr (js "O(1)") ltac:(vm_compute; reflexivity) ltac:(vm_compute; reflexivity)
            ltac:(vm_compute; reflexivity)).
Defined.

Lemma cancelOngoingRequests_clears_and_notifies_once_witness :
  let st :=
    setExtraProcessingController (Some (mkAbortController false))
      (setProcessingController (Some (mkAbortController false)) solutionsSession) in
  hasDebugged (cancelOngoingRequests st) = false /\
  problemInfo (cancelOngoingRequests st) = None /\
  sent NO_SCREENSHOTS (trace (cancelOngoingRequests st)) = 1.
Proof.
  intro st.
  destruct (cancelOngoingRequests_clears_and_notifies_once st)
    as (Hd & Hp & _ & _ & new & Ht & _).
  split; [exact Hd|]. split; [exact Hp|]. vm_compute; reflexivity.
Defined.

Lemma extractCode_first_block_or_raw_text_witness :
  let text := js "```python" ++ [LF] ++ js "print(1)" ++ [LF] ++ fence in
  firstFencedBlock text
  = Some (mkFencedBlock (js "python") ([LF] ++ js "print(1)" ++ [LF])) /\
  code (parseSolution text) = js "print(1)".
Proof.
  intro text.
  assert (E : firstFencedBlock text
              = Some (mkFencedBlock (js "python") ([LF] ++ js "print(1)" ++ [LF])))
    by (vm_compute; reflexivity).
  split; [exact E|].
  pose proof (extractCode_first_block_or_raw_text text) as H.
  rewrite E in H. exact (H eq_refl).
Defined.

Lemma thoughts_never_empty_witness :
  thoughts (parseSolution (js "no heading here"))
  = [js "Solution approach based on efficiency and readability"].
Proof.
  destruct (thoughts_never_empty (js "no heading here")) as (_ & _ & H & _).
  apply H. vm_compute; reflexivity.
Defined.

(** * Further properties *)

(** ** More on the parsers *)

Lemma dropWhile_idem (P : N -> bool) (s : jsstring) :
  dropWhile P (dropWhile P s) = dropWhile P s.
Proof.
  induction s as [|x s IH]; [reflexivity|].
  cbn [dropWhile]. destruct (P x) eqn:Px; [exact IH|].
  cbn [dropWhile]. now rewrite Px.
Qed.

Lemma dropWhile_head (P : N -> bool) (s : jsstring) :
  match dropWhile P s with
  | x :: _ => P x = false
  | [] => True
  end.
Proof.
  induction s as [|x s IH]; [exact I|].
  cbn [dropWhile]. destruct (P x) eqn:Px; [exact IH|exact Px].
Qed.

Lemma trimEnd_idem (s : jsstring) : trimEnd (trimEnd s) = trimEnd s.
Proof.
  unfold trimEnd, trimStart. rewrite rev_involutive. now rewrite dropWhile_idem.
Qed.

Lemma trimStart_trimEnd (s : jsstring) :
  trimStart s = s -> trimStart (trimEnd s) = trimEnd s.
Proof.
  intro H. destruct (trimEnd_split s) as [w [E _]].
  destruct (trimEnd s) as [|x r]; [reflexivity|].
  unfold trimStart in *. cbn [dropWhile].
  assert (Hx := dropWhile_head isWhiteSpace s). rewrite H, E in Hx.
  cbn [app] in Hx. now rewrite Hx.
Qed.

(** [trim] is idempotent: a trimmed string has no white space at its ends. *)
Lemma trim_idem (s : jsstring) : trim (trim s) = trim s.
Proof.
  unfold trim.
  rewrite (trimStart_trimEnd (trimStart s)) by apply dropWhile_idem.
  apply trimEnd_idem.
Qed.

Lemma extractThoughts_entries (text t : jsstring) :
  In t (extractThoughts text) -> t <> [] /\ trim t = t.
Proof.
  unfold extractThoughts.
  destruct (exec thoughtsRegex text) as [m|]; [|contradiction].
  destruct (group1 m) as [[|x span]|]; try contradiction.
  destruct (matchAll bulletRegex (x :: span)) as [points|]; intro H;
    apply filter_In in H as [H Ht]; apply in_map_iff in H as [y [<- _]];
    (split; [intro E; rewrite E in Ht; discriminate|apply trim_idem]).
Qed.

(** X1. Every thought of a solution payload is a non-empty string without
    white space at either end. *)
Theorem thoughts_are_trimmed_and_non_empty :
  forall text t : jsstring,
    In t (thoughts (parseSolution text)) -> t <> [] /\ trim t = t.
Proof.
  intros text t. cbn [parseSolution thoughts].
  destruct (extractThoughts text) as [|t0 ts] eqn:E.
  - intros [<-|[]]. split; [discriminate|vm_compute; reflexivity].
  - rewrite <- E. apply extractThoughts_entries.
Qed.

(** *** A complexity field always carries a Big-O token *)

Lemma search_matched (n0 : nat) (r : regex) :
  forall s pre m,
    search n0 r pre s = Some m ->
    exists t,
      matchAt n0 r t = Some (after m, group1 m)
      /\ matched m = firstn (length t - length (after m)) t.
Proof.
  induction s as [|x s IH]; intros pre m H; rewrite search_eq in H.
  - destruct (matchAt n0 r []) as [[s' c]|] eqn:E; [|discriminate].
    injection H as <-. now exists [].
  - destruct (matchAt n0 r (x :: s)) as [[s' c]|] eqn:E.
    + injection H as <-. now exists (x :: s).
    + now apply IH in H.
Qed.

Lemma test_notationAt (s : jsstring) :
  notationAt s <> None -> test notationRegex s = true.
Proof.
  unfold test, exec. rewrite search_eq, matchAt_notationRegex.
  destruct (notationAt s) as [[s' c]|]; [reflexivity|contradiction].
Qed.

Lemma dropWhile_notParen_run (w : jsstring) (y : N) (z : jsstring) :
  forallb notParen w = true -> notParen y = false ->
  dropWhile notParen (w ++ y :: z) = y :: z.
Proof.
  intros Hw Hy. induction w as [|a w IH]; cbn [app dropWhile forallb] in *.
  - now rewrite Hy.
  - apply andb_prop in Hw as [Ha Hw]. rewrite Ha. auto.
Qed.

(** A match of the notation pattern is again matched in front of any text. *)
Lemma notationAt_matched (t a : jsstring) (c : capture) (z : jsstring) :
  notationAt t = Some (a, c) ->
  notationAt (firstn (length t - length a) t ++ z) <> None.
Proof.
  destruct t as [|o [|l [|x s3]]]; try discriminate. cbn [notationAt].
  destruct (canonicalize o =? _)%N eqn:Eo; [|discriminate].
  destruct (ch "(" =? l)%N eqn:El; [|discriminate].
  destruct (notParen x) eqn:Ex; [|discriminate].
  destruct (dropWhile_split notParen s3) as [w [E Hw]].
  assert (Hh := dropWhile_head notParen s3).
  destruct (dropWhile notParen s3) as [|y s5]; [discriminate|].
  destruct (ch ")" =? y)%N eqn:Ey; [|discriminate].
  intros [= <- _].
  replace (length (o :: l :: x :: s3) - length s5)
    with (S (S (S (length (w ++ [y])))))
    by (rewrite E at 1; cbn [length]; rewrite !length_app; cbn [length]; lia).
  rewrite E. cbn [firstn].
  replace (w ++ y :: s5) with ((w ++ [y]) ++ s5) by now rewrite <- app_assoc.
  rewrite firstn_app, Nat.sub_diag, firstn_all. cbn [firstn]. rewrite app_nil_r.
  cbn [app notationAt]. rewrite Eo, El, Ex, <- app_assoc. cbn [app].
  rewrite (dropWhile_notParen_run _ _ _ Hw Hh), Ey. discriminate.
Qed.

Lemma formatComplexity_has_notation (span : jsstring) :
  test notationRegex (formatComplexity span) = true.
Proof.
  unfold formatComplexity.
  destruct (test notationRegex (trim span)) eqn:T; cbn [negb].
  2:{ apply test_notationAt.
      change (js "O(n) - " ++ trim span)
        with (ch "O" :: ch "(" :: ch "n" :: ch ")" :: js " - " ++ trim span).
      cbn [notationAt]. vm_compute. discriminate. }
  destruct (negb (includes (js "-") (trim span))
            && negb (includes (js "because") (trim span))); [|exact T].
  unfold test in T |- *. destruct (exec notationRegex (trim span)) as [m|] eqn:E;
    [|discriminate].
  unfold exec in E. apply search_matched in E as [t [Ht Hm]].
  rewrite matchAt_notationRegex in Ht. rewrite Hm.
  set (rest := js " - " ++ _).
  assert (H := notationAt_matched t (after m) (group1 m) rest Ht).
  apply test_notationAt in H. unfold test in H. exact H.
Qed.

(** X2. Whatever the model wrote, the time and the space complexity of a
    solution payload contain a Big-O token: the pattern [/O\([^)]+\)/i]
    matches both fields. *)
Theorem complexity_fields_have_big_O :
  forall text : jsstring,
    test notationRegex (time_complexity (parseSolution text)) = true /\
    test notationRegex (space_complexity (parseSolution text)) = true.
Proof.
  intro text. cbn [parseSolution time_complexity space_complexity].
  unfold extractComplexity. split.
  - destruct (exec timeComplexityPattern text) as [m|]; [|vm_compute; reflexivity].
    destruct (group1 m) as [[|x span]|];
      [vm_compute; reflexivity|apply formatComplexity_has_notation
      |vm_compute; reflexivity].
  - destruct (exec spaceComplexityPattern text) as [m|]; [|vm_compute; reflexivity].
    destruct (group1 m) as [[|x span]|];
      [vm_compute; reflexivity|apply formatComplexity_has_notation
      |vm_compute; reflexivity].
Qed.

(** *** The debug parser *)

Lemma matchAll_non_empty (r : regex) (s : jsstring) (l : list jsstring) :
  matchAll r s = Some l -> l <> [].
Proof.
  unfold matchAll. destruct (matchesG r s) as [|m ms]; [discriminate|].
  intros [= <-]. discriminate.
Qed.

(** X3. The thoughts of a debug payload are at least one and at most five. *)
Theorem debug_thoughts_between_one_and_five :
  forall debugContent : jsstring,
    1 <= length (debug_thoughts (parseDebug debugContent)) <= 5.
Proof.
  intro c. cbn [parseDebug debug_thoughts]. unfold extractDebugThoughts.
  destruct (matchAll debugBulletRegex _) as [points|] eqn:E; [|cbn; lia].
  apply matchAll_non_empty in E. rewrite length_firstn, length_map.
  destruct points; [contradiction|cbn [length]; lia].
Qed.

Lemma isLetter_not_backtick (x : N) :
  isLetter x = true -> negb (x =? backtick)%N = true.
Proof. destruct (N.eqb_spec x backtick); [subst; discriminate|reflexivity]. Qed.

(** What [debugCodeRegex] matches at a position: the fence, the letters
    after it, and everything up to the next fence. *)
Lemma matchAt_debugCodeRegex (n0 : nat) (s : jsstring) :
  matchAt n0 debugCodeRegex s
  = if startsWith fence s
    then closeFence (dropWhile isLetter (skipn 3 s))
    else None.
Proof.
  unfold matchAt, debugCodeRegex, Cat; cbn [fold_right].
  rewrite mt_Seq, mt_Str. destruct (startsWith fence s); [|reflexivity].
  change (length fence) with 3.
  rewrite mt_Seq, mt_opt_plus_class.
  rewrite greedyClass_ext with (k2 := closeFence)
    by (intro s3; apply mt_code_body).
  rewrite (greedyClass_dropWhile _ isLetter closeFence); [reflexivity|].
  intros x t Hx. apply closeFence_cons. now apply isLetter_not_backtick.
Qed.

Lemma search_debugCodeRegex_None (n0 : nat) :
  forall s pre,
    indexOf fence (skipn 3 s) = None -> search n0 debugCodeRegex pre s = None.
Proof.
  induction s as [|x s IH]; intros pre H; rewrite search_eq, matchAt_debugCodeRegex.
  - reflexivity.
  - unfold closeFence. rewrite (indexOf_None_dropWhile _ _ _ H).
    destruct (startsWith fence (x :: s)); apply IH;
      apply (indexOf_None_skipn fence 1) in H;
      now rewrite skipn_skipn in H.
Qed.

Lemma firstDebugBlock_cons (x : N) (s : jsstring) :
  startsWith fence (x :: s) = false ->
  firstDebugBlock (x :: s) = firstDebugBlock s.
Proof.
  intro H. unfold firstDebugBlock. rewrite indexOf_cons, H.
  destruct (indexOf fence s); reflexivity.
Qed.

Lemma search_debugCodeRegex (n0 : nat) :
  forall s pre,
    option_map group1 (search n0 debugCodeRegex pre s)
    = option_map Some (firstDebugBlock s).
Proof.
  induction s as [|x s IH]; intro pre; [reflexivity|].
  rewrite search_eq, matchAt_debugCodeRegex.
  destruct (startsWith fence (x :: s)) eqn:Sw.
  - unfold firstDebugBlock. rewrite indexOf_cons, Sw. cbn [Nat.add].
    unfold closeFence.
    destruct (indexOf fence (dropWhile isLetter (skipn 3 (x :: s)))) as [j|] eqn:Ej;
      [reflexivity|].
    rewrite search_debugCodeRegex_None; [reflexivity|].
    destruct (dropWhile_split isLetter (skipn 3 (x :: s))) as [w [E Hw]].
    assert (Hi := indexOf_fence_app w (dropWhile isLetter (skipn 3 (x :: s)))
                    (forallb_impl _ _ _ isLetter_not_backtick Hw)).
    rewrite <- E, Ej in Hi. cbn [option_map] in Hi.
    apply (indexOf_None_skipn fence 1) in Hi. now rewrite skipn_skipn in Hi.
  - rewrite (firstDebugBlock_cons _ _ Sw). apply IH.
Qed.

(** X4. The code of a debug payload is the trimmed content of the first
    fenced block of the raw text, where only letters count as the language
    tag; it is the placeholder comment when there is no such block or the
    block is empty. *)
Theorem debug_code_first_block_or_placeholder :
  forall debugContent : jsstring,
    debug_code (parseDebug debugContent)
    = match firstDebugBlock debugContent with
      | Some ((_ :: _) as block) => trim block
      | _ => js "// Debug mode - see analysis below"
      end.
Proof.
  intro text. cbn [parseDebug debug_code]. unfold extractDebugCode, exec.
  assert (H := search_debugCodeRegex (length text) text []).
  destruct (search (length text) debugCodeRegex [] text) as [m|],
           (firstDebugBlock text) as [block|]; try discriminate; [|reflexivity].
  injection H as ->. reflexivity.
Qed.

Lemma includes_app_r (p a b : jsstring) :
  includes p b = true -> includes p (a ++ b) = true.
Proof.
  intro H. induction a as [|x a IH]; [exact H|].
  cbn [app]. rewrite includes_cons, IH. apply orb_true_r.
Qed.

Lemma startsWith_app (p s t : jsstring) :
  startsWith p s = true -> startsWith p (s ++ t) = true.
Proof.
  revert s. induction p as [|a p IH]; intros s H; [reflexivity|].
  destruct s as [|b s]; [discriminate|]. cbn [app startsWith] in *.
  apply andb_prop in H as [-> H]. now rewrite IH.
Qed.

Lemma includes_startsWith (p s : jsstring) :
  startsWith p s = true -> includes p s = true.
Proof. intro H. unfold includes. destruct s; cbn [indexOf]; now rewrite H. Qed.

Lemma replaceRe_heading (r : regex) (rep s : jsstring) :
  startsWith (js "## ") rep = true ->
  replaceRe r rep s = s \/ includes (js "## ") (replaceRe r rep s) = true.
Proof.
  intro H. unfold replaceRe. destruct (exec r s) as [m|]; [right|now left].
  now apply includes_app_r, includes_startsWith, startsWith_app.
Qed.

Lemma formatDebugContent_changed (c : jsstring) :
  formatDebugContent c = c \/ includes (js "## ") (formatDebugContent c) = true.
Proof.
  unfold formatDebugContent.
  destruct (negb (includes (js "# ") c) && negb (includes (js "## ") c));
    [|now left].
  destruct (replaceRe_heading explanationRegex (js "## Explanation")
              (replaceRe optimizationsRegex (js "## Optimizations")
                 (replaceRe improvementsRegex (js "## Code Improvements")
                    (replaceRe issuesRegex (js "## Issues Identified") c)))
              eq_refl)
    as [->|H]; [|now right].
  destruct (replaceRe_heading optimizationsRegex (js "## Optimizations")
              (replaceRe improvementsRegex (js "## Code Improvements")
                 (replaceRe issuesRegex (js "## Issues Identified") c))
              eq_refl)
    as [->|H]; [|now right].
  destruct (replaceRe_heading improvementsRegex (js "## Code Improvements")
              (replaceRe issuesRegex (js "## Issues Identified") c) eq_refl)
    as [->|H]; [|now right].
  destruct (replaceRe_heading issuesRegex (js "## Issues Identified") c eq_refl)
    as [->|H]; [now left|now right].
Qed.

(** X5. Structuring the debug analysis is idempotent: the text either comes
    back as it was or comes back with a "## " heading in it, and a text with
    such a heading is left alone. *)
Theorem formatDebugContent_idempotent :
  forall debugContent : jsstring,
    (formatDebugContent debugContent = debugContent \/
     includes (js "## ") (formatDebugContent debugContent) = true) /\
    formatDebugContent (formatDebugContent debugContent)
    = formatDebugContent debugContent.
Proof.
  intro c. split; [apply formatDebugContent_changed|].
  destruct (formatDebugContent_changed c) as [E|H].
  - now rewrite !E.
  - unfold formatDebugContent at 1. rewrite H.
    now rewrite andb_false_r.
Qed.

Lemma thoughts_are_trimmed_and_non_empty_witness :
  js "use hashmap" <> [] /\ trim (js "use hashmap") = js "use hashmap".
Proof.
  apply (thoughts_are_trimmed_and_non_empty sampleSolutionText (js "use hashmap")).
  vm_compute. left; reflexivity.
Defined.

(** ** The fences around the extracted JSON (line 395) *)

Lemma stripFencesSkip_skipn :
  forall s k, stripFencesSkip k s = stripFences (skipn k s).
Proof.
  induction s as [|x s IH]; intro k.
  - now destruct k.
  - destruct k as [|k]; [reflexivity|]. cbn [stripFencesSkip skipn]. apply IH.
Qed.

Lemma stripFences_nil : stripFences [] = [].
Proof. reflexivity. Qed.

Lemma startsWith_app_l (p q : jsstring) :
  forall s, startsWith (p ++ q) s = true -> startsWith p s = true.
Proof.
  induction p as [|a p IH]; intros s H; [reflexivity|].
  destruct s as [|b s]; [discriminate|]. cbn [app startsWith] in *.
  apply andb_prop in H as [-> H]. now apply IH.
Qed.

Lemma startsWith_json_fence (s : jsstring) :
  startsWith (js "```json") s = true -> startsWith fence s = true.
Proof. apply (startsWith_app_l fence (js "json")). Qed.

Lemma startsWith_length (p s : jsstring) :
  startsWith p s = true -> length p <= length s.
Proof.
  revert s. induction p as [|a p IH]; intros s H; [cbn; lia|].
  destruct s as [|b s]; [discriminate|]. cbn [startsWith] in H.
  apply andb_prop in H as [_ H]. cbn [length]. apply IH in H. lia.
Qed.

Lemma stripFences_json (s : jsstring) :
  startsWith (js "```json") s = true -> stripFences s = stripFences (skipn 7 s).
Proof.
  intro H. destruct s as [|x s]; [discriminate|].
  unfold stripFences at 1. cbn [stripFencesSkip]. rewrite H.
  now rewrite stripFencesSkip_skipn.
Qed.

Lemma stripFences_fence (s : jsstring) :
  startsWith (js "```json") s = false -> startsWith fence s = true ->
  stripFences s = stripFences (skipn 3 s).
Proof.
  intros J H. destruct s as [|x s]; [discriminate|].
  unfold stripFences at 1. cbn [stripFencesSkip]. rewrite J, H.
  now rewrite stripFencesSkip_skipn.
Qed.

Lemma stripFences_keep (x : N) (s : jsstring) :
  startsWith fence (x :: s) = false ->
  stripFences (x :: s) = x :: stripFences s.
Proof.
  intro H. unfold stripFences at 1. cbn [stripFencesSkip]. rewrite H.
  destruct (startsWith (js "```json") (x :: s)) eqn:J; [|reflexivity].
  apply startsWith_json_fence in J. congruence.
Qed.

(** One step of the pattern at a position. *)
Lemma matchAt_jsonFenceRegex (n0 : nat) (s : jsstring) :
  matchAt n0 jsonFenceRegex s
  = if startsWith (js "```json") s then Some (skipn 7 s, None)
    else if startsWith fence s then Some (skipn 3 s, None)
    else None.
Proof.
  unfold matchAt, jsonFenceRegex. rewrite mt_Alt, !mt_Str.
  destruct (startsWith (js "```json") s); [reflexivity|].
  cbn [orElse]. destruct (startsWith fence s); reflexivity.
Qed.

Lemma search_before (n0 : nat) (r : regex) :
  forall s pre m,
    search n0 r pre s = Some m -> exists mid, before m = rev pre ++ mid.
Proof.
  induction s as [|x s IH]; intros pre m; rewrite search_eq;
    destruct (matchAt n0 r _) as [[s' c]|].
  - intros [= <-]. exists []. cbn [before]. now rewrite app_nil_r.
  - discriminate.
  - intros [= <-]. exists []. cbn [before]. now rewrite app_nil_r.
  - intro H. destruct (IH _ _ H) as (mid & ->). exists (x :: mid).
    cbn [rev]. now rewrite <- app_assoc.
Qed.

Lemma skipn_rev_app (pre mid : jsstring) :
  skipn (length pre) (rev pre ++ mid) = mid.
Proof.
  rewrite <- (length_rev pre), skipn_app, skipn_all, Nat.sub_diag. reflexivity.
Qed.

Section StripFences.

Variable n0 : nat.

Lemma replaceAllFrom_nil fuel pre :
  replaceAllFrom fuel n0 jsonFenceRegex [] pre [] = [].
Proof. destruct fuel; reflexivity. Qed.

Lemma replaceAllFrom_drop fuel pre s k :
  matchAt n0 jsonFenceRegex s = Some (skipn k s, None) ->
  0 < k <= length s ->
  replaceAllFrom (S fuel) n0 jsonFenceRegex [] pre s
  = replaceAllFrom fuel n0 jsonFenceRegex [] (rev (rev pre ++ firstn k s)) (skipn k s).
Proof.
  intros M K. cbn [replaceAllFrom]. rewrite search_eq, M.
  cbn [before matched after]. rewrite length_skipn.
  replace (length s - (length s - k)) with k by lia.
  rewrite <- (app_nil_r (rev pre)) at 1. rewrite skipn_rev_app. cbn [app].
  destruct s as [|x s]; [cbn in K; lia|]. destruct k as [|k]; [lia|].
  cbn [firstn]. reflexivity.
Qed.

Lemma replaceAllFrom_keep fuel pre x s :
  matchAt n0 jsonFenceRegex (x :: s) = None ->
  replaceAllFrom (S fuel) n0 jsonFenceRegex [] pre (x :: s)
  = x :: replaceAllFrom (S fuel) n0 jsonFenceRegex [] (x :: pre) s.
Proof.
  intro M. cbn [replaceAllFrom]. rewrite (search_eq n0 _ pre (x :: s)), M.
  destruct (search n0 jsonFenceRegex (x :: pre) s) as [m|] eqn:E; [|reflexivity].
  destruct (search_before _ _ _ _ _ E) as (mid & B).
  assert (B1 : skipn (length pre) (before m) = x :: mid).
  { rewrite B. cbn [rev]. rewrite <- app_assoc. apply skipn_rev_app. }
  assert (B2 : skipn (length (x :: pre)) (before m) = mid).
  { rewrite B. apply skipn_rev_app. }
  rewrite B1, B2. reflexivity.
Qed.

(** The pattern run by the matcher does what the plain pass does. *)
Lemma replaceAllFrom_stripFences :
  forall n s, length s <= n ->
  forall fuel pre, length s < fuel ->
    replaceAllFrom fuel n0 jsonFenceRegex [] pre s = stripFences s.
Proof.
  induction n as [|n IH]; intros s L fuel pre F.
  { destruct s; [|cbn in L; lia]. apply replaceAllFrom_nil. }
  destruct s as [|x s]; [apply replaceAllFrom_nil|].
  destruct fuel as [|fuel]; [lia|].
  pose proof (matchAt_jsonFenceRegex n0 (x :: s)) as M.
  destruct (startsWith (js "```json") (x :: s)) eqn:J.
  - pose proof (startsWith_length _ _ J) as Len. change (length (js "```json")) with 7 in Len.
    rewrite (replaceAllFrom_drop _ _ _ 7 M) by lia.
    rewrite (stripFences_json _ J). apply IH; rewrite length_skipn; cbn [length] in *; lia.
  - destruct (startsWith fence (x :: s)) eqn:H.
    + pose proof (startsWith_length _ _ H) as Len. change (length fence) with 3 in Len.
      rewrite (replaceAllFrom_drop _ _ _ 3 M) by lia.
      rewrite (stripFences_fence _ J H).
      apply IH; rewrite length_skipn; cbn [length] in *; lia.
    + rewrite (replaceAllFrom_keep _ _ _ _ M), (stripFences_keep _ _ H).
      f_equal. apply IH; cbn [length] in *; lia.
Qed.

End StripFences.

Lemma replaceAllRe_stripFences (s : jsstring) :
  replaceAllRe jsonFenceRegex [] s = stripFences s.
Proof.
  unfold replaceAllRe. apply (replaceAllFrom_stripFences _ (length s)); lia.
Qed.

Lemma stripFences_no_fence :
  forall s, indexOf fence s = None -> stripFences s = s.
Proof.
  induction s as [|x s IH]; intro H; [reflexivity|].
  rewrite stripFences_keep by (now apply indexOf_None_startsWith).
  f_equal. apply IH, (indexOf_None_tail _ _ _ H).
Qed.

Lemma stripFences_closing :
  forall body, indexOf fence body = None -> stripFences (body ++ fence) = body.
Proof.
  induction body as [|x b IH]; intro H; [reflexivity|].
  destruct (startsWith fence ((x :: b) ++ fence)) eqn:S.
  - pose proof (indexOf_None_startsWith _ _ H) as N.
    destruct b as [|y [|z b]].
    + change fence with [backtick; backtick; backtick] in S.
      cbn [app startsWith] in S. apply andb_prop in S as [X _].
      apply N.eqb_eq in X. subst x. reflexivity.
    + change fence with [backtick; backtick; backtick] in S.
      cbn [app startsWith] in S. apply andb_prop in S as [X S].
      apply andb_prop in S as [Y _].
      apply N.eqb_eq in X. apply N.eqb_eq in Y. subst x y. reflexivity.
    + change fence with [backtick; backtick; backtick] in S, N.
      cbn [app startsWith] in S, N. congruence.
  - cbn [app] in *. rewrite stripFences_keep by exact S.
    f_equal. apply IH, (indexOf_None_tail _ _ _ H).
Qed.

Lemma stripFences_lead1 (t : jsstring) :
  startsWith [backtick] t = false -> startsWith [backtick] (stripFences t) = false.
Proof.
  destruct t as [|y u]; [reflexivity|]. cbn [startsWith]. intro H.
  rewrite andb_true_r in H. rewrite stripFences_keep.
  - cbn [startsWith]. now rewrite H.
  - change fence with [backtick; backtick; backtick]. cbn [startsWith]. now rewrite H.
Qed.

Lemma stripFences_lead2 (s : jsstring) :
  startsWith [backtick; backtick] s = false ->
  startsWith [backtick; backtick] (stripFences s) = false.
Proof.
  destruct s as [|x t]; [reflexivity|]. intro H.
  assert (F : startsWith fence (x :: t) = false).
  { change fence with [backtick; backtick; backtick].
    cbn [startsWith] in *. destruct (backtick =? x)%N; [|reflexivity].
    destruct t as [|y u]; [reflexivity|]. cbn [startsWith andb] in *.
    destruct (backtick =? y)%N; [discriminate H|reflexivity]. }
  rewrite (stripFences_keep _ _ F). cbn [startsWith] in *.
  destruct (backtick =? x)%N; [|reflexivity]. cbn [andb] in *.
  now apply stripFences_lead1.
Qed.

Lemma stripFences_clean :
  forall n s, length s <= n -> includes fence (stripFences s) = false.
Proof.
  induction n as [|n IH]; intros s L.
  { destruct s; [reflexivity|cbn in L; lia]. }
  destruct s as [|x t]; [reflexivity|].
  destruct (startsWith (js "```json") (x :: t)) eqn:J.
  { rewrite (stripFences_json _ J). apply IH. rewrite length_skipn.
    cbn [length] in *. lia. }
  destruct (startsWith fence (x :: t)) eqn:F.
  { rewrite (stripFences_fence _ J F). apply IH. rewrite length_skipn.
    cbn [length] in *. lia. }
  rewrite (stripFences_keep _ _ F), includes_cons.
  rewrite (IH t) by (cbn [length] in L; lia). rewrite orb_false_r.
  change fence with [backtick; backtick; backtick] in *.
  cbn [startsWith] in *. destruct (backtick =? x)%N; [|reflexivity].
  cbn [andb] in *. now apply stripFences_lead2.
Qed.

(** X16. The text handed to [JSON.parse] (line 395) holds no fence: every
    [```json] and every other [```] is gone. A text without a fence is
    only trimmed, and a text that is one fenced block tagged [json] gives
    the trimmed body of the block. *)
Theorem jsonText_is_stripped_of_fences :
  forall content : jsstring,
    let jsonText := trim (replaceAllRe jsonFenceRegex [] content) in
    includes fence jsonText = false /\
    (indexOf fence content = None -> jsonText = trim content) /\
    (forall body,
       indexOf fence body = None ->
       content = js "```json" ++ body ++ fence ->
       jsonText = trim body).
Proof.
  intro content. cbv zeta. rewrite replaceAllRe_stripFences.
  split; [|split].
  - rewrite (includes_trim fence); [apply (stripFences_clean (length content)); lia
                                   |discriminate|reflexivity].
  - intro H. now rewrite stripFences_no_fence.
  - intros body H ->. rewrite stripFences_json by reflexivity.
    change (skipn 7 (js "```json" ++ body ++ fence)) with (body ++ fence).
    now rewrite stripFences_closing.
Qed.

Lemma jsonText_is_stripped_of_fences_witness :
  trim (replaceAllRe jsonFenceRegex [] sampleExtractionText) = sampleJson.
Proof.
  destruct (jsonText_is_stripped_of_fences sampleExtractionText) as (_ & _ & H).
  rewrite (H ([LF] ++ sampleJson ++ [LF])); vm_compute; reflexivity.
Defined.

(** ** More on the adapters *)

Lemma orDefault_non_empty (a b : jsstring) : b <> [] -> orDefault a b <> [].
Proof. unfold orDefault. destruct a; cbn [truthy]; [auto|discriminate]. Qed.

Lemma contentResult_success (o : option jsstring) (c : jsstring) :
  contentResult o = Success c -> c <> [].
Proof.
  destruct o as [[|x l]|]; cbn [contentResult]; try discriminate.
  intros [= <-]. discriminate.
Qed.

Section AdapterCalls.

Variable W : World.

(** What one call of [callAIModel] does, case by case. *)
Lemma callAIModel_calls prompt images modelType st :
  exists r new,
    callAIModel W prompt images modelType st = (r, withTrace (trace st ++ new) st)
    /\ forallb isQuiet new = true
    /\ match configuredClient W st with
       | Some _ =>
           exists request,
             requestsOf new = [request]
             /\ req_provider request = apiProvider (loadConfig W)
             /\ req_prompt request = prompt
             /\ req_images request = images
             /\ req_model request <> []
       | None => requestsOf new = [] /\ exists error, r = Failure error
       end
    /\ (forall c, r = Success c -> c <> []).
Proof.
  destruct st as [w v p h q xq oc gk ac pc ec tr].
  unfold callAIModel, updateProcessingStatus, configuredClient.
  destruct modelType;
    (destruct (windowAlive _) eqn:A);
    (destruct (apiProvider (loadConfig W)));
    run;
    lazymatch goal with
    | |- context [openaiCreate W _] =>
        destruct oc; [destruct (openaiCreate W _) as [[[|? ?]]|]|]
    | |- context [geminiPost W _] =>
        destruct gk; [destruct (geminiPost W _) as [[[|[|? ?] ?]]|]|]
    | |- context [anthropicCreate W _] =>
        destruct ac; [destruct (anthropicCreate W _) as [[[|? ?]]|]|]
    | _ => idtac
    end;
    run; eexists;
    first [ exists []; rewrite app_nil_r; split; [reflexivity|]
          | eexists; split; [reflexivity|] ];
    (split; [reflexivity|]);
    (split; [first [ split; [reflexivity|eexists; reflexivity]
                   | eexists; split; [reflexivity|];
                     repeat (split; [reflexivity|]);
                     cbn [req_model]; apply orDefault_non_empty; discriminate ]|]);
    intros c0 Hc; first [ discriminate Hc | now apply contentResult_success in Hc ].
Qed.

End AdapterCalls.

Lemma eventsOf_app a b : eventsOf (a ++ b) = eventsOf a ++ eventsOf b.
Proof. apply flat_map_app. Qed.

Lemma requestsOf_app a b : requestsOf (a ++ b) = requestsOf a ++ requestsOf b.
Proof. apply flat_map_app. Qed.

Lemma eventsOf_cons e l :
  eventsOf (e :: l) = match e with Send k _ => [k] | _ => [] end ++ eventsOf l.
Proof. reflexivity. Qed.

Lemma requestsOf_cons e l :
  requestsOf (e :: l) = match e with ProviderCall r => [r] | _ => [] end ++ requestsOf l.
Proof. reflexivity. Qed.

Lemma eventsOf_nil : eventsOf [] = [].
Proof. reflexivity. Qed.

Lemma requestsOf_nil : requestsOf [] = [].
Proof. reflexivity. Qed.

Ltac flow_solve :=
  repeat (rewrite eventsOf_app || rewrite eventsOf_cons || rewrite eventsOf_nil
          || rewrite requestsOf_app || rewrite requestsOf_cons
          || rewrite requestsOf_nil);
  cbn [app]; rewrite ?app_nil_r.

Lemma eventsOf_quiet new : forallb isQuiet new = true -> eventsOf new = [].
Proof.
  induction new as [|e new IH]; cbn [forallb]; [reflexivity|].
  intro H; apply andb_prop in H as [He Hn].
  destruct e; try discriminate; cbn; auto.
Qed.

Lemma requestsWithin_silent imgs p new :
  requestsOf new = [] -> requestsWithin imgs p new.
Proof.
  intro E. unfold requestsWithin. rewrite E. cbn. split; [lia|]. split; [constructor|reflexivity].
Qed.

Lemma requestsWithin_same imgs p new all :
  requestsWithin imgs p new -> requestsOf all = requestsOf new ->
  requestsWithin imgs p all.
Proof. unfold requestsWithin. now intros H ->. Qed.

Lemma requestsWithin_more a b p new :
  requestsWithin [a] p new -> requestsWithin [a; b] p new.
Proof.
  unfold requestsWithin. destruct (requestsOf new) as [|r [|r' rs]]; cbn;
    intros (L & F & I); (split; [lia|]); (split; [exact F|]); [reflexivity|exact I|lia].
Qed.

Lemma requestsWithin_two a b p first second all :
  requestsWithin [a] p first -> length (requestsOf first) = 1 ->
  requestsWithin [b] p second ->
  requestsOf all = requestsOf first ++ requestsOf second ->
  requestsWithin [a; b] p all.
Proof.
  unfold requestsWithin. intros (L1 & F1 & I1) L (L2 & F2 & I2) ->.
  destruct (requestsOf first) as [|r1 [|r1' rs]]; try discriminate L.
  destruct (requestsOf second) as [|r2 [|r2' rs]]; cbn in *;
    (split; [lia|]); (split; [auto|]); try congruence; try lia.
  - constructor; [now inversion F1|exact F2].
Qed.

Section HelperShapes.

Variable W : World.

Lemma callAIModel_requests prompt images modelType st :
  exists r new,
    callAIModel W prompt images modelType st = (r, withTrace (trace st ++ new) st)
    /\ forallb isQuiet new = true
    /\ requestsWithin [images] (apiProvider (loadConfig W)) new
    /\ (forall c, r = Success c -> c <> [] /\ length (requestsOf new) = 1).
Proof.
  destruct (callAIModel_calls W prompt images modelType st)
    as (r & new & E & Q & C & S).
  exists r, new. split; [exact E|]. split; [exact Q|].
  destruct (configuredClient W st).
  - destruct C as (request & R & P & _ & I & _). split.
    + unfold requestsWithin. rewrite R. cbn. split; [lia|].
      split; [constructor; [exact P|constructor]|now rewrite I].
    + intros c Hc. split; [now apply S|]. now rewrite R.
  - destruct C as (R & e & ->). split.
    + now apply requestsWithin_silent.
    + discriminate.
Qed.

(** The solution stage: the guard of line 489 never fires, since
    [callAIModel] does not succeed with an empty text. *)
Lemma generateSolutionsHelper_requests st :
  exists r new,
    generateSolutionsHelper W st = (r, withTrace (trace st ++ new) st)
    /\ forallb isQuiet new = true
    /\ requestsWithin [[]] (apiProvider (loadConfig W)) new
    /\ (forall data, r = Success data -> length (requestsOf new) = 1).
Proof.
  unfold generateSolutionsHelper. destruct (problemInfo st) as [p|].
  - destruct (callAIModel_requests (solutionPrompt p (getLanguage W st)) [] solution st)
      as (r & new & E & Q & R & S).
    rewrite E. destruct r as [c|e]; [destruct (negb (truthy c))|];
      eexists _, _; (split; [reflexivity|]); (split; [exact Q|]); (split; [exact R|]);
      intros data H; try discriminate H; apply (S c eq_refl).
  - eexists _, []. rewrite withTrace_nil. split; [reflexivity|].
    split; [reflexivity|]. split; [now apply requestsWithin_silent|discriminate].
Qed.

Lemma processExtraScreenshotsHelper_requests screenshots st :
  exists r new,
    processExtraScreenshotsHelper W screenshots st
    = (r, withTrace (trace st ++ new) st)
    /\ eventsOf new = []
    /\ requestsWithin [screenshots] (apiProvider (loadConfig W)) new
    /\ (forall data, r = Success data ->
        length (requestsOf new) = 1 /\ problemInfo st <> None).
Proof.
  unfold processExtraScreenshotsHelper. destruct (problemInfo st) as [p|] eqn:P.
  2:{ eexists _, []. rewrite withTrace_nil. split; [reflexivity|].
      split; [reflexivity|]. split; [now apply requestsWithin_silent|discriminate]. }
  match goal with |- context [callAIModel W ?a ?b ?c ?s] =>
    destruct (callAIModel_requests a b c s) as (r & new & E & Q & R & S); rewrite E
  end.
  clear E. pose proof (eventsOf_quiet _ Q) as Ev.
  assert (Hr : forall c, r = Success c -> truthy c = true).
  { intros c Hc. destruct (S c Hc) as [N _]. now destruct c. }
  clear P.
  destruct st as [w v p0 h q xq oc gk ac pc ec tr].
  destruct w as [[[|] i l]|]; run;
    (destruct r as [c|e]; [rewrite (Hr c eq_refl); cbn [negb]|]);
    run; eexists _, _; (split; [reflexivity|]);
    (split; [flow_solve; rewrite ?Ev; reflexivity|]);
    (split; [apply (requestsWithin_same _ _ _ _ R); flow_solve; reflexivity|]);
    intros data H; try discriminate H;
    (split; [flow_solve; apply (S c eq_refl)|discriminate]).
Qed.

(** What a run of [processScreenshotsHelper] leaves behind: only the
    problem info, the extra queue and the trace can differ. *)
Lemma processScreenshotsHelper_shape screenshots st :
  exists r pi xq new,
    processScreenshotsHelper W screenshots st
    = (r, mkState (mainWindow st) (view st) pi (hasDebugged st) (screenshotQueue st)
            xq (openaiClient st) (geminiApiKey st) (anthropicClient st)
            (currentProcessingAbortController st)
            (currentExtraProcessingAbortController st) (trace st ++ new))
    /\ requestsWithin [screenshots; []] (apiProvider (loadConfig W)) new
    /\ (windowAlive st = false -> eventsOf new = [])
    /\ match r with
       | Success _ =>
           (windowAlive st = true ->
            eventsOf new = [PROBLEM_EXTRACTED; SOLUTION_SUCCESS])
           /\ xq = [] /\ length (requestsOf new) = 2
       | Failure _ =>
           (eventsOf new = [] \/ eventsOf new = [PROBLEM_EXTRACTED])
           /\ xq = extraScreenshotQueue st
       end.
Proof.
  unfold processScreenshotsHelper.
  destruct (callAIModel_requests (extractionPrompt (getLanguage W st)) screenshots
              extraction st) as (r1 & new1 & E1 & Q1 & R1 & S1).
  rewrite E1. pose proof (eventsOf_quiet _ Q1) as Ev1. clear E1.
  destruct st as [w v p h q xq oc gk ac pc ec tr].
  destruct r1 as [c|e].
  2:{ eexists _, _, _, new1. split; [reflexivity|].
      split; [now apply requestsWithin_more|]. auto. }
  destruct (JSON_parse W _) as [msg|pi].
  { eexists _, _, _, new1. split; [reflexivity|].
    split; [now apply requestsWithin_more|]. auto. }
  destruct (S1 c eq_refl) as [_ L1].
  destruct w as [[d i l]|]; run.
  2:{ eexists _, _, _, _. split; [reflexivity|].
      split; [apply requestsWithin_more, (requestsWithin_same _ _ _ _ R1);
              flow_solve; reflexivity|].
      flow_solve. rewrite Ev1. repeat split; auto. }
  destruct d; run;
    match goal with |- context [generateSolutionsHelper W ?s] =>
      destruct (generateSolutionsHelper_requests s) as (r2 & new2 & E2 & Q2 & R2 & S2);
      rewrite E2; pose proof (eventsOf_quiet _ Q2) as Ev2
    end;
    (destruct r2 as [data|e]; [pose proof (S2 data eq_refl) as L2'|]; run;
     eexists _, _, _, _; (split; [reflexivity|]);
     (split; [apply (requestsWithin_two _ _ _ _ _ _ R1 L1 R2); flow_solve; reflexivity|]);
     flow_solve; rewrite ?length_app, ?Ev1, ?Ev2, ?L1; cbn [app];
     repeat split; auto; try discriminate; try lia).
Qed.

End HelperShapes.

(** ** The two flows, as the renderer sees them *)

Ltac run_flow :=
  lazy beta iota zeta delta
    [processMainQueue processExtraQueue processScreenshots handleMainResult
     sendProcessingEvent updateProcessingStatus windowAlive emit withTrace setView
     setProblemInfo setHasDebugged setProcessingController
     setExtraProcessingController clearExtraScreenshotQueue setClients
     mainWindow view problemInfo hasDebugged screenshotQueue extraScreenshotQueue
     openaiClient geminiApiKey anthropicClient currentProcessingAbortController
     currentExtraProcessingAbortController trace isDestroyed negb fst snd];
  rewrite <- ?app_assoc.

Section FlowShapes.

Variable W : World.

Lemma processExtraQueue_shape st :
  exists h ec new,
    processExtraQueue W st
    = mkState (mainWindow st) (view st) (problemInfo st) h (screenshotQueue st)
        (extraScreenshotQueue st) (openaiClient st) (geminiApiKey st)
        (anthropicClient st) (currentProcessingAbortController st) ec
        (trace st ++ new)
    /\ requestsWithin
         [loadExistingScreenshots W
            (screenshotQueue st ++ filter (existsSync W) (extraScreenshotQueue st))]
         (apiProvider (loadConfig W)) new
    /\ (ec = None \/ ec = currentExtraProcessingAbortController st /\ requestsOf new = [])
    /\ (windowAlive st = false -> eventsOf new = [])
    /\ (windowAlive st = true ->
        (eventsOf new = [NO_SCREENSHOTS] /\ h = hasDebugged st /\ requestsOf new = [])
        \/ (eventsOf new = [DEBUG_START; DEBUG_SUCCESS] /\ h = true
            /\ length (requestsOf new) = 1 /\ problemInfo st <> None)
        \/ (eventsOf new = [DEBUG_START; DEBUG_ERROR] /\ h = hasDebugged st)).
Proof.
  destruct st as [w v p h q xq oc gk ac pc ec tr]. unfold processExtraQueue.
  cbn [extraScreenshotQueue screenshotQueue].
  destruct xq as [|x0 xq'].
  { destruct w as [[[|] i l]|]; run; eexists _, _;
      first [ exists []; rewrite app_nil_r; split; [reflexivity|]
            | eexists; split; [reflexivity|] ];
      (split; [now apply requestsWithin_silent|]);
      flow_solve; repeat split; auto; try discriminate. }
  destruct (filter (existsSync W) (x0 :: xq')) as [|e0 ex].
  { destruct w as [[[|] i l]|]; run; eexists _, _;
      first [ exists []; rewrite app_nil_r; split; [reflexivity|]
            | eexists; split; [reflexivity|] ];
      (split; [now apply requestsWithin_silent|]);
      flow_solve; repeat split; auto; try discriminate. }
  remember (loadExistingScreenshots W (q ++ e0 :: ex)) as shots eqn:Ld.
  destruct w as [[[|] i l]|]; run; rewrite <- Ld; (destruct shots as [|d0 ds]; run).
  all: try match goal with |- context [processExtraScreenshotsHelper W ?a ?s] =>
      destruct (processExtraScreenshotsHelper_requests W a s)
        as (r & new & E & Ev & R & S);
      rewrite E; clear E;
      (destruct r as [data|e]; [destruct (S data eq_refl) as [L1 P]|]); run
    end.
  all: eexists _, _;
      first [ exists []; rewrite app_nil_r; split; [reflexivity|]
            | eexists; split; [reflexivity|] ].
  all: (split; [first [ apply (requestsWithin_same _ _ _ _ R); flow_solve; reflexivity
                      | now apply requestsWithin_silent ]|]).
  all: flow_solve; rewrite ?Ev; cbn [app].
  all: repeat split; auto; try discriminate.
  intros _. right; left. cbn [problemInfo] in P. auto.
Qed.

Lemma processMainQueue_shape st :
  exists v pi xq pc new,
    processMainQueue W st
    = mkState (mainWindow st) v pi (hasDebugged st) (screenshotQueue st)
        xq (openaiClient st) (geminiApiKey st) (anthropicClient st) pc
        (currentExtraProcessingAbortController st) (trace st ++ new)
    /\ requestsWithin
         [loadScreenshots W (filter (existsSync W) (screenshotQueue st)); []]
         (apiProvider (loadConfig W)) new
    /\ (pc = None \/ pc = currentProcessingAbortController st /\ requestsOf new = [])
    /\ (windowAlive st = false -> eventsOf new = [])
    /\ (windowAlive st = true ->
        (eventsOf new = [INITIAL_START; NO_SCREENSHOTS] /\ v = view st
         /\ pi = problemInfo st /\ xq = extraScreenshotQueue st
         /\ requestsOf new = [])
        \/ (exists failure,
              (failure = INITIAL_SOLUTION_ERROR \/ failure = API_KEY_INVALID)
              /\ (eventsOf new = [INITIAL_START; failure]
                  \/ eventsOf new = [INITIAL_START; PROBLEM_EXTRACTED; failure])
              /\ v = queue /\ xq = extraScreenshotQueue st)
        \/ (eventsOf new
            = [INITIAL_START; PROBLEM_EXTRACTED; SOLUTION_SUCCESS; SOLUTION_SUCCESS]
            /\ v = solutions /\ xq = [] /\ length (requestsOf new) = 2)).
Proof.
  destruct st as [w v p h q xq oc gk ac pc ec tr]. cbn [screenshotQueue].
  destruct q as [|s0 q'].
  { destruct w as [[[|] i l]|]; run_flow; eexists _, _, _, _;
      first [ exists []; rewrite app_nil_r; split; [reflexivity|]
            | eexists; split; [reflexivity|] ];
      (split; [now apply requestsWithin_silent|]);
      flow_solve; repeat split; auto 10; try discriminate. }
  destruct (filter (existsSync W) (s0 :: q')) as [|e0 ex] eqn:Ex.
  { destruct w as [[[|] i l]|]; run_flow; rewrite Ex; run_flow; eexists _, _, _, _;
      first [ exists []; rewrite app_nil_r; split; [reflexivity|]
            | eexists; split; [reflexivity|] ];
      (split; [now apply requestsWithin_silent|]);
      flow_solve; repeat split; auto 10; try discriminate. }
  destruct (loadScreenshots W (e0 :: ex)) as [|d0 ds] eqn:Ld.
  { destruct w as [[[|] i l]|]; run_flow; rewrite Ex; run_flow; rewrite Ld; run_flow;
      eexists _, _, _, _;
      first [ exists []; rewrite app_nil_r; split; [reflexivity|]
            | eexists; split; [reflexivity|] ];
      (split; [now apply requestsWithin_silent|]);
      flow_solve; repeat split; auto; try discriminate.
    intros _. right; left. exists INITIAL_SOLUTION_ERROR. auto. }
  destruct w as [[[|] i l]|]; run_flow; rewrite Ex; run_flow; rewrite Ld; run_flow;
    match goal with |- context [processScreenshotsHelper W ?a ?s] =>
      destruct (processScreenshotsHelper_shape W a s)
        as (r & pi & xq1 & new & E & R & Dead & Out);
      rewrite E; clear E
    end;
    (destruct r as [data|error];
     [destruct Out as (Ev & -> & L2)
     |destruct Out as (Ev & ->); run_flow; destruct (looksLikeApiKeyError error)]);
    run_flow; eexists _, _, _, _, _; (split; [reflexivity|]);
    (split; [apply (requestsWithin_same _ _ _ _ R); flow_solve; reflexivity|]);
    run_flow.
  all: lazy beta iota zeta delta [windowAlive mainWindow isDestroyed negb] in Dead, Ev.
  all: try specialize (Dead eq_refl); try specialize (Ev eq_refl).
  all: match goal with
    | Ev : _ \/ _ |- _ => destruct Ev as [Ev|Ev]
    | _ => idtac
    end.
  all: repeat match goal with
           | H : _ = _ -> _ |- _ => clear H
           end.
  all: flow_solve; rewrite ?length_app, ?Ev, ?Dead; cbn [app length].
  all: (split; [now left|]).
  all: (split; [intros A; try first [reflexivity|discriminate A]|]).
  all: try congruence.
  all: intros _;
    first [ right; right; repeat split; first [reflexivity|assumption]
          | right; left; exists INITIAL_SOLUTION_ERROR;
            (split; [now left|]); (split; [auto; fail|]); split; reflexivity
          | right; left; exists API_KEY_INVALID;
            (split; [now right|]); (split; [auto; fail|]); split; reflexivity ].
Qed.

Lemma ensureClient_cases st :
  exists b o g a,
    ensureClient W st = (b, setClients o g a st)
    /\ (b = false <->
        apiProvider (loadConfig W) <> otherProvider
        /\ configuredClient W st = None /\ apiKey (loadConfig W) = [])
    /\ (b = false -> o = None /\ g = None /\ a = None)
    /\ (b = true ->
        apiProvider (loadConfig W) = otherProvider
        \/ configuredClient W (setClients o g a st) <> None).
Proof.
  destruct st as [w v p h q xq oc gk ac pc ec tr].
  unfold ensureClient, initializeAIClient, configuredClient.
  destruct (apiProvider (loadConfig W)), oc, gk, ac;
    (destruct (apiKey (loadConfig W)) as [|k0 k]; cbn [truthy negb]);
    run; eexists _, _, _, _; (split; [reflexivity|]);
    (split; [split; [intro B; try discriminate B; repeat split; auto; discriminate
                    |intros (B1 & B2 & B3); try reflexivity; try discriminate;
                     congruence]|]);
    (split; intro B; try discriminate B); repeat split; auto; try discriminate;
    right; discriminate.
Qed.

Lemma processScreenshots_shape st :
  exists v pi h xq o g a pc ec new,
    processScreenshots W st
    = mkState (mainWindow st) v pi h (screenshotQueue st) xq o g a pc ec
        (trace st ++ new)
    /\ (pc = None \/ pc = currentProcessingAbortController st)
    /\ (ec = None \/ ec = currentExtraProcessingAbortController st)
    /\ requestsWithin
         (match view st with
          | queue =>
              [loadScreenshots W (filter (existsSync W) (screenshotQueue st)); []]
          | solutions =>
              [loadExistingScreenshots W
                 (screenshotQueue st
                  ++ filter (existsSync W) (extraScreenshotQueue st))]
          end)
         (apiProvider (loadConfig W)) new
    /\ (windowAlive st = false -> eventsOf new = []).
Proof.
  destruct (ensureClient_cases st) as (b & o & g & a & E & _).
  destruct (processMainQueue_shape (setClients o g a st))
    as (v' & pi & xq' & pc' & new & E' & R & P & D & _).
  destruct (processExtraQueue_shape (setClients o g a st))
    as (h' & ec' & new2 & E2 & R2 & P2 & D2 & _).
  unfold processScreenshots. rewrite E. clear E.
  destruct st as [w v p h q xq oc gk ac pc ec tr].
  cbn [mainWindow view setClients screenshotQueue extraScreenshotQueue] in *.
  destruct w as [w|].
  2:{ eexists _, _, _, _, _, _, _, _, _, []. rewrite app_nil_r.
      split; [reflexivity|]. split; [now right|]. split; [now right|].
      split; [now apply requestsWithin_silent|reflexivity]. }
  destruct b; cbn [negb].
  - destruct v.
    + rewrite E'. eexists _, _, _, _, _, _, _, _, _, _. split; [reflexivity|].
      split; [destruct P as [->|[-> _]]; auto|]. split; [now right|].
      split; [exact R|exact D].
    + rewrite E2. eexists _, _, _, _, _, _, _, _, _, _. split; [reflexivity|].
      split; [now right|]. split; [destruct P2 as [->|[-> _]]; auto|].
      split; [exact R2|exact D2].
  - destruct w as [[|] i l]; run.
    + eexists _, _, _, _, _, _, _, _, _, []. rewrite app_nil_r.
      split; [reflexivity|]. split; [now right|]. split; [now right|].
      split; [now apply requestsWithin_silent|reflexivity].
    + eexists _, _, _, _, _, _, _, _, _, _. split; [reflexivity|].
      split; [now right|]. split; [now right|].
      split; [now apply requestsWithin_silent|discriminate].
Qed.

Lemma cancelOngoingRequests_idle st :
  currentProcessingAbortController st = None ->
  currentExtraProcessingAbortController st = None ->
  cancelOngoingRequests st = setProblemInfo None (setHasDebugged false st).
Proof.
  destruct st as [w v p h q xq oc gk ac pc ec tr].
  cbn [currentProcessingAbortController currentExtraProcessingAbortController].
  intros -> ->. reflexivity.
Qed.

End FlowShapes.

(** ** Properties of the adapters and of the two flows *)

(** X6. One call of [callAIModel] makes exactly one vendor request when the
    client of the configured provider is there: it goes to that provider,
    carries the prompt and the images unchanged, and names a model (the
    configured one, or the provider's default when none is configured).
    Without the client, or with an unsupported provider, no request is made
    and the call fails. *)
Theorem callAIModel_one_request_to_configured_provider :
  forall (W : World) (prompt : jsstring) (images : list jsstring)
         (modelType : ModelType) (st : State),
  exists new : list Effect,
    trace (snd (callAIModel W prompt images modelType st)) = trace st ++ new /\
    match configuredClient W st with
    | Some _ =>
        exists request,
          requestsOf new = [request]
          /\ req_provider request = apiProvider (loadConfig W)
          /\ req_prompt request = prompt
          /\ req_images request = images
          /\ req_model request <> []
    | None =>
        requestsOf new = []
        /\ exists error, fst (callAIModel W prompt images modelType st) = Failure error
    end.
Proof.
  intros W prompt images modelType st.
  destruct (callAIModel_calls W prompt images modelType st)
    as (r & new & E & _ & C & _).
  rewrite E. exists new. split; [reflexivity|]. exact C.
Qed.

(** X7. With the problem info set, the solution stage and the debug stage
    succeed exactly when their call of [callAIModel] does, with the parse of
    its answer; a successful answer is never the empty text, so the guards
    "No response content received" (line 489) and "No debug content
    received" (line 624) are never taken. *)
Theorem stages_succeed_with_the_parsed_answer :
  forall (W : World) (st : State) (p : ProblemInfo) (screenshots : list jsstring),
    problemInfo st = Some p ->
    (forall modelType prompt images st0 c,
       fst (callAIModel W prompt images modelType st0) = Success c -> c <> []) /\
    fst (generateSolutionsHelper W st)
    = match fst (callAIModel W (solutionPrompt p (getLanguage W st)) [] solution st) with
      | Success c => Success (parseSolution c)
      | Failure error => Failure error
      end /\
    fst (processExtraScreenshotsHelper W screenshots st)
    = match fst (callAIModel W (debugPrompt p (getLanguage W st)) screenshots debugging
                   (updateProcessingStatus (js "Processing debug screenshots...") 30 st))
      with
      | Success c => Success (parseDebug c)
      | Failure error => Failure error
      end.
Proof.
  intros W st p screenshots P.
  assert (N : forall modelType prompt images st0 c,
             fst (callAIModel W prompt images modelType st0) = Success c -> c <> []).
  { intros modelType prompt images st0 c.
    destruct (callAIModel_calls W prompt images modelType st0)
      as (r & new & E & _ & _ & S).
    rewrite E. exact (S c). }
  split; [exact N|]. split.
  - unfold generateSolutionsHelper. rewrite P.
    pose proof (N solution (solutionPrompt p (getLanguage W st)) [] st) as N'.
    destruct (callAIModel W _ _ _ _) as [[c|e] st1]; cbn [fst] in *; [|reflexivity].
    specialize (N' c eq_refl). destruct c; [congruence|reflexivity].
  - unfold processExtraScreenshotsHelper. rewrite P.
    match goal with |- context [callAIModel W ?a ?b ?c ?s] =>
      pose proof (N c a b s) as N'; destruct (callAIModel W a b c s) as [[c0|e] st1]
    end; cbn [fst] in *; [|reflexivity].
    specialize (N' c0 eq_refl). destruct c0; [congruence|reflexivity].
Qed.

(** X8. [ensureClient] answers no exactly when the configured provider is
    one of the three supported ones, its client is missing and the
    configuration holds no API key; when it answers yes for a supported
    provider, the client [callAIModel] needs is in place afterwards. *)
Theorem ensureClient_refuses_exactly_without_key :
  forall (W : World) (st : State),
    (clientAvailable W st = false <->
     apiProvider (loadConfig W) <> otherProvider
     /\ configuredClient W st = None /\ apiKey (loadConfig W) = []) /\
    (clientAvailable W st = true ->
     apiProvider (loadConfig W) <> otherProvider ->
     configuredClient W (snd (ensureClient W st)) <> None).
Proof.
  intros W st. unfold clientAvailable.
  destruct (ensureClient_cases W st) as (b & o & g & a & E & I & _ & T).
  rewrite E. cbn [fst snd]. split; [exact I|].
  intros B S. destruct (T B) as [O|C]; [contradiction|exact C].
Qed.

(** X9. With a live window and no client to be had, [processScreenshots]
    sends API_KEY_INVALID and nothing else: no flow starts, no vendor is
    called, and view, problem info and queues stay as they were. *)
Theorem missing_client_reports_invalid_key :
  forall (W : World) (st : State),
    windowAlive st = true ->
    clientAvailable W st = false ->
    let st' := processScreenshots W st in
    trace st' = trace st ++ [Send API_KEY_INVALID NoPayload] /\
    view st' = view st /\ problemInfo st' = problemInfo st /\
    hasDebugged st' = hasDebugged st /\
    screenshotQueue st' = screenshotQueue st /\
    extraScreenshotQueue st' = extraScreenshotQueue st.
Proof.
  intros W st A C. unfold clientAvailable in C.
  destruct (ensureClient_cases W st) as (b & o & g & a & E & _).
  unfold processScreenshots. rewrite E in *. cbn [fst] in C. subst b.
  destruct st as [w v p h q xq oc gk ac pc ec tr].
  destruct w as [[[|] i l]|]; try discriminate A.
  cbv zeta. run. repeat split; reflexivity.
Qed.

(** X10. The events of a main run, as the renderer receives them (live
    window, client available, queue view): INITIAL_START, then either
    NO_SCREENSHOTS alone, or one failure event (INITIAL_SOLUTION_ERROR or
    API_KEY_INVALID) possibly after PROBLEM_EXTRACTED, or PROBLEM_EXTRACTED
    and SOLUTION_SUCCESS twice. Only the last ends in the solutions view,
    with the extra queue emptied and exactly two vendor requests made; a
    failure ends in the queue view with the extra queue untouched. *)
Theorem main_flow_event_sequences :
  forall (W : World) (st : State),
    windowAlive st = true ->
    clientAvailable W st = true ->
    view st = queue ->
    let st' := processScreenshots W st in
    exists new : list Effect,
      trace st' = trace st ++ new /\
      ((eventsOf new = [INITIAL_START; NO_SCREENSHOTS]
        /\ view st' = queue /\ problemInfo st' = problemInfo st
        /\ extraScreenshotQueue st' = extraScreenshotQueue st
        /\ requestsOf new = [])
       \/ (exists failure,
             (failure = INITIAL_SOLUTION_ERROR \/ failure = API_KEY_INVALID)
             /\ (eventsOf new = [INITIAL_START; failure]
                 \/ eventsOf new = [INITIAL_START; PROBLEM_EXTRACTED; failure])
             /\ view st' = queue
             /\ extraScreenshotQueue st' = extraScreenshotQueue st)
       \/ (eventsOf new
           = [INITIAL_START; PROBLEM_EXTRACTED; SOLUTION_SUCCESS; SOLUTION_SUCCESS]
           /\ view st' = solutions /\ extraScreenshotQueue st' = []
           /\ length (requestsOf new) = 2)).
Proof.
  intros W st A C V. unfold clientAvailable in C.
  destruct (ensureClient_cases W st) as (b & o & g & a & E & _).
  destruct (processMainQueue_shape W (setClients o g a st))
    as (v' & pi & xq' & pc' & new & E' & _ & _ & _ & Out).
  specialize (Out A).
  unfold processScreenshots. rewrite E in *. cbn [fst] in C. subst b.
  destruct st as [w v p h q xq oc gk ac pc ec tr].
  cbn [view] in V. subst v.
  destruct w as [w|]; [|discriminate A].
  cbv zeta. cbn [mainWindow negb setClients view] in *. rewrite E'.
  cbn [trace view problemInfo extraScreenshotQueue]. exists new.
  split; [reflexivity|].
  destruct Out as [(Ev & -> & -> & -> & R)|[(failure & Fl & Ev & -> & ->)|(Ev & -> & -> & L)]].
  - left. auto.
  - right; left. exists failure. auto.
  - right; right. auto.
Qed.

(** X11. The events of a debug run (live window, client available,
    solutions view): NO_SCREENSHOTS alone, or DEBUG_START followed by
    exactly one of DEBUG_SUCCESS and DEBUG_ERROR. [hasDebugged] becomes true
    on DEBUG_SUCCESS, which takes the problem info and exactly one vendor
    request, and is left as it was otherwise. *)
Theorem debug_flow_event_sequences :
  forall (W : World) (st : State),
    windowAlive st = true ->
    clientAvailable W st = true ->
    view st = solutions ->
    let st' := processScreenshots W st in
    exists new : list Effect,
      trace st' = trace st ++ new /\
      length (requestsOf new) <= 1 /\
      ((eventsOf new = [NO_SCREENSHOTS] /\ hasDebugged st' = hasDebugged st
        /\ requestsOf new = [])
       \/ (eventsOf new = [DEBUG_START; DEBUG_SUCCESS] /\ hasDebugged st' = true
           /\ length (requestsOf new) = 1 /\ problemInfo st <> None)
       \/ (eventsOf new = [DEBUG_START; DEBUG_ERROR]
           /\ hasDebugged st' = hasDebugged st)).
Proof.
  intros W st A C V. unfold clientAvailable in C.
  destruct (ensureClient_cases W st) as (b & o & g & a & E & _).
  destruct (processExtraQueue_shape W (setClients o g a st))
    as (h' & ec' & new & E' & (L & _) & _ & _ & Out).
  specialize (Out A).
  unfold processScreenshots. rewrite E in *. cbn [fst] in C. subst b.
  destruct st as [w v p h q xq oc gk ac pc ec tr].
  cbn [view] in V. subst v.
  destruct w as [w|]; [|discriminate A].
  cbv zeta. cbn [mainWindow negb setClients view] in *. rewrite E'.
  cbn [trace hasDebugged problemInfo] in *. exists new.
  split; [reflexivity|]. split; [exact L|]. exact Out.
Qed.

(** X12. Nothing is ever sent to a destroyed window: whatever else a run
    of [processScreenshots] does then, it emits no event. *)
Theorem destroyed_window_receives_nothing :
  forall (W : World) (st : State),
    windowAlive st = false ->
    exists new : list Effect,
      trace (processScreenshots W st) = trace st ++ new /\ eventsOf new = [].
Proof.
  intros W st A.
  destruct (processScreenshots_shape W st)
    as (v & pi & h & xq & o & g & a & pc & ec & new & E & _ & _ & _ & D).
  rewrite E. exists new. split; [reflexivity|]. exact (D A).
Qed.

(** X13. Whatever the state, one run of [processScreenshots] makes at most
    two vendor requests, all of them to the configured provider. In the
    queue view the first carries the data of every screenshot of the
    primary queue that exists and can be read, in order, and the second
    carries no image; in the solutions view the one request carries the
    readable existing screenshots of the primary queue followed by those of
    the extra queue. *)
Theorem requests_carry_the_screenshots :
  forall (W : World) (st : State),
    exists new : list Effect,
      trace (processScreenshots W st) = trace st ++ new /\
      length (requestsOf new) <= 2 /\
      Forall (fun request => req_provider request = apiProvider (loadConfig W))
             (requestsOf new) /\
      map req_images (requestsOf new)
      = firstn (length (requestsOf new))
          (match view st with
           | queue =>
               [loadScreenshots W (filter (existsSync W) (screenshotQueue st)); []]
           | solutions =>
               [loadExistingScreenshots W
                  (screenshotQueue st
                   ++ filter (existsSync W) (extraScreenshotQueue st))]
           end).
Proof.
  intros W st.
  destruct (processScreenshots_shape W st)
    as (v & pi & h & xq & o & g & a & pc & ec & new & E & _ & _ & (L & F & I) & _).
  rewrite E. exists new. split; [reflexivity|].
  split; [destruct (view st); cbn [length] in L; lia|]. split; assumption.
Qed.

(** X14. A run that starts with both abort handles clear ends with both
    clear (the finally clauses of lines 281 and 369), so that a cancel
    after the run aborts nothing and sends nothing: it only resets
    [hasDebugged] and the problem info. *)
Theorem cancel_after_a_run_is_silent :
  forall (W : World) (st : State),
    currentProcessingAbortController st = None ->
    currentExtraProcessingAbortController st = None ->
    let st' := processScreenshots W st in
    currentProcessingAbortController st' = None /\
    currentExtraProcessingAbortController st' = None /\
    trace (cancelOngoingRequests st')
    = trace st' ++ [SetHasDebugged false; SetProblemInfo None].
Proof.
  intros W st P X.
  destruct (processScreenshots_shape W st)
    as (v & pi & h & xq & o & g & a & pc & ec & new & E & Hp & Hx & _).
  cbv zeta. rewrite E.
  assert (pc = None) as -> by (destruct Hp; congruence).
  assert (ec = None) as -> by (destruct Hx; congruence).
  split; [reflexivity|]. split; [reflexivity|].
  rewrite cancelOngoingRequests_idle by reflexivity.
  cbn. now rewrite <- app_assoc.
Qed.

(** X15. No run of [processScreenshots] changes the window or consumes the
    primary queue; a run in the solutions view (debug flow) also leaves the
    view, the problem info and the extra queue as they were, and a run in
    the queue view (main flow) leaves [hasDebugged] as it was. *)
Theorem runs_keep_the_rest_of_the_session :
  forall (W : World) (st : State),
    let st' := processScreenshots W st in
    mainWindow st' = mainWindow st /\
    screenshotQueue st' = screenshotQueue st /\
    (view st = solutions ->
     view st' = solutions /\ problemInfo st' = problemInfo st /\
     extraScreenshotQueue st' = extraScreenshotQueue st) /\
    (view st = queue -> hasDebugged st' = hasDebugged st).
Proof.
  intros W st.
  destruct (processScreenshots_shape W st)
    as (v & pi & h & xq & o & g & a & pc & ec & new & E & _).
  cbv zeta. split; [now rewrite E|]. split; [now rewrite E|]. clear E.
  destruct (ensureClient_cases W st) as (b & o' & g' & a' & E & _).
  destruct (processMainQueue_shape W (setClients o' g' a' st))
    as (v1 & pi1 & xq1 & pc1 & new1 & E1 & _).
  destruct (processExtraQueue_shape W (setClients o' g' a' st))
    as (h2 & ec2 & new2 & E2 & _).
  unfold processScreenshots. rewrite E. clear E.
  destruct st as [w v0 p0 h0 q0 xq0 oc gk ac pc0 ec0 tr].
  cbn [view mainWindow setClients] in *.
  destruct w as [w|]; [|split; intros ->; repeat split; reflexivity].
  destruct b; cbn [negb].
  - destruct v0.
    + rewrite E1. split; [intro V; discriminate V|intros _; reflexivity].
    + rewrite E2. split; [intros _; repeat split; reflexivity|intro V; discriminate V].
  - destruct w as [[|] i l]; run; split; intros ->; repeat split; reflexivity.
Qed.

(** ** The properties at work on the sample session *)

Lemma stages_succeed_with_the_parsed_answer_witness :
  problemInfo solutionsSession = Some twoSum /\
  fst (generateSolutionsHelper answeringWorld solutionsSession)
  = Success (parseSolution sampleSolutionText).
Proof.
  split; [reflexivity|].
  destruct (stages_succeed_with_the_parsed_answer answeringWorld solutionsSession
              twoSum [] eq_refl) as (_ & -> & _).
  vm_compute; reflexivity.
Defined.

Lemma ensureClient_refuses_exactly_without_key_witness :
  clientAvailable keylessWorld queueSession = false /\
  configuredClient answeringWorld (snd (ensureClient answeringWorld queueSession))
  <> None.
Proof.
  split.
  - apply (ensureClient_refuses_exactly_without_key keylessWorld queueSession).
    split; [discriminate|]. split; reflexivity.
  - apply (ensureClient_refuses_exactly_without_key answeringWorld queueSession);
      [reflexivity|discriminate].
Defined.

Lemma missing_client_reports_invalid_key_witness :
  trace (processScreenshots keylessWorld queueSession)
  = [Send API_KEY_INVALID NoPayload].
Proof.
  apply (missing_client_reports_invalid_key keylessWorld queueSession);
    vm_compute; reflexivity.
Defined.

Lemma main_flow_event_sequences_witness :
  exists new : list Effect,
    trace (processScreenshots answeringWorld queueSession)
    = trace queueSession ++ new /\
    eventsOf new
    = [INITIAL_START; PROBLEM_EXTRACTED; SOLUTION_SUCCESS; SOLUTION_SUCCESS].
Proof.
  destruct (main_flow_event_sequences answeringWorld queueSession
              eq_refl eq_refl eq_refl) as (new & E & Out).
  exists new. split; [exact E|].
  assert (V : view (processScreenshots answeringWorld queueSession) = solutions)
    by (vm_compute; reflexivity).
  destruct Out as [(_ & Q & _)|[(_ & _ & _ & Q & _)|(Ev & _)]];
    [rewrite V in Q; discriminate Q|rewrite V in Q; discriminate Q|exact Ev].
Defined.

Lemma debug_flow_event_sequences_witness :
  exists new : list Effect,
    trace (processScreenshots answeringWorld solutionsSession)
    = trace solutionsSession ++ new /\
    eventsOf new = [DEBUG_START; DEBUG_SUCCESS].
Proof.
  destruct (debug_flow_event_sequences answeringWorld solutionsSession
              eq_refl eq_refl eq_refl) as (new & E & _ & Out).
  exists new. split; [exact E|].
  assert (H : hasDebugged (processScreenshots answeringWorld solutionsSession) = true)
    by (vm_compute; reflexivity).
  destruct Out as [(_ & Q & _)|[(Ev & _)|(_ & Q)]];
    [rewrite H in Q; discriminate Q|exact Ev|rewrite H in Q; discriminate Q].
Defined.

Lemma destroyed_window_receives_nothing_witness :
  exists new : list Effect,
    trace (processScreenshots answeringWorld closedSession)
    = trace closedSession ++ new /\ eventsOf new = [].
Proof.
  apply (destroyed_window_receives_nothing answeringWorld closedSession).
  reflexivity.
Defined.

Lemma cancel_after_a_run_is_silent_witness :
  let st' := processScreenshots answeringWorld queueSession in
  currentProcessingAbortController st' = None /\
  currentExtraProcessingAbortController st' = None /\
  trace (cancelOngoingRequests st')
  = trace st' ++ [SetHasDebugged false; SetProblemInfo None].
Proof.
  apply (cancel_after_a_run_is_silent answeringWorld queueSession); reflexivity.
Defined.

Lemma runs_keep_the_rest_of_the_session_witness :
  view (processScreenshots answeringWorld solutionsSession) = solutions /\
  problemInfo (processScreenshots answeringWorld solutionsSession) = Some twoSum /\
  hasDebugged (processScreenshots answeringWorld queueSession) = false.
Proof.
  destruct (runs_keep_the_rest_of_the_session answeringWorld solutionsSession)
    as (_ & _ & D & _).
  destruct (runs_keep_the_rest_of_the_session answeringWorld queueSession)
    as (_ & _ & _ & M).
  destruct (D eq_refl) as (V & P & _).
  split; [exact V|]. split; [exact P|]. exact (M eq_refl).
Defined.

(** ** The settings dialog *)

Ltac dialog_step :=
  cbn [SettingsDialog.key SettingsDialog.currentValue SettingsDialog.setValue
       SettingsDialog.handleProviderChange SettingsDialog.setModels
       SettingsDialog.apiProvider SettingsDialog.extractionModel
       SettingsDialog.solutionModel SettingsDialog.debuggingModel
       SettingsDialog.modelsFor SettingsDialog.openaiModels
       SettingsDialog.geminiModels SettingsDialog.anthropicModels] in *.

Lemma handleProviderChange_offered (st : SettingsDialog.DialogState) (i : nat)
      (provider : ApiProvider) :
  nth_error SettingsDialog.offeredProviders i = Some provider ->
  SettingsDialog.selectionsOffered (SettingsDialog.handleProviderChange provider st).
Proof.
  intros E c [<-|[<-|[<-|[]]]];
    (destruct i as [|[|[|i]]];
     cbn [nth_error SettingsDialog.offeredProviders] in E;
     try (destruct i; discriminate E);
     injection E as <-; dialog_step; cbn [map SettingsDialog.id In]; auto).
Qed.

Lemma setKey_offered (text : jsstring) (st st' : SettingsDialog.DialogState) :
  SettingsDialog.setKey text st = Some st' ->
  SettingsDialog.selectionsOffered st -> SettingsDialog.selectionsOffered st'.
Proof.
  unfold SettingsDialog.setKey, SettingsDialog.selectionsOffered.
  destruct (SettingsDialog.apiProvider st) eqn:P; intros [= <-] H c Hc;
    specialize (H c Hc); destruct (SettingsDialog.key c); exact H.
Qed.

Lemma act_offered (a : SettingsDialog.Action) (st st' : SettingsDialog.DialogState) :
  SettingsDialog.act a st = Some st' ->
  SettingsDialog.selectionsOffered st \/ SettingsDialog.isClickProvider a = true ->
  SettingsDialog.selectionsOffered st'.
Proof.
  destruct a as [i|i j|text]; cbn [SettingsDialog.act SettingsDialog.isClickProvider].
  - destruct (nth_error SettingsDialog.offeredProviders i) as [provider|] eqn:E;
      [|discriminate].
    intros [= <-] _. exact (handleProviderChange_offered st i provider E).
  - destruct (nth_error SettingsDialog.modelCategories i) as [category|] eqn:C;
      [|discriminate].
    destruct (nth_error _ j) as [m|] eqn:M; [|discriminate].
    intros [= <-] [H|H]; [|discriminate H].
    apply nth_error_In, (in_map SettingsDialog.id) in M.
    intros c Hc. specialize (H c Hc).
    destruct i as [|[|[|i]]];
      cbn [nth_error SettingsDialog.modelCategories] in C;
      try (destruct i; discriminate C);
      injection C as <-;
      destruct Hc as [<-|[<-|[<-|[]]]]; dialog_step; assumption.
  - intros E [H|H]; [|discriminate H]. exact (setKey_offered text st st' E H).
Qed.

(** X17. In the settings dialog, the model selected under every category
    is one of those listed for the selected provider: this holds at the
    start, is restored by every click on a provider (whatever configuration
    was loaded before) and is kept by every click on a listed model and by
    typing a key. *)
Theorem dialog_selection_is_always_offered :
  SettingsDialog.selectionsOffered SettingsDialog.initialState /\
  forall (actions : list SettingsDialog.Action) (st0 st : SettingsDialog.DialogState),
    SettingsDialog.session actions st0 = Some st ->
    SettingsDialog.selectionsOffered st0
    \/ existsb SettingsDialog.isClickProvider actions = true ->
    SettingsDialog.selectionsOffered st.
Proof.
  split.
  - intros c [<-|[<-|[<-|[]]]]; unfold SettingsDialog.initialState; dialog_step;
      cbn [map SettingsDialog.id In]; auto.
  - induction actions as [|a rest IH]; intros st0 st; cbn [SettingsDialog.session existsb].
    + intros [= <-] [H|H]; [exact H|discriminate H].
    + destruct (SettingsDialog.act a st0) as [st1|] eqn:A; [|discriminate].
      intros S H. apply (IH st1 st S).
      destruct H as [H|H].
      * left. apply (act_offered a st0 st1 A). now left.
      * apply orb_prop in H as [H|H]; [|now right].
        left. apply (act_offered a st0 st1 A). now right.
Qed.

(** X18. [maskApiKey] shows nothing of a key shorter than ten code units;
    of a longer key it shows the first four and the last four code units
    around three dots, whatever lies between them. *)
Theorem maskApiKey_hides_the_middle :
  (forall k : jsstring, length k < 10 -> SettingsDialog.maskApiKey k = []) /\
  (forall a m z : jsstring,
     length a = 4 -> length z = 4 -> 2 <= length m ->
     SettingsDialog.maskApiKey (a ++ m ++ z) = a ++ js "..." ++ z).
Proof.
  unfold SettingsDialog.maskApiKey. split.
  - intros k L. apply Nat.ltb_lt in L. rewrite L. now rewrite orb_true_r.
  - intros a m z A Z M.
    assert (L : length (a ++ m ++ z) = 8 + length m)
      by (rewrite !length_app; lia).
    destruct (Nat.ltb_spec (length (a ++ m ++ z)) 10) as [H|_]; [lia|].
    assert (T : truthy (a ++ m ++ z) = true)
      by (destruct a; [discriminate A|reflexivity]).
    assert (F : firstn 4 (a ++ m ++ z) = a).
    { rewrite <- A. now rewrite firstn_app, firstn_all, Nat.sub_diag, firstn_O, app_nil_r. }
    assert (S : skipn (length (a ++ m ++ z) - 4) (a ++ m ++ z) = z).
    { replace (length (a ++ m ++ z) - 4) with (length (a ++ m))
        by (rewrite !length_app; lia).
      now rewrite app_assoc, skipn_app, skipn_all, Nat.sub_diag. }
    rewrite T, F, S. reflexivity.
Qed.

Lemma dialog_selection_is_always_offered_witness :
  SettingsDialog.selectionsOffered
    (SettingsDialog.setValue SettingsDialog.solutionModelKey (js "gemini-2.0-flash")
       (SettingsDialog.handleProviderChange gemini
          (SettingsDialog.loadCurrentConfig
             (SettingsDialog.mkStoredConfig None None None (Some openai)
                (Some (js "o1")) None None)
             SettingsDialog.initialState))).
Proof.
  destruct dialog_selection_is_always_offered as [_ H].
  apply (H [SettingsDialog.ClickProvider 1; SettingsDialog.ClickModel 1 1]
           (SettingsDialog.loadCurrentConfig
              (SettingsDialog.mkStoredConfig None None None (Some openai)
                 (Some (js "o1")) None None)
              SettingsDialog.initialState)).
  - reflexivity.
  - right. reflexivity.
Defined.

Lemma maskApiKey_hides_the_middle_witness :
  SettingsDialog.maskApiKey (js "sk-test") = [] /\
  SettingsDialog.maskApiKey (js "sk-proj-0123456789abcd") = js "sk-p...abcd".
Proof.
  destruct maskApiKey_hides_the_middle as [S L]. split.
  - apply S. cbn. lia.
  - apply (L (js "sk-p") (js "roj-0123456789") (js "abcd")); cbn; auto; lia.
Defined.
